(** * Quantum-1: Ising-model circuit construction and resource dashboard

    A verification development for the three pieces of logic of the
    repository:

    - the Q# program of the quantum-dynamics notebook ([GetQubitIndex],
      [SetSequences], [ApplyAllX], [ApplyDoubleZ], [IsingModel2DSim] and its
      entry point [Ising10]), which emits the gates of a fourth-order
      Trotter-Suzuki simulation of the 2D Ising model;
    - the Python function [dashboard] with its inner [get_row], which turns
      the resource estimates of the service into display columns;
    - the Python functions [resource_estimation_job_from_qir] and
      [resource_estimation_job_from_logical_counts], which build the jobs
      of the resource estimator.

    Q# [Double] and Python [float] are IEEE 754 binary64 numbers; they are
    modelled by [spec_float] with the operations of [SpecFloat] at precision
    53 and exponent bound 1024, which compute inside Rocq.  Python [int] is
    modelled by [Z].  Q# [Int] is a 64-bit signed integer whose arithmetic
    wraps around: the Q# program is given in [QSharp.Int64] with the
    wrap-around written out, and next to it on [Z], with which it agrees
    wherever the lattice and the sequence length fit in an [Int]. *)

From Stdlib Require Import ZArith Lia String Ascii SpecFloat.
From Stdlib Require Import DecimalString DecimalZ DecimalPos.
From stdpp Require Import base list list_numbers strings gmap.

Set Warnings "-register-all".
Local Open Scope Z_scope.

(* ===================================================================== *)
(** * Binary64 numbers *)
(* ===================================================================== *)

Module Float64.

Definition prec : Z := 53.
Definition emax : Z := 1024.

Definition Double : Type := spec_float.

Definition sub : Double -> Double -> Double := SFsub prec emax.
Definition mul : Double -> Double -> Double := SFmul prec emax.
Definition div : Double -> Double -> Double := SFdiv prec emax.
Definition opp : Double -> Double := SFopp.
Definition ltb : Double -> Double -> bool := SFltb.

(** The binary64 number nearest to the integer [z] (ties to even);
    an infinity when [z] is beyond the largest finite number. *)
Definition of_Z (z : Z) : Double := binary_normalize prec emax z 0 false.

(** The integer [z] as an exact, not yet rounded, operand: the operations
    of [SpecFloat] round their result, whatever the size of the mantissas
    they are given. *)
Definition exact_Z (z : Z) : Double :=
  match z with
  | Z0 => S754_zero false
  | Zpos m => S754_finite false m 0
  | Zneg m => S754_finite true m 0
  end.

Definition is_nan (x : Double) : bool :=
  match x with S754_nan => true | _ => false end.
Definition is_inf (x : Double) : bool :=
  match x with S754_infinity _ => true | _ => false end.
Definition is_zero (x : Double) : bool :=
  match x with S754_zero _ => true | _ => false end.
Definition is_finite (x : Double) : bool :=
  match x with S754_zero _ | S754_finite _ _ _ => true | _ => false end.
Definition sign (x : Double) : bool :=
  match x with
  | S754_zero s | S754_infinity s | S754_finite s _ _ => s
  | S754_nan => false
  end.

(** A number of the format: canonical mantissa, exponent in range. *)
Definition valid (x : Double) : bool := valid_binary prec emax x.

(** The value [(-1)^s * m * 2^e] of a finite number as the fraction
    [num / den] with [den] a power of two. *)
Definition num (x : Double) : Z :=
  match x with
  | S754_finite s m e =>
      let a := if 0 <=? e then Zpos m * 2 ^ e else Zpos m in
      if s then - a else a
  | _ => 0
  end.
Definition den (x : Double) : Z :=
  match x with
  | S754_finite _ _ e => if 0 <=? e then 1 else 2 ^ (- e)
  | _ => 1
  end.

(** Nearest integer to [n / d] for [0 <= n] and [0 < d], ties to even. *)
Definition div_nearest_even (n d : Z) : Z :=
  let q := n / d in
  let r := n mod d in
  match 2 * r ?= d with
  | Lt => q
  | Gt => q + 1
  | Eq => if Z.even q then q else q + 1
  end.

(** Nearest integer to a finite number, ties to even. *)
Definition round_to_Z (x : Double) : Z :=
  let n := num x in
  let r := div_nearest_even (Z.abs n) (den x) in
  if n <? 0 then - r else r.

(** The least integer that is not below a finite number. *)
Definition ceiling (x : Double) : Z := - ((- num x) / den x).

(** Zero, or finite with a magnitude below [2 ^ K]. *)
Definition below (K : Z) (x : Double) : Prop :=
  match x with
  | S754_zero _ => True
  | S754_finite _ m e => Z.pos (digits2_pos m) + e <= K
  | _ => False
  end.

Declare Scope double_scope.
Delimit Scope double_scope with D.
Bind Scope double_scope with Double.
Infix "-" := sub : double_scope.
Infix "*" := mul : double_scope.
Infix "/" := div : double_scope.
Notation "- x" := (opp x) : double_scope.

End Float64.

Import Float64.

(* ===================================================================== *)
(** * The Q# program *)
(* ===================================================================== *)

Module QSharp.

(** ** Failures, functions and operations *)

(** What makes a Q# run fail here: an array index outside the array, and
    an array or qubit register of negative size. *)
Inductive Failure :=
| IndexOutOfRange
| NegativeSize.

(** A Q# [function]: a result, or a failure. *)
Inductive Fallible (A : Type) :=
| Ok (a : A)
| Fail (e : Failure).
Arguments Ok {A} a.
Arguments Fail {A} e.

Definition Qubit : Type := nat.

Inductive Gate :=
| Rx (theta : Double) (q : Qubit)
| Rz (theta : Double) (q : Qubit)
| CNOT (control target : Qubit)
| M (q : Qubit).

(** The target machine: the gates issued so far, the qubits allocated so
    far and the number of measurements made. *)
Record Machine := {
  gates : list Gate;
  allocated : nat;
  measured : nat
}.

(** The outcome of the [k]-th measurement of a run ([true] for [One]):
    the one thing a run does not decide itself. *)
Definition Outcomes : Type := nat -> bool.

(** A Q# [operation]: it reads measurement outcomes, changes the machine,
    and returns a result or fails. *)
Definition Op (A : Type) : Type :=
  Outcomes -> Machine -> Fallible (A * Machine).

Definition ret {A} (a : A) : Op A := fun _ m => Ok (a, m).
Definition bind {A B} (c : Op A) (k : A -> Op B) : Op B :=
  fun w m =>
    match c w m with
    | Ok (a, m') => k a w m'
    | Fail e => Fail e
    end.
Definition lift {A} (r : Fallible A) : Op A :=
  fun _ m => match r with Ok a => Ok (a, m) | Fail e => Fail e end.

Definition fbind {A B} (r : Fallible A) (k : A -> Fallible B) : Fallible B :=
  match r with Ok a => k a | Fail e => Fail e end.

Declare Scope op_scope.
Delimit Scope op_scope with op.
Notation "x <- c ;; k" := (bind c (fun x => k))
  (at level 100, c at next level, right associativity) : op_scope.
Notation "c ;; k" := (bind c (fun _ => k))
  (at level 100, right associativity) : op_scope.

Declare Scope fallible_scope.
Delimit Scope fallible_scope with fn.
Notation "x <- c ;; k" := (fbind c (fun x => k))
  (at level 100, c at next level, right associativity) : fallible_scope.

(** [for x in xs { body }] *)
Fixpoint ForEach {A} (xs : list A) (body : A -> Op unit) : Op unit :=
  match xs with
  | [] => ret tt
  | x :: rest => (body x ;; ForEach rest body)%op
  end.

(** [for x in xs] over a loop that updates mutable variables of type [S]. *)
Fixpoint ForFold {A S} (xs : list A) (body : S -> A -> Fallible S) (s : S)
  : Fallible S :=
  match xs with
  | [] => Ok s
  | x :: rest => (s' <- body s x ;; ForFold rest body s')%fn
  end.

(** ** Ranges and arrays *)

(** The values of the range [start..step..stop]. *)
Definition Range (start step stop : Z) : list Z :=
  if 0 <? step then
    (fun k => start + step * k) <$> seqZ 0 ((stop - start) `div` step + 1)
  else if step <? 0 then
    (fun k => start + step * k) <$> seqZ 0 ((start - stop) `div` (- step) + 1)
  else [].

(** [Length(xs)] *)
Definition Length {A} (xs : list A) : Z := Z.of_nat (length xs).

(** [[v, size = n]] *)
Definition ConstantArray {A} (n : Z) (v : A) : Fallible (list A) :=
  if n <? 0 then Fail NegativeSize else Ok (replicate (Z.to_nat n) v).

(** [xs[i]] *)
Definition Item {A} (xs : list A) (i : Z) : Fallible A :=
  if (0 <=? i) && (i <? Length xs) then
    match xs !! Z.to_nat i with
    | Some x => Ok x
    | None => Fail IndexOutOfRange
    end
  else Fail IndexOutOfRange.

(** [xs w/ i <- v] *)
Definition Updated {A} (xs : list A) (i : Z) (v : A) : Fallible (list A) :=
  if (0 <=? i) && (i <? Length xs) then Ok (<[Z.to_nat i := v]> xs)
  else Fail IndexOutOfRange.

(** ** Intrinsic operations *)

Definition emit (g : Gate) : Op unit :=
  fun _ m =>
    Ok (tt, {| gates := gates m ++ [g];
               allocated := allocated m;
               measured := measured m |}).

(** [use qs = Qubit[n]]: the next [n] qubits.  Their release at the end of
    the block issues no gate. *)
Definition UseQubits (n : Z) : Op (list Qubit) :=
  fun _ m =>
    if n <? 0 then Fail NegativeSize
    else Ok (seq (allocated m) (Z.to_nat n),
             {| gates := gates m;
                allocated := (allocated m + Z.to_nat n)%nat;
                measured := measured m |}).

(** [M(q)]: the gate is issued and the next outcome is returned. *)
Definition Measure (q : Qubit) : Op bool :=
  fun w m =>
    Ok (w (measured m),
        {| gates := gates m ++ [M q];
           allocated := allocated m;
           measured := S (measured m) |}).

(** [Ignore(x)] *)
Definition Ignore {A} (x : A) : Op unit := ret tt.

(** [ApplyToEach(op, qs)] *)
Definition ApplyToEach (op : Qubit -> Op unit) (qs : list Qubit) : Op unit :=
  ForEach qs op.

(** [within { outer } apply { inner }]: [outer], [inner], then the adjoint
    of [outer]. *)
Definition WithinApply (outer adjoint_outer inner : Op unit) : Op unit :=
  (outer ;; inner ;; adjoint_outer)%op.

(** ** The program *)

(** Q# [Int] is a 64-bit integer: [in_Int] is its range and [wrap] the
    value that 64-bit arithmetic gives to an integer.  The definitions of
    this part compute on [Z]; the module [Int64] at the end of [QSharp] is
    the program with the wrap-around of every operation on [Int].  Where no
    operation leaves the range the two are the same program (lemmas
    [GetQubitIndex_Int64], [SetSequences_no_wrap], [ApplyDoubleZ_no_wrap],
    [IsingModel2DSim_no_wrap]); where one does, as in [N * N] for
    [N = 2 ^ 32], they differ, and [Int64] is the program that runs. *)
Definition in_Int (z : Z) : Prop := - 2 ^ 63 <= z < 2 ^ 63.
Definition wrap (z : Z) : Z := (z + 2 ^ 63) `mod` 2 ^ 64 - 2 ^ 63.

(** [[
    function GetQubitIndex(row : Int, col : Int, n : Int) : Int {
        return row % 2 == 0 ? col + n * row | (n - 1 - col) + n * row;
    }
    ]]
    [%] is the remainder of the truncating division. *)
Definition GetQubitIndex (row col n : Z) : Z :=
  if row `rem` 2 =? 0 then col + n * row else (n - 1 - col) + n * row.

(** A literal with an integral value: [0.0], [1.0], [2.0], [3.0], [4.0]. *)
Definition lit (z : Z) : Double := of_Z z.

(** [[
    let values = [
        -J * p * dt,
        g * p * dt,
        -J * p * dt,
        g * p * dt,
        -J * (1.0 - 3.0 * p) * dt / 2.0,
        g * (1.0 - 4.0 * p) * dt,
        -J * (1.0 - 3.0 * p) * dt / 2.0,
        g * p * dt,
        -J * p * dt,
        g * p * dt
    ];
    ]]
    The unary minus binds more tightly than [*]. *)
Definition values (p dt J g : Double) : list Double :=
  [ (- J * p * dt)%D;
    (g * p * dt)%D;
    (- J * p * dt)%D;
    (g * p * dt)%D;
    (- J * (lit 1 - lit 3 * p) * dt / lit 2)%D;
    (g * (lit 1 - lit 4 * p) * dt)%D;
    (- J * (lit 1 - lit 3 * p) * dt / lit 2)%D;
    (g * p * dt)%D;
    (- J * p * dt)%D;
    (g * p * dt)%D ].

(** [[
    function SetSequences(len : Int, p : Double, dt : Double, J : Double, g : Double)
        : (Double[], Double[]) {
        mutable seqA = [0.0, size=len];
        mutable seqB = [0.0, size=len];
        let values = ...;
        set seqA w/= 0 <- -J * p * dt / 2.0;
        set seqA w/= len - 1 <- -J * p * dt / 2.0;
        for i in 1..len - 2 {
            if i % 2 == 0 { set seqA w/= i <- values[i % 10]; }
            else { set seqB w/= i <- values[i % 10]; }
        }
        return (seqA, seqB);
    }
    ]] *)
Definition SetSequences (len : Z) (p dt J g : Double)
  : Fallible (list Double * list Double) :=
  (seqA <- ConstantArray len (lit 0) ;;
   seqB <- ConstantArray len (lit 0) ;;
   seqA <- Updated seqA 0 (- J * p * dt / lit 2)%D ;;
   seqA <- Updated seqA (len - 1) (- J * p * dt / lit 2)%D ;;
   ForFold (Range 1 1 (len - 2))
     (fun '(seqA, seqB) i =>
        if i `rem` 2 =? 0 then
          v <- Item (values p dt J g) (i `rem` 10) ;;
          seqA <- Updated seqA i v ;;
          Ok (seqA, seqB)
        else
          v <- Item (values p dt J g) (i `rem` 10) ;;
          seqB <- Updated seqB i v ;;
          Ok (seqA, seqB))
     (seqA, seqB))%fn.

(** [[
    operation ApplyAllX(qs : Qubit[], theta : Double) : Unit {
        ApplyToEach(Rx(2.0 * theta, _), qs);
    }
    ]] *)
Definition ApplyAllX (qs : list Qubit) (theta : Double) : Op unit :=
  ApplyToEach (fun q => emit (Rx (lit 2 * theta)%D q)) qs.

(** [[
    operation ApplyDoubleZ(n : Int, qs : Qubit[], theta : Double, dir : Bool, grp : Bool)
        : Unit {
        let start = grp ? 0 | 1;
        for i in 0..n - 1 {
            for j in start..2..n - 2 {
                let (row, col) = dir ? (i, j) | (j, i);
                let ind1 = GetQubitIndex(row, col, n);
                let ind2 = dir ? GetQubitIndex(row, col + 1, n)
                               | GetQubitIndex(row + 1, col, n);
                within { CNOT(qs[ind1], qs[ind2]); }
                apply { Rz(2.0 * theta, qs[ind2]); }
            }
        }
    }
    ]]
    [CNOT] is its own adjoint. *)
Definition ApplyDoubleZ (n : Z) (qs : list Qubit) (theta : Double)
    (dir grp : bool) : Op unit :=
  let start := if grp then 0 else 1 in
  ForEach (Range 0 1 (n - 1)) (fun i =>
    ForEach (Range start 2 (n - 2)) (fun j =>
      let '(row, col) := if dir then (i, j) else (j, i) in
      let ind1 := GetQubitIndex row col n in
      let ind2 := if dir then GetQubitIndex row (col + 1) n
                  else GetQubitIndex (row + 1) col n in
      let cnot := (q1 <- lift (Item qs ind1) ;;
                   q2 <- lift (Item qs ind2) ;;
                   emit (CNOT q1 q2))%op in
      WithinApply cnot cnot
        (q2 <- lift (Item qs ind2) ;; emit (Rz (lit 2 * theta)%D q2))%op)).

Section Library.
(** [PowD] and [Ceiling] of [Microsoft.Quantum.Math]. *)
Variable PowD : Double -> Double -> Double.
Variable Ceiling : Double -> Z.

(** [[
    operation IsingModel2DSim(N : Int, J : Double, g : Double, totTime : Double,
                              dt : Double, eps : Double, noops : Int) : Unit {
        use qs = Qubit[N * N];
        let len = Length(qs);
        let p = 1.0 / (4.0 - PowD(4.0, 1.0 / 3.0));
        let t = Ceiling(totTime / dt);
        let seqLen = 10 * t + 1;
        let (seqA, seqB) = SetSequences(seqLen, p, dt, J, g);
        for i in 0..seqLen - 1 {
            if i % 2 == 0 { ApplyAllX(qs, seqA[i]); }
            else {
                for (dir, grp) in [(true, true), (true, false), (false, true), (false, false)] {
                    ApplyDoubleZ(N, qs, seqB[i], dir, grp);
                }
            }
        }
        for _ in 1..noops { Ignore(M(qs[0])); }
    }
    ]] *)
Definition IsingModel2DSim (N : Z) (J g totTime dt eps : Double)
    (noops : Z) : Op unit :=
  (qs <- UseQubits (N * N) ;;
   let len := Length qs in
   let p := (lit 1 / (lit 4 - PowD (lit 4) (lit 1 / lit 3)))%D in
   let t := Ceiling (totTime / dt)%D in
   let seqLen := 10 * t + 1 in
   seqs <- lift (SetSequences seqLen p dt J g) ;;
   let '(seqA, seqB) := seqs in
   ForEach (Range 0 1 (seqLen - 1)) (fun i =>
     if i `rem` 2 =? 0 then
       theta <- lift (Item seqA i) ;;
       ApplyAllX qs theta
     else
       ForEach [(true, true); (true, false); (false, true); (false, false)]
         (fun '(dir, grp) =>
            theta <- lift (Item seqB i) ;;
            ApplyDoubleZ N qs theta dir grp)) ;;
   ForEach (Range 1 1 noops) (fun _ =>
     q <- lift (Item qs 0) ;;
     r <- Measure q ;;
     Ignore r))%op.
End Library.

(** A run from the initial machine. *)
Definition initial : Machine := {| gates := []; allocated := 0; measured := 0 |}.

Definition run {A} (c : Op A) (w : Outcomes) : Fallible (A * Machine) :=
  c w initial.

(** The value of [PowD(4.0, 1.0 / 3.0)] in binary64 arithmetic,
    [1.5874010519681994], for runs on concrete inputs. *)
Definition PowD_cube_root_4 (x y : Double) : Double :=
  S754_finite false 7149018786131516 (-52).

(** ** What the program computes, in closed form *)

(** The entry of [values] that the loop of [SetSequences] reads at the
    remainder [r]. *)
Definition value_at (p dt J g : Double) (r : Z) : Double :=
  default (lit 0) (values p dt J g !! Z.to_nat r).

(** The entries of the two sequences that [SetSequences] returns. *)
Definition seqA_entry (len : Z) (p dt J g : Double) (i : Z) : Double :=
  if (i =? 0) || (i =? len - 1) then (- J * p * dt / lit 2)%D
  else if i `rem` 2 =? 0 then value_at p dt J g (i `rem` 10)
  else lit 0.

Definition seqB_entry (len : Z) (p dt J g : Double) (i : Z) : Double :=
  if (1 <=? i) && (i <=? len - 2) && negb (i `rem` 2 =? 0)
  then value_at p dt J g (i `rem` 10)
  else lit 0.

(** The two sequences after the iterations [1 .. k] of the loop of
    [SetSequences]. *)
Definition seqA_upto (k len : Z) (p dt J g : Double) (i : Z) : Double :=
  if (i =? 0) || (i =? len - 1) then (- J * p * dt / lit 2)%D
  else if (i <=? k) && (i `rem` 2 =? 0) then value_at p dt J g (i `rem` 10)
  else lit 0.

Definition seqB_upto (k len : Z) (p dt J g : Double) (i : Z) : Double :=
  if (1 <=? i) && (i <=? k) && negb (i `rem` 2 =? 0)
  then value_at p dt J g (i `rem` 10)
  else lit 0.

(** The gates of one call of [ApplyAllX]. *)
Definition X_layer (qs : list Qubit) (theta : Double) : list Gate :=
  (fun q => Rx (lit 2 * theta)%D q) <$> qs.

(** The two array indices of the iteration [(i, j)] of [ApplyDoubleZ]. *)
Definition pair_indices (n : Z) (dir : bool) (i j : Z) : Z * Z :=
  let '(row, col) := if dir then (i, j) else (j, i) in
  (GetQubitIndex row col n,
   if dir then GetQubitIndex row (col + 1) n else GetQubitIndex (row + 1) col n).

(** The gates of one iteration, of one call of [ApplyDoubleZ], and of the
    four calls that make one interaction term. *)
Definition ZZ_term (n : Z) (qs : list Qubit) (theta : Double) (dir : bool)
    (i j : Z) : list Gate :=
  let q1 := qs !!! Z.to_nat (pair_indices n dir i j).1 in
  let q2 := qs !!! Z.to_nat (pair_indices n dir i j).2 in
  [CNOT q1 q2; Rz (lit 2 * theta)%D q2; CNOT q1 q2].

Definition ZZ_pass (n : Z) (qs : list Qubit) (theta : Double) (dir grp : bool)
  : list Gate :=
  flat_map (fun i =>
    flat_map (fun j => ZZ_term n qs theta dir i j)
      (Range (if grp then 0 else 1) 2 (n - 2)))
    (Range 0 1 (n - 1)).

Definition ZZ_layer (n : Z) (qs : list Qubit) (theta : Double) : list Gate :=
  flat_map (fun '(dir, grp) => ZZ_pass n qs theta dir grp)
    [(true, true); (true, false); (false, true); (false, false)].

(** The exponential term of index [i]: the transverse field on every
    qubit at an even index, the interaction on every pair of neighbours
    at an odd one. *)
Definition exponential (n : Z) (qs : list Qubit) (len : Z) (p dt J g : Double)
    (i : Z) : list Gate :=
  if i `rem` 2 =? 0 then X_layer qs (seqA_entry len p dt J g i)
  else ZZ_layer n qs (seqB_entry len p dt J g i).

(** An operation that issues the gates [gs] and does nothing else. *)
Definition issues (c : Op unit) (gs : list Gate) : Prop :=
  forall w m,
    c w m = Ok (tt, {| gates := gates m ++ gs;
                       allocated := allocated m;
                       measured := measured m |}).

(** An operation whose effect and result do not depend on the outcomes
    of the measurements. *)
Definition oblivious {A} (c : Op A) : Prop :=
  forall w1 w2 m, c w1 m = c w2 m.

(** ** The entry point *)

(** The literals [0.25] and [0.001]: the binary64 numbers nearest to
    them. *)
Definition literal_0_25 : Double := S754_finite false 4503599627370496 (-54).
Definition literal_0_001 : Double := S754_finite false 4611686018427388 (-62).

Section Entry.
Variable PowD : Double -> Double -> Double.
Variable Ceiling : Double -> Z.

(** [[
    operation Ising10(noops : Int) : Unit {
        IsingModel2DSim(10, 1.0, 1.0, 20.0, 0.25, 0.001, noops);
    }
    ]] *)
Definition Ising10 (noops : Z) : Op unit :=
  IsingModel2DSim PowD Ceiling 10 (lit 1) (lit 1) (lit 20) literal_0_25 literal_0_001 noops.
End Entry.

(** ** The pairs of the interaction, and the gates by kind *)

(** The pairs of array indices [(ind1, ind2)] of the iterations of one
    call of [ApplyDoubleZ], in the order of its two loops, and of the four
    calls of one interaction term. *)
Definition pass_pairs (n : Z) (dir grp : bool) : list (Z * Z) :=
  flat_map (fun i =>
    (fun j => pair_indices n dir i j) <$> Range (if grp then 0 else 1) 2 (n - 2))
    (Range 0 1 (n - 1)).

Definition layer_pairs (n : Z) : list (Z * Z) :=
  flat_map (fun '(dir, grp) => pass_pairs n dir grp)
    [(true, true); (true, false); (false, true); (false, false)].

(** The gates that one iteration of [ApplyDoubleZ] issues on the qubits
    at the two indices of [e]. *)
Definition ZZ_gates (qs : list Qubit) (theta : Double) (e : Z * Z) : list Gate :=
  let q1 := qs !!! Z.to_nat e.1 in
  let q2 := qs !!! Z.to_nat e.2 in
  [CNOT q1 q2; Rz (lit 2 * theta)%D q2; CNOT q1 q2].

(** The indices of two sites of the [n] by [n] lattice that are next to
    each other: a site and its right neighbour, or a site and the site
    below it. *)
Definition neighbours (n : Z) (e : Z * Z) : Prop :=
  (exists row col, 0 <= row < n /\ 0 <= col < n - 1 /\
     e = (GetQubitIndex row col n, GetQubitIndex row (col + 1) n)) \/
  (exists row col, 0 <= row < n - 1 /\ 0 <= col < n /\
     e = (GetQubitIndex row col n, GetQubitIndex (row + 1) col n)).

Definition is_Rx (g : Gate) : bool := match g with Rx _ _ => true | _ => false end.
Definition is_Rz (g : Gate) : bool := match g with Rz _ _ => true | _ => false end.
Definition is_CNOT (g : Gate) : bool := match g with CNOT _ _ => true | _ => false end.
Definition is_M (g : Gate) : bool := match g with M _ => true | _ => false end.

(** The number of the gates of one kind. *)
Definition count_gates (f : Gate -> bool) (gs : list Gate) : Z :=
  Z.of_nat (length (List.filter f gs)).

(** The qubits that a gate acts on. *)
Definition qubits_of (g : Gate) : list Qubit :=
  match g with
  | Rx _ q | Rz _ q | M q => [q]
  | CNOT c t => [c; t]
  end.

(** The exponential term of index [i] when the size of the lattice is not
    positive: the loops of [ApplyDoubleZ] are empty, and what is left is
    the transverse field. *)
Definition field_only (qs : list Qubit) (len : Z) (p dt J g : Double) (i : Z)
  : list Gate :=
  if i `rem` 2 =? 0 then X_layer qs (seqA_entry len p dt J g i) else [].

(** ** The program on the 64-bit [Int] *)

(** Every operation of the program on [Int], followed by the wrap-around
    of the 64-bit integers: [add], [sub] and [mul] are the [+], [-] and [*]
    of [Int].  The remainder [%] by [2] or [10] and the comparisons do not
    leave the range.  The arguments of type [Int] are meant in the range of
    [Int].  [ApplyAllX] has no integer arithmetic: it is the operation
    above. *)
Module Int64.

Definition add (a b : Z) : Z := wrap (a + b).
Definition sub (a b : Z) : Z := wrap (a - b).
Definition mul (a b : Z) : Z := wrap (a * b).

(** [[
    function GetQubitIndex(row : Int, col : Int, n : Int) : Int {
        return row % 2 == 0 ? col + n * row | (n - 1 - col) + n * row;
    }
    ]] *)
Definition GetQubitIndex (row col n : Z) : Z :=
  if row `rem` 2 =? 0 then add col (mul n row)
  else add (sub (sub n 1) col) (mul n row).

(** [SetSequences], with [len - 1] and [len - 2] on [Int]. *)
Definition SetSequences (len : Z) (p dt J g : Double)
  : Fallible (list Double * list Double) :=
  (seqA <- ConstantArray len (lit 0) ;;
   seqB <- ConstantArray len (lit 0) ;;
   seqA <- Updated seqA 0 (- J * p * dt / lit 2)%D ;;
   seqA <- Updated seqA (sub len 1) (- J * p * dt / lit 2)%D ;;
   ForFold (Range 1 1 (sub len 2))
     (fun '(seqA, seqB) i =>
        if i `rem` 2 =? 0 then
          v <- Item (values p dt J g) (i `rem` 10) ;;
          seqA <- Updated seqA i v ;;
          Ok (seqA, seqB)
        else
          v <- Item (values p dt J g) (i `rem` 10) ;;
          seqB <- Updated seqB i v ;;
          Ok (seqA, seqB))
     (seqA, seqB))%fn.

(** The two array indices [ind1] and [ind2] of the iteration [(i, j)] of
    [ApplyDoubleZ]. *)
Definition pair_indices (n : Z) (dir : bool) (i j : Z) : Z * Z :=
  let '(row, col) := if dir then (i, j) else (j, i) in
  (GetQubitIndex row col n,
   if dir then GetQubitIndex row (add col 1) n
   else GetQubitIndex (add row 1) col n).

(** [[
    operation ApplyDoubleZ(n : Int, qs : Qubit[], theta : Double, dir : Bool, grp : Bool)
        : Unit {
        let start = grp ? 0 | 1;
        for i in 0..n - 1 {
            for j in start..2..n - 2 {
                let (row, col) = dir ? (i, j) | (j, i);
                let ind1 = GetQubitIndex(row, col, n);
                let ind2 = dir ? GetQubitIndex(row, col + 1, n)
                               | GetQubitIndex(row + 1, col, n);
                within { CNOT(qs[ind1], qs[ind2]); }
                apply { Rz(2.0 * theta, qs[ind2]); }
            }
        }
    }
    ]] *)
Definition ApplyDoubleZ (n : Z) (qs : list Qubit) (theta : Double)
    (dir grp : bool) : Op unit :=
  let start := if grp then 0 else 1 in
  ForEach (Range 0 1 (sub n 1)) (fun i =>
    ForEach (Range start 2 (sub n 2)) (fun j =>
      let '(row, col) := if dir then (i, j) else (j, i) in
      let ind1 := GetQubitIndex row col n in
      let ind2 := if dir then GetQubitIndex row (add col 1) n
                  else GetQubitIndex (add row 1) col n in
      let cnot := (q1 <- lift (Item qs ind1) ;;
                   q2 <- lift (Item qs ind2) ;;
                   emit (CNOT q1 q2))%op in
      WithinApply cnot cnot
        (q2 <- lift (Item qs ind2) ;; emit (Rz (lit 2 * theta)%D q2))%op)).

Section Library.
Variable PowD : Double -> Double -> Double.
Variable Ceiling : Double -> Z.

(** [[
    operation IsingModel2DSim(N : Int, J : Double, g : Double, totTime : Double,
                              dt : Double, eps : Double, noops : Int) : Unit {
        use qs = Qubit[N * N];
        let len = Length(qs);
        let p = 1.0 / (4.0 - PowD(4.0, 1.0 / 3.0));
        let t = Ceiling(totTime / dt);
        let seqLen = 10 * t + 1;
        let (seqA, seqB) = SetSequences(seqLen, p, dt, J, g);
        for i in 0..seqLen - 1 {
            if i % 2 == 0 { ApplyAllX(qs, seqA[i]); }
            else {
                for (dir, grp) in [(true, true), (true, false), (false, true), (false, false)] {
                    ApplyDoubleZ(N, qs, seqB[i], dir, grp);
                }
            }
        }
        for _ in 1..noops { Ignore(M(qs[0])); }
    }
    ]] *)
Definition IsingModel2DSim (N : Z) (J g totTime dt eps : Double)
    (noops : Z) : Op unit :=
  (qs <- UseQubits (mul N N) ;;
   let len := Length qs in
   let p := (lit 1 / (lit 4 - PowD (lit 4) (lit 1 / lit 3)))%D in
   let t := Ceiling (totTime / dt)%D in
   let seqLen := add (mul 10 t) 1 in
   seqs <- lift (SetSequences seqLen p dt J g) ;;
   let '(seqA, seqB) := seqs in
   ForEach (Range 0 1 (sub seqLen 1)) (fun i =>
     if i `rem` 2 =? 0 then
       theta <- lift (Item seqA i) ;;
       ApplyAllX qs theta
     else
       ForEach [(true, true); (true, false); (false, true); (false, false)]
         (fun '(dir, grp) =>
            theta <- lift (Item seqB i) ;;
            ApplyDoubleZ N qs theta dir grp)) ;;
   ForEach (Range 1 1 noops) (fun _ =>
     q <- lift (Item qs 0) ;;
     r <- Measure q ;;
     Ignore r))%op.

(** [[
    operation Ising10(noops : Int) : Unit {
        IsingModel2DSim(10, 1.0, 1.0, 20.0, 0.25, 0.001, noops);
    }
    ]] *)
Definition Ising10 (noops : Z) : Op unit :=
  IsingModel2DSim 10 (lit 1) (lit 1) (lit 20) literal_0_25 literal_0_001 noops.
End Library.

End Int64.

End QSharp.

(* ===================================================================== *)
(** * The product formula of the documentation *)
(* ===================================================================== *)

(** The notebook documents the Hamiltonian [H = B + A] with the interaction
    [B = -J * sum Z_i Z_j] and the transverse field [A = g * sum X_j], and
    the expanded fourth-order step

    [U4 = e^{-iA p D/2} e^{-iB p D} e^{-iA p D} e^{-iB p D} e^{-iA (1-3p) D/2}
          e^{-iB (1-4p) D} e^{-iA (1-3p) D/2} e^{-iB p D} e^{-iA p D}
          e^{-iB p D} e^{-iA p D/2}]

    whose last factor merges with the first factor of the next step.  The
    definitions below follow that text: they are what the claims compare
    the program with, and are not taken from the program. *)
Module Formula.
Import QSharp.

(** The angle of the exponential of index [i], [0 <= i < len], in the
    product for [len = 10 * t + 1] factors: the [A] factors, scaled by
    [g], stand at the even indices and the [B] factors, scaled by [-J],
    at the odd ones. *)
Definition angle (len : Z) (p dt J g : Double) (i : Z) : Double :=
  if (i =? 0) || (i =? len - 1) then (g * p * dt / lit 2)%D
  else
    match i `mod` 10 with
    | 0 | 2 | 8 => (g * p * dt)%D
    | 4 | 6 => (g * (lit 1 - lit 3 * p) * dt / lit 2)%D
    | 5 => (- J * (lit 1 - lit 4 * p) * dt)%D
    | _ => (- J * p * dt)%D
    end.

(** The two sequences of the documentation: [seqA] holds the angles of
    the [A] factors and [seqB] those of the [B] factors, each at the index
    of its factor and [0.0] elsewhere. *)
Definition seqA (len : Z) (p dt J g : Double) : list Double :=
  (fun i => if Z.even i then angle len p dt J g i else lit 0) <$> seqZ 0 len.
Definition seqB (len : Z) (p dt J g : Double) : list Double :=
  (fun i => if Z.odd i then angle len p dt J g i else lit 0) <$> seqZ 0 len.
End Formula.

(* ===================================================================== *)
(** * The Python dashboard *)
(* ===================================================================== *)

Module Py.

(** ** Values, exceptions and the store *)

(** The values of a decoded JSON response that the dashboard meets. *)
Inductive value :=
| Int (z : Z)
| Float (x : Double)
| Str (s : string)
| Dict (d : gmap string value).

Inductive Exn :=
| KeyError
| IndexError
| TypeError
| ValueError
| ZeroDivisionError
| OverflowError.

Inductive Res (A : Type) :=
| Val (a : A)
| Raise (e : Exn).
Arguments Val {A} a.
Arguments Raise {A} e.

(** The result records of a job live in the [results] object; [result]
    in [get_row] is a reference to one of them. *)
Definition Store : Type := list value.
Definition Ref : Type := nat.

(** Python code: it runs on the store, returns or raises, and leaves a
    store behind. *)
Definition Py (A : Type) : Type := Store -> Res A * Store.

Definition ret {A} (a : A) : Py A := fun st => (Val a, st).
Definition bind {A B} (c : Py A) (k : A -> Py B) : Py B :=
  fun st =>
    match c st with
    | (Val a, st') => k a st'
    | (Raise e, st') => (Raise e, st')
    end.
Definition lift {A} (r : Res A) : Py A := fun st => (r, st).
Definition rbind {A B} (r : Res A) (k : A -> Res B) : Res B :=
  match r with Val a => k a | Raise e => Raise e end.

Declare Scope py_scope.
Delimit Scope py_scope with py.
Notation "x <- c ;; k" := (bind c (fun x => k))
  (at level 100, c at next level, right associativity) : py_scope.
Declare Scope res_scope.
Delimit Scope res_scope with res.
Notation "x <- c ;; k" := (rbind c (fun x => k))
  (at level 100, c at next level, right associativity) : res_scope.

(** [d[k]] *)
Definition subscript (v : value) (k : string) : Res value :=
  match v with
  | Dict d => match d !! k with Some x => Val x | None => Raise KeyError end
  | _ => Raise TypeError
  end.

(** [result[k1][k2]] and [result[k1][k2][k3]], read from the object that
    [result] refers to. *)
Definition deref (result : Ref) : Py value :=
  fun st =>
    (match st !! result with Some v => Val v | None => Raise IndexError end, st).

Definition subscript2 (result : Ref) (k1 k2 : string) : Py value :=
  (v <- deref result ;;
   lift (v1 <- subscript v k1 ;; subscript v1 k2)%res)%py.

Definition subscript3 (result : Ref) (k1 k2 k3 : string) : Py value :=
  (v <- deref result ;;
   lift (v1 <- subscript v k1 ;; v2 <- subscript v1 k2 ;; subscript v2 k3)%res)%py.

(** ** Numbers *)

(** [float(z)] *)
Definition float_of_int (z : Z) : Res Double :=
  let x := of_Z z in
  if is_inf x then Raise OverflowError else Val x.

Definition float_div (x y : Double) : Res value :=
  if is_zero y then Raise ZeroDivisionError else Val (Float (x / y)%D).

(** [a / b]: the quotient of two integers is rounded once. *)
Definition truediv (a b : value) : Res value :=
  match a, b with
  | Int x, Int y =>
      if y =? 0 then Raise ZeroDivisionError
      else
        let q := (exact_Z x / exact_Z y)%D in
        if is_inf q then Raise OverflowError else Val (Float q)
  | Int x, Float y => (fx <- float_of_int x ;; float_div fx y)%res
  | Float x, Int y => (fy <- float_of_int y ;; float_div x fy)%res
  | Float x, Float y => float_div x y
  | _, _ => Raise TypeError
  end.

(** [a * b] *)
Definition mul (a b : value) : Res value :=
  match a, b with
  | Int x, Int y => Val (Int (x * y))
  | Int x, Float y => (fx <- float_of_int x ;; Val (Float (fx * y)%D))%res
  | Float x, Int y => (fy <- float_of_int y ;; Val (Float (x * fy)%D))%res
  | Float x, Float y => Val (Float (x * y)%D)
  | _, _ => Raise TypeError
  end.

(** Is the integer [z] below the binary64 number [y]?  The comparison of
    an integer with a float is exact. *)
Definition Z_ltb_float (z : Z) (y : Double) : bool :=
  match y with
  | S754_nan => false
  | S754_infinity s => negb s
  | S754_zero _ => z <? 0
  | S754_finite _ _ _ => z * den y <? num y
  end.
Definition float_ltb_Z (x : Double) (z : Z) : bool :=
  match x with
  | S754_nan => false
  | S754_infinity s => s
  | S754_zero _ => 0 <? z
  | S754_finite _ _ _ => num x <? z * den x
  end.

(** [a < b] *)
Definition lt (a b : value) : Res bool :=
  match a, b with
  | Int x, Int y => Val (x <? y)
  | Int x, Float y => Val (Z_ltb_float x y)
  | Float x, Int y => Val (float_ltb_Z x y)
  | Float x, Float y => Val (ltb x y)
  | _, _ => Raise TypeError
  end.

(** [round(a)], an [int]. *)
Definition round (a : value) : Res Z :=
  match a with
  | Int z => Val z
  | Float x =>
      if is_nan x then Raise ValueError
      else if is_inf x then Raise OverflowError
      else Val (round_to_Z x)
  | _ => Raise TypeError
  end.

(** [n % u] on [int]: the remainder has the sign of the divisor. *)
Definition int_mod (n u : Z) : Res Z :=
  if u =? 0 then Raise ZeroDivisionError else Val (n `mod` u).

(** ** Formatting *)

(** [str(z)] *)
Definition str_of_int (z : Z) : string := NilZero.string_of_int (Z.to_int z).

(** The decimal digits of [0 <= n], padded with zeros on the left to
    [width] characters. *)
Fixpoint zeros (k : nat) : string :=
  match k with O => EmptyString | S k' => String "0" (zeros k') end.
Definition pad (width : nat) (n : Z) : string :=
  let s := str_of_int n in
  (zeros (width - String.length s) ++ s)%string.

Definition sign_prefix (s : bool) : string := if s then "-"%string else EmptyString.

(** [f"{x:.kf}"] of a float, [1 <= k]: the exact value rounded to [k]
    decimals, ties to even. *)
Definition format_f (k : nat) (x : Double) : string :=
  match x with
  | S754_nan => "nan"%string
  | S754_infinity s => (sign_prefix s ++ "inf")%string
  | _ =>
      let scale := 10 ^ Z.of_nat k in
      let n := div_nearest_even (Z.abs (num x) * scale) (den x) in
      let int_part := str_of_int (n / scale) in
      let decimals := pad k (n `mod` scale) in
      (sign_prefix (sign x) ++ int_part ++ "." ++ decimals)%string
  end.

(** The decimal exponent of the fraction [n / d], [0 < n], [0 < d]: the
    [e] with [10^e <= n / d < 10^(e+1)]. *)
Fixpoint exponent_up (fuel : nat) (n d e : Z) : Z :=
  match fuel with
  | O => e
  | S fuel' => if n <? d * 10 then e else exponent_up fuel' n (d * 10) (e + 1)
  end.
Fixpoint exponent_down (fuel : nat) (n d e : Z) : Z :=
  match fuel with
  | O => e
  | S fuel' => if d <=? n then e else exponent_down fuel' (n * 10) d (e - 1)
  end.
Definition decimal_exponent (n d : Z) : Z :=
  let fuel := (Z.to_nat (Z.log2 n + Z.log2 d) + 4)%nat in
  if d <=? n then exponent_up fuel n d 0 else exponent_down fuel n d 0.

(** [f"{x:.ke}"] of a float, [1 <= k]: one digit, [k] decimals and an
    exponent of at least two digits. *)
Definition format_e (k : nat) (x : Double) : string :=
  match x with
  | S754_nan => "nan"%string
  | S754_infinity s => (sign_prefix s ++ "inf")%string
  | S754_zero s => (sign_prefix s ++ "0." ++ zeros k ++ "e+00")%string
  | S754_finite s _ _ =>
      let scale := 10 ^ Z.of_nat k in
      let n := Z.abs (num x) in
      let d := den x in
      let e := decimal_exponent n d in
      let shift := Z.of_nat k - e in
      let m := if 0 <=? shift then div_nearest_even (n * 10 ^ shift) d
               else div_nearest_even n (d * 10 ^ (- shift)) in
      let '(m, e) := if scale * 10 <=? m then (m / 10, e + 1) else (m, e) in
      let digit := str_of_int (m / scale) in
      let decimals := pad k (m `mod` scale) in
      let exp_sign := if e <? 0 then "-"%string else "+"%string in
      let exp_digits := pad 2 (Z.abs e) in
      (sign_prefix s ++ digit ++ "." ++ decimals ++ "e" ++ exp_sign ++ exp_digits)%string
  end.

(** [f"{a:.ke}"] and [f"{a:.kf}"] of a value: an [int] is turned into a
    float first. *)
Definition format_spec (fmt : nat -> Double -> string) (k : nat) (a : value)
  : Res string :=
  match a with
  | Int z => (x <- float_of_int z ;; Val (fmt k x))%res
  | Float x => Val (fmt k x)
  | Str _ => Raise ValueError
  | Dict _ => Raise TypeError
  end.

(** ** [get_row] *)

(** The table [units] of [get_row]: a name and the factor to the unit
    before. *)
Definition units : list (string * Z) :=
  [ ("nanosecs", 1); ("microsecs", 1000); ("millisecs", 1000); ("secs", 1000);
    ("mins", 60); ("hours", 60); ("days", 24); ("years", 365) ]%string.

(** [units[idx]] *)
Definition unit_at (idx : nat) : Res (string * Z) :=
  match units !! idx with Some u => Val u | None => Raise IndexError end.

(** The body of [for idx in range(1, len(units))], over the indices that
    are left; [runtime_formatted] is a number until the loop breaks. *)
Fixpoint runtime_loop (idxs : list nat) (runtime_formatted : value) : Res value :=
  match idxs with
  | [] => Val runtime_formatted
  | idx :: rest =>
      (u <- unit_at idx ;;
       scaled <- truediv runtime_formatted (Int u.2) ;;
       small <- lt scaled (Float (of_Z 1)) ;;
       if small : bool then
         n <- round runtime_formatted ;;
         r <- int_mod n u.2 ;;
         prev <- unit_at (idx - 1) ;;
         Val (Str (str_of_int r +:+ " " +:+ prev.1))
       else
         runtime_loop rest scaled)%res
  end.

(** The loop, and then the special case for years: a [runtime_formatted]
    that is still a float after the loop is rounded and given the last
    unit. *)
Definition format_runtime (runtime : value) : Res value :=
  (runtime_formatted <- runtime_loop (seq 1 (length units - 1)) runtime ;;
   match runtime_formatted with
   | Float _ =>
       n <- round runtime_formatted ;;
       last <- unit_at (length units - 1) ;;
       Val (Str (str_of_int n +:+ " " +:+ last.1))
   | _ => Val runtime_formatted
   end)%res.

(** The 8-tuple of [get_row]. *)
Definition row : Type :=
  value * value * value * value * value * value * value * value.

(** [get_row(result)]: the eight fields are read from the record, in the
    order of the program, with the fraction of the T factories computed
    between the reads; then the four formatted strings, the runtime, and
    the tuple. *)
Definition get_row (result : Ref) : Py row :=
  (logical_qubits <- subscript3 result "physicalCounts" "breakdown" "algorithmicLogicalQubits" ;;
   logical_depth <- subscript3 result "physicalCounts" "breakdown" "logicalDepth" ;;
   num_tstates <- subscript3 result "physicalCounts" "breakdown" "numTstates" ;;
   code_distance <- subscript2 result "logicalQubit" "codeDistance" ;;
   num_tfactories <- subscript3 result "physicalCounts" "breakdown" "numTfactories" ;;
   for_tfactories <- subscript3 result "physicalCounts" "breakdown" "physicalQubitsForTfactories" ;;
   all_qubits <- subscript2 result "physicalCounts" "physicalQubits" ;;
   tfactory_fraction <- lift (q <- truediv for_tfactories all_qubits ;; mul q (Int 100))%res ;;
   physical_qubits <- subscript2 result "physicalCounts" "physicalQubits" ;;
   runtime <- subscript2 result "physicalCounts" "runtime" ;;
   logical_depth_formatted <- lift (format_spec format_e 1 logical_depth) ;;
   num_tstates_formatted <- lift (format_spec format_e 1 num_tstates) ;;
   tfactory_fraction_formatted <-
     lift (s <- format_spec format_f 1 tfactory_fraction ;; Val (s +:+ "%"))%res ;;
   physical_qubits_formatted <-
     lift (q <- truediv physical_qubits (Float (of_Z 1000000)) ;;
           s <- format_spec format_f 2 q ;; Val (s +:+ "M"))%res ;;
   runtime_formatted <- lift (format_runtime runtime) ;;
   ret (logical_qubits, Str logical_depth_formatted, Str num_tstates_formatted,
        code_distance, num_tfactories, Str tfactory_fraction_formatted,
        Str physical_qubits_formatted, runtime_formatted))%py.

(** The columns that [get_row] computes from the values of the eight
    fields, in the order of the program. *)
Definition columns (logical_qubits logical_depth num_tstates code_distance
    num_tfactories for_tfactories physical_qubits runtime : value) : Res row :=
  (tfactory_fraction <- (q <- truediv for_tfactories physical_qubits ;; mul q (Int 100)) ;;
   logical_depth_formatted <- format_spec format_e 1 logical_depth ;;
   num_tstates_formatted <- format_spec format_e 1 num_tstates ;;
   tfactory_fraction_formatted <-
     (s <- format_spec format_f 1 tfactory_fraction ;; Val (s +:+ "%")) ;;
   physical_qubits_formatted <-
     (q <- truediv physical_qubits (Float (of_Z 1000000)) ;;
      s <- format_spec format_f 2 q ;; Val (s +:+ "M")) ;;
   runtime_formatted <- format_runtime runtime ;;
   Val (logical_qubits, Str logical_depth_formatted, Str num_tstates_formatted,
        code_distance, num_tfactories, Str tfactory_fraction_formatted,
        Str physical_qubits_formatted, runtime_formatted))%res.

(** ** [dashboard] *)

(** The two characters of the text of [dashboard] that are written by
    their codes: the line feed and the quotation mark. *)
Definition line_feed : string := String "010"%char EmptyString.
Definition quotation_mark : string := String "034"%char EmptyString.

(** The style attributes of the two boxes and of their headings. *)
Definition box_style : string :=
  "padding: 10px; margin: 5px; border: solid 1px; border-radius: 10px".
Definition heading_style : string :=
  "border-bottom: solid 1px; display: inline-block".

(** The f-string of [dashboard], a text in triple quotes over four lines:
    [[
    html = f<quotes>
        <div style=[box_style]><h3 style=[heading_style]>Summary</h3>{df.to_html()}</div>
        <div style=[box_style]><h3 style=[heading_style]>Details</h3>{results._repr_html_()}</div>
        <quotes>
    ]]
    with the two styles between quotation marks: a line feed after the
    opening quotes, the two lines of the boxes, each after four spaces and
    with a line feed at its end, and the four spaces before the closing
    quotes. *)
Definition html (summary details : string) : string :=
  line_feed +:+
  "    <div style=" +:+ quotation_mark +:+ box_style +:+ quotation_mark +:+
  "><h3 style=" +:+ quotation_mark +:+ heading_style +:+ quotation_mark +:+
  ">Summary</h3>" +:+ summary +:+ "</div>" +:+ line_feed +:+
  "    <div style=" +:+ quotation_mark +:+ box_style +:+ quotation_mark +:+
  "><h3 style=" +:+ quotation_mark +:+ heading_style +:+ quotation_mark +:+
  ">Details</h3>" +:+ details +:+ "</div>" +:+ line_feed +:+
  "    ".

(** [IPython.display.HTML(data)]: the object that displays the text
    [data] as HTML. *)
Inductive Display := HTML (data : string).

(** [[f(x) for x in xs]] *)
Fixpoint comprehension {A B} (f : A -> Py B) (xs : list A) : Py (list B) :=
  match xs with
  | [] => ret []
  | x :: rest => (y <- f x ;; ys <- comprehension f rest ;; ret (y :: ys))%py
  end.

Section Display.
(** What [dashboard] takes from pandas, IPython and the estimator's
    result class: the HTML of the summary table built from the rows and
    the labels, and the HTML of the details of [results]. *)
Variable summary_html : list row -> list string -> Res string.
Variable details_html : Store -> Res string.
Variable labels : list string.

(** [len(results)] and [results.data(index)] *)
Definition len_results : Py nat := fun st => (Val (length st), st).
Definition results_data (index : nat) : Py Ref :=
  fun st => (if decide (index < length st)%nat then Val index else Raise IndexError, st).

(** [dashboard(results)]: the rows of all results, the summary table and
    the details, in one HTML text.
    [[
    data = [get_row(results.data(index)) for index in range(len(results))]
    df = pd.DataFrame(data, columns=[...], index=labels)
    html = <the f-string of [html] on df.to_html() and results._repr_html_()>
    return HTML(html)
    ]] *)
Definition dashboard : Py Display :=
  (n <- len_results ;;
   data <- comprehension (fun index => result <- results_data index ;; get_row result)
             (seq 0 n) ;;
   summary <- lift (summary_html data labels) ;;
   details <- (fun st => (details_html st, st)) ;;
   ret (HTML (html summary details)))%py.
End Display.

(** ** The records and the statements about them *)

(** The result record [v] has the eight fields that [get_row] reads, with
    the values [lq], [ld], [nt], [cd], [ntf], [pqtf], [pq] and [rt]. *)
Definition estimates (v lq ld nt cd ntf pqtf pq rt : value) : Prop :=
  exists top counts breakdown logical : gmap string value,
    v = Dict top /\
    top !! "physicalCounts" = Some (Dict counts) /\
    top !! "logicalQubit" = Some (Dict logical) /\
    counts !! "breakdown" = Some (Dict breakdown) /\
    breakdown !! "algorithmicLogicalQubits" = Some lq /\
    breakdown !! "logicalDepth" = Some ld /\
    breakdown !! "numTstates" = Some nt /\
    logical !! "codeDistance" = Some cd /\
    breakdown !! "numTfactories" = Some ntf /\
    breakdown !! "physicalQubitsForTfactories" = Some pqtf /\
    counts !! "physicalQubits" = Some pq /\
    counts !! "runtime" = Some rt.

(** The record with these values of the eight fields. *)
Definition record (lq ld nt cd ntf pqtf pq rt : value) : value :=
  Dict (list_to_map
    [ ("physicalCounts"%string,
       Dict (list_to_map
         [ ("breakdown"%string,
            Dict (list_to_map
              [ ("algorithmicLogicalQubits"%string, lq);
                ("logicalDepth"%string, ld);
                ("numTstates"%string, nt);
                ("numTfactories"%string, ntf);
                ("physicalQubitsForTfactories"%string, pqtf) ]));
           ("physicalQubits"%string, pq);
           ("runtime"%string, rt) ]));
      ("logicalQubit"%string, Dict (list_to_map [ ("codeDistance"%string, cd) ])) ]).

(** A nonnegative number. *)
Definition nonnegative (v : value) : Prop :=
  match v with
  | Int z => 0 <= z
  | Float x => valid x = true /\ is_nan x = false /\ sign x = false
  | _ => False
  end.

(** A nonnegative number that arithmetic can take: an [int] below
    [2 ^ 1023], or a finite float. *)
Definition count (v : value) : Prop :=
  match v with
  | Int z => 0 <= z < 2 ^ 1023
  | Float x => valid x = true /\ is_finite x = true /\ sign x = false
  | _ => False
  end.

Definition nonzero (v : value) : Prop :=
  match v with
  | Int z => z <> 0
  | Float x => is_zero x = false
  | _ => False
  end.

(** A number as a float, and the quotient of two numbers as [/] rounds
    it. *)
Definition to_double (v : value) : Double :=
  match v with
  | Int z => of_Z z
  | Float x => x
  | _ => S754_nan
  end.

Definition quotient (a b : value) : Double :=
  match a, b with
  | Int x, Int y => (exact_Z x / exact_Z y)%D
  | _, _ => (to_double a / to_double b)%D
  end.

(** The numbers that the loop of [format_runtime] scales. *)
Definition scalable (v : value) : Prop :=
  match v with
  | Int z => Z.abs z < 2 ^ 1023
  | Float x => below 1024 x
  | _ => False
  end.

(** The factors of [units] by which a runtime is scaled. *)
Definition factor (u : Z) : Prop := u = 1000 \/ u = 60 \/ u = 24 \/ u = 365.

(** The text of a normalized runtime: a count and the name of a unit. *)
Definition runtime_text (v : value) : Prop :=
  exists n name, name ∈ units.*1 /\ v = Str (str_of_int n +:+ " " +:+ name).

(** Code that leaves the store as it found it. *)
Definition read_only {A} (c : Py A) : Prop := forall st, (c st).2 = st.

(** ** The reads of [get_row] *)

(** [v[k1][k2]...] along a path of keys. *)
Definition subscripts (v : value) (path : list string) : Res value :=
  foldl (fun r k => rbind r (fun x => subscript x k)) (Val v) path.

(** The paths that [get_row] reads before it computes anything, in the
    order of the program. *)
Definition reads : list (list string) :=
  [ ["physicalCounts"; "breakdown"; "algorithmicLogicalQubits"];
    ["physicalCounts"; "breakdown"; "logicalDepth"];
    ["physicalCounts"; "breakdown"; "numTstates"];
    ["logicalQubit"; "codeDistance"];
    ["physicalCounts"; "breakdown"; "numTfactories"];
    ["physicalCounts"; "breakdown"; "physicalQubitsForTfactories"];
    ["physicalCounts"; "physicalQubits"] ]%string.

End Py.

(* ===================================================================== *)
(** * The construction of estimation jobs *)
(* ===================================================================== *)

(** The two Python functions of the factoring notebook that build a job
    for the estimator: [resource_estimation_job_from_qir], which the QIR
    notebook has too, and [resource_estimation_job_from_logical_counts].
    The provider, the backend and the job class belong to [azure.quantum];
    [textwrap.dedent] and [ir_to_bitcode] to Python and [pyqir]. *)
Module Estimation.
Import Py.

(** [d[key]] of a [dict] *)
Definition item {V} (d : gmap string V) (key : string) : Res V :=
  match d !! key with Some x => Val x | None => Raise KeyError end.

(** [d.pop(key, default)]: the value, and the [dict] as the call leaves
    it. *)
Definition pop {V} (d : gmap string V) (key : string) (default_ : V)
  : V * gmap string V :=
  (default default_ (d !! key), delete key d).

Section Jobs.
(** The objects that the functions pass on without looking inside, the
    bitcode, and the jobs of [azure.quantum]. *)
Context {Obj Bytes Job : Type}.
(** A [str] as an object. *)
Variable str : string -> Obj.

(** What the functions read of a backend: [backend.name()] and the [dict]
    [backend.configuration().azure]. *)
Record Backend := {
  backend_name : Obj;
  configuration_azure : gmap string Obj
}.

(** [provider.get_backend(name)] *)
Definition Provider : Type := string -> Res Backend.

(** The keyword arguments of the call of [AzureQuantumJob]. *)
Record JobArguments := {
  backend : Backend;
  target : Obj;
  name : Obj;
  input_data : Bytes;
  blob_name : Obj;
  content_type : Obj;
  provider_id : Obj;
  input_data_format : Obj;
  output_data_format : Obj;
  input_params : gmap string Obj;
  metadata : gmap string Obj
}.

(** The constructor of the job class. *)
Variable AzureQuantumJob : JobArguments -> Res Job.

(** [[
    def resource_estimation_job_from_qir(provider, bitcode, **kwargs):
        backend = provider.get_backend('microsoft.estimator')
        name = kwargs.pop("name", "QIR job")
        config = backend.configuration()
        blob_name = config.azure["blob_name"]
        content_type = config.azure["content_type"]
        provider_id = config.azure["provider_id"]
        output_data_format = config.azure["output_data_format"]
        return AzureQuantumJob(
            backend=backend, target=backend.name(), name=name,
            input_data=bitcode, blob_name=blob_name, content_type=content_type,
            provider_id=provider_id, input_data_format="qir.v1",
            output_data_format=output_data_format, input_params=kwargs,
            metadata={})
    ]]
    [kwargs] is the [dict] of the keyword arguments of the call; [pop]
    changes it, and it is the changed [dict] that goes into the job. *)
Definition resource_estimation_job_from_qir (provider : Provider) (bitcode : Bytes)
    (kwargs : gmap string Obj) : Res Job :=
  (backend <- provider "microsoft.estimator" ;;
   let '(name, kwargs) := pop kwargs "name" (str "QIR job") in
   let config := configuration_azure backend in
   blob_name <- item config "blob_name" ;;
   content_type <- item config "content_type" ;;
   provider_id <- item config "provider_id" ;;
   output_data_format <- item config "output_data_format" ;;
   AzureQuantumJob
     {| backend := backend;
        target := backend_name backend;
        name := name;
        input_data := bitcode;
        blob_name := blob_name;
        content_type := content_type;
        provider_id := provider_id;
        input_data_format := str "qir.v1";
        output_data_format := output_data_format;
        input_params := kwargs;
        metadata := ∅ |})%res.

(** The call [resource_estimation_job_from_qir(provider, bitcode, **kwargs)]:
    a keyword that names a parameter given by position is a [TypeError]. *)
Definition call_from_qir (provider : Provider) (bitcode : Bytes)
    (kwargs : gmap string Obj) : Res Job :=
  if decide (is_Some (kwargs !! "provider") \/ is_Some (kwargs !! "bitcode"))
  then Raise TypeError
  else resource_estimation_job_from_qir provider bitcode kwargs.

Definition newline : string := String "010"%char EmptyString.
Definition quote : string := String "034"%char EmptyString.

(** The f-string [ir] of [resource_estimation_job_from_logical_counts],
    line by line: a newline after the opening quotes, the lines of the
    program with their indentation of eight and twelve spaces, and eight
    spaces before the closing quotes.  [{{] and [}}] stand for one brace;
    a count is formatted as [str] formats an [int]. *)
Definition ir (qubit_count t_count rotation_count rotation_depth ccz_count
    measurement_count : Z) : string :=
  newline +:+
  "        %Array = type opaque" +:+ newline +:+
  "        %Qubit = type opaque" +:+ newline +:+
  "        attributes #1 = { " +:+ quote +:+ "EntryPoint" +:+ quote +:+ " }" +:+ newline +:+
  "        declare %Array* @__quantum__rt__qubit_allocate_array(i64)" +:+ newline +:+
  "        declare void @__quantum__rt__qubit_release_array(%Array*)" +:+ newline +:+
  "        declare void @__quantum__qis__applyunimplemented__body(i64, i64, i64, i64, i64, %Array*)"
    +:+ newline +:+
  "        define void @Project__Program() #1 {" +:+ newline +:+
  "        entry:" +:+ newline +:+
  "            %target = call %Array* @__quantum__rt__qubit_allocate_array(i64 "
    +:+ str_of_int qubit_count +:+ ")" +:+ newline +:+
  "            call void @__quantum__qis__applyunimplemented__body(i64 "
    +:+ str_of_int t_count +:+ ", i64 " +:+ str_of_int rotation_count
    +:+ ", i64 " +:+ str_of_int rotation_depth +:+ ", i64 " +:+ str_of_int ccz_count
    +:+ ", i64 " +:+ str_of_int measurement_count +:+ ", %Array* %target)" +:+ newline +:+
  "            call void @__quantum__rt__qubit_release_array(%Array* %target)" +:+ newline +:+
  "            ret void" +:+ newline +:+
  "        }" +:+ newline +:+
  "        ".

(** [textwrap.dedent], and [ir_to_bitcode] of [pyqir]. *)
Variable dedent : string -> string.
Variable ir_to_bitcode : string -> Res Bytes.

(** [[
    def resource_estimation_job_from_logical_counts(
        provider, qubit_count = 0, t_count = 0, rotation_count = 0,
        rotation_depth = 0, ccz_count = 0, measurement_count = 0, **kwargs):
        ir = <the f-string of the program text>
        bitcode = ir_to_bitcode(textwrap.dedent(ir))
        return resource_estimation_job_from_qir(provider, bitcode, **kwargs)
    ]]
    A count that the caller leaves out is [0]. *)
Definition resource_estimation_job_from_logical_counts (provider : Provider)
    (qubit_count t_count rotation_count rotation_depth ccz_count
     measurement_count : option Z) (kwargs : gmap string Obj) : Res Job :=
  let ir := ir (default 0 qubit_count) (default 0 t_count) (default 0 rotation_count)
               (default 0 rotation_depth) (default 0 ccz_count)
               (default 0 measurement_count) in
  (bitcode <- ir_to_bitcode (dedent ir) ;;
   call_from_qir provider bitcode kwargs)%res.

End Jobs.

(** ** Numerals in a text *)

(** The characters of a decimal numeral, and the texts made of them. *)
Definition numeral_char (c : ascii) : bool :=
  match c with
  | "-" | "0" | "1" | "2" | "3" | "4" | "5" | "6" | "7" | "8" | "9" => true
  | _ => false
  end%char.

Fixpoint numeral (s : string) : bool :=
  match s with
  | EmptyString => true
  | String c rest => numeral_char c && numeral rest
  end.

(** ** Backends for runs on concrete inputs *)

(** A backend with the four entries of the configuration, and one with
    the first of them only. *)
Definition estimator : Backend :=
  {| backend_name := Str "microsoft.estimator";
     configuration_azure :=
       list_to_map
         [ ("blob_name"%string, Str "inputData");
           ("content_type"%string, Str "qir.v1");
           ("provider_id"%string, Str "microsoft-qc");
           ("output_data_format"%string, Str "microsoft.resource-estimates.v1") ] |}.

Definition unconfigured : Backend :=
  {| backend_name := Str "microsoft.estimator";
     configuration_azure := list_to_map [ ("blob_name"%string, Str "inputData") ] |}.

End Estimation.

(* ===================================================================== *)
(** * The runtime normalization as the comment of the program states it *)
(* ===================================================================== *)

(** "We find the largest units for which the runtime has a value that is
    larger than 1.0.  For that unit we are rounding the value and append the
    unit suffix."  The definitions below follow these words for a runtime
    that is a whole number of nanoseconds, with exact arithmetic; they are
    what the claim compares [format_runtime] with. *)
Module Normalization.
Import Py.

(** The number of nanoseconds in one unit of index [k]. *)
Definition nanoseconds_per (k : nat) : Z :=
  foldr (fun u acc => u.2 * acc) 1 (take (S k) units).

(** The largest unit in which the runtime is at least [1.0]. *)
Definition largest_unit (runtime : Z) : option nat :=
  last (filter (fun k => nanoseconds_per k <= runtime) (seq 0 (length units))).

(** The runtime in that unit, rounded to the nearest integer, and the
    name of the unit. *)
Definition normalized (runtime : Z) : option string :=
  k ← largest_unit runtime;
  u ← units !! k;
  Some (str_of_int (div_nearest_even runtime (nanoseconds_per k)) +:+ " " +:+ u.1).

End Normalization.

(* ===================================================================== *)
(** * Facts about binary64 arithmetic *)
(* ===================================================================== *)

(** [SpecFloat] defines the operations; the facts the dashboard needs are
    about overflow: a quotient or a conversion whose exact value is small
    enough is a finite number.  Magnitudes are measured by [Zdigits2]. *)

Section Digits.

Lemma digits2_pos_size p : digits2_pos p = Pos.size p.
Proof. induction p as [p IH|p IH|]; simpl; congruence. Qed.

Lemma Zdigits2_nonneg m : 0 <= Zdigits2 m.
Proof. destruct m; simpl; lia. Qed.

Lemma Zdigits2_bounds m :
  0 < m -> 2 ^ (Zdigits2 m - 1) <= m < 2 ^ Zdigits2 m.
Proof.
  destruct m as [|p|p]; try lia. intros _.
  change (Zdigits2 (Z.pos p)) with (Z.pos (digits2_pos p)).
  rewrite digits2_pos_size.
  pose proof (Pos.size_gt p) as Hgt. pose proof (Pos.size_le p) as Hle.
  apply Pos2Z.pos_lt_pos in Hgt. apply Pos2Z.pos_le_pos in Hle.
  rewrite Pos2Z.inj_pow in Hgt, Hle.
  split; [|exact Hgt].
  replace (2 ^ Z.pos (Pos.size p)) with (2 * 2 ^ (Z.pos (Pos.size p) - 1)) in Hle.
  - change (Z.pos p~0) with (2 * Z.pos p) in Hle. lia.
  - rewrite <- Z.pow_succ_r by lia. f_equal. lia.
Qed.

Lemma Zdigits2_le_iff m d : 0 < m -> 0 <= d -> (Zdigits2 m <= d <-> m < 2 ^ d).
Proof.
  intros Hm Hd. pose proof (Zdigits2_bounds m Hm) as [Hlo Hhi].
  pose proof (Zdigits2_nonneg m). split; intros H1.
  - eapply Z.lt_le_trans; [exact Hhi|]. apply Z.pow_le_mono_r; lia.
  - destruct (Z_le_gt_dec (Zdigits2 m) d) as [|Hgt]; [assumption|].
    exfalso. assert (2 ^ d <= 2 ^ (Zdigits2 m - 1)) by (apply Z.pow_le_mono_r; lia).
    lia.
Qed.

Lemma Zdigits2_ge_iff m d : 0 < m -> 1 <= d -> (d <= Zdigits2 m <-> 2 ^ (d - 1) <= m).
Proof.
  intros Hm Hd. pose proof (Zdigits2_le_iff m (d - 1) Hm ltac:(lia)). lia.
Qed.

Lemma Zdigits2_pos m : 0 < m -> 1 <= Zdigits2 m.
Proof. destruct m; simpl; lia. Qed.

Lemma Zdigits2_mono a b : 0 <= a <= b -> Zdigits2 a <= Zdigits2 b.
Proof.
  intros [Ha Hab]. destruct (Z.eq_dec a 0) as [->|]; [apply Zdigits2_nonneg|].
  apply Zdigits2_le_iff; try lia. { apply Zdigits2_nonneg. }
  pose proof (Zdigits2_bounds b ltac:(lia)). lia.
Qed.

Lemma Zdigits2_succ m : 0 <= m -> Zdigits2 (m + 1) <= Zdigits2 m + 1.
Proof.
  intros Hm. destruct (Z.eq_dec m 0) as [->|]; [simpl; lia|].
  pose proof (Zdigits2_nonneg m).
  apply Zdigits2_le_iff; try lia.
  pose proof (Zdigits2_bounds m ltac:(lia)) as [_ Hhi].
  rewrite Z.pow_add_r by lia. lia.
Qed.

Lemma Zdigits2_div_pow2 m k :
  0 < m -> 0 <= k < Zdigits2 m ->
  0 < m / 2 ^ k /\ Zdigits2 (m / 2 ^ k) = Zdigits2 m - k.
Proof.
  intros Hm Hk. pose proof (Zdigits2_bounds m Hm) as [Hlo Hhi].
  assert (Hpk : 0 < 2 ^ k) by (apply Z.pow_pos_nonneg; lia).
  assert (Hq : 2 ^ (Zdigits2 m - k - 1) <= m / 2 ^ k < 2 ^ (Zdigits2 m - k)).
  { split.
    - apply Z.div_le_lower_bound; [lia|].
      rewrite <- Z.pow_add_r by lia.
      replace (k + (Zdigits2 m - k - 1)) with (Zdigits2 m - 1) by lia. lia.
    - apply Z.div_lt_upper_bound; [lia|].
      rewrite <- Z.pow_add_r by lia.
      replace (k + (Zdigits2 m - k)) with (Zdigits2 m) by lia. lia. }
  assert (Hp0 : 0 < 2 ^ (Zdigits2 m - k - 1)) by (apply Z.pow_pos_nonneg; lia).
  split; [lia|].
  apply Z.le_antisymm.
  - apply Zdigits2_le_iff; lia.
  - apply Zdigits2_ge_iff; try lia.
Qed.

Lemma Zdigits2_div_pow2_le m k :
  0 <= m -> 0 <= k -> Zdigits2 (m / 2 ^ k) <= Z.max 0 (Zdigits2 m - k).
Proof.
  intros Hm Hk. destruct (Z.eq_dec m 0) as [->|].
  { rewrite Z.div_0_l. simpl. lia. apply Z.pow_nonzero; lia. }
  destruct (Z_lt_le_dec k (Zdigits2 m)) as [Hlt|Hge].
  - destruct (Zdigits2_div_pow2 m k) as [_ ->]; lia.
  - rewrite Z.div_small; [simpl; lia|].
    pose proof (Zdigits2_bounds m ltac:(lia)) as [_ Hhi]. split; [lia|].
    eapply Z.lt_le_trans; [exact Hhi|]. apply Z.pow_le_mono_r; lia.
Qed.

End Digits.

Section Rounding.
Variables prec emax : Z.
Hypothesis prec_pos : 0 < prec.
Hypothesis prec_lt_emax : prec < emax.

Local Abbreviation emin := (emin prec emax).
Local Abbreviation fexp := (fexp prec emax).

Lemma emin_le : emin <= emax - prec.
Proof. unfold SpecFloat.emin. lia. Qed.

Lemma fexp_spec e : fexp e = Z.max (e - prec) emin.
Proof. reflexivity. Qed.

Lemma shr_1_m mrs : 0 <= shr_m mrs -> shr_m (shr_1 mrs) = shr_m mrs / 2.
Proof.
  destruct mrs as [m r s]. cbn [shr_m]. intros Hm.
  rewrite <- Z.div2_div.
  destruct m as [|[p|p|]|p]; try lia; reflexivity.
Qed.

Lemma iter_shr_1_m p : forall mrs,
  0 <= shr_m mrs -> shr_m (SpecFloat.iter_pos shr_1 p mrs) = shr_m mrs / 2 ^ Z.pos p.
Proof.
  assert (Hnn : forall mrs, 0 <= shr_m mrs -> 0 <= shr_m (shr_1 mrs)).
  { intros mrs H. rewrite shr_1_m by assumption. apply Z.div_pos; lia. }
  induction p as [p IH|p IH|]; intros mrs Hm; cbn [SpecFloat.iter_pos].
  - assert (H1 := Hnn _ Hm).
    assert (H2 : 0 <= shr_m (SpecFloat.iter_pos shr_1 p (shr_1 mrs))).
    { rewrite IH by assumption. apply Z.div_pos; [assumption|]. apply Z.pow_pos_nonneg; lia. }
    rewrite IH by assumption. rewrite IH by assumption. rewrite shr_1_m by assumption.
    rewrite !Z.div_div by (try apply Z.pow_pos_nonneg; lia).
    f_equal. rewrite Pos2Z.inj_xI. rewrite <- Z.pow_add_r by lia.
    rewrite <- (Z.pow_1_r 2) at 1. rewrite <- Z.pow_add_r by lia. f_equal. lia.
  - assert (H2 : 0 <= shr_m (SpecFloat.iter_pos shr_1 p mrs)).
    { rewrite IH by assumption. apply Z.div_pos; [assumption|]. apply Z.pow_pos_nonneg; lia. }
    rewrite IH by assumption. rewrite IH by assumption.
    rewrite !Z.div_div by (try apply Z.pow_pos_nonneg; lia).
    f_equal. rewrite Pos2Z.inj_xO. rewrite <- Z.pow_add_r by lia. f_equal. lia.
  - rewrite shr_1_m by assumption. reflexivity.
Qed.

Lemma shr_record_of_loc_m m l : shr_m (shr_record_of_loc m l) = m.
Proof. destruct l as [|[]]; reflexivity. Qed.

Lemma shr_fexp_spec m e l :
  0 <= m ->
  let k := Z.max 0 (fexp (Zdigits2 m + e) - e) in
  shr_m (fst (shr_fexp prec emax m e l)) = m / 2 ^ k /\
  snd (shr_fexp prec emax m e l) = e + k.
Proof.
  intros Hm k. unfold shr_fexp, shr. subst k.
  destruct (fexp (Zdigits2 m + e) - e) as [|n|n] eqn:En; cbn [fst snd].
  - rewrite shr_record_of_loc_m, Z.div_1_r. split; [reflexivity|lia].
  - rewrite iter_shr_1_m by (rewrite shr_record_of_loc_m; assumption).
    rewrite shr_record_of_loc_m. rewrite Z.max_r by lia. split; reflexivity.
  - rewrite shr_record_of_loc_m. rewrite Z.max_l by lia.
    rewrite Z.div_1_r. split; [reflexivity|lia].
Qed.

Lemma round_nearest_even_bounds m l :
  m <= round_nearest_even m l <= m + 1.
Proof. destruct l as [|[]]; cbn [round_nearest_even]; try lia. destruct (Z.even m); lia. Qed.

(** The three outcomes of rounding, as data. *)
Lemma binary_round_aux_unfold s m e l :
  0 <= m ->
  exists m1 m2 m3 e1 e3,
    m1 = m / 2 ^ (Z.max 0 (fexp (Zdigits2 m + e) - e)) /\
    e1 = e + Z.max 0 (fexp (Zdigits2 m + e) - e) /\
    m1 <= m2 <= m1 + 1 /\
    m3 = m2 / 2 ^ (Z.max 0 (fexp (Zdigits2 m2 + e1) - e1)) /\
    e3 = e1 + Z.max 0 (fexp (Zdigits2 m2 + e1) - e1) /\
    binary_round_aux prec emax s m e l =
      match m3 with
      | Z0 => S754_zero s
      | Zpos p => if e3 <=? emax - prec then S754_finite s p e3 else S754_infinity s
      | Zneg _ => S754_nan
      end.
Proof.
  intros Hm. unfold binary_round_aux.
  destruct (shr_fexp_spec m e l Hm) as [Hm1 He1].
  destruct (shr_fexp prec emax m e l) as [mrs1 e1]. cbn [fst snd] in Hm1, He1.
  set (m2 := round_nearest_even (shr_m mrs1) (loc_of_shr_record mrs1)).
  assert (Hm1nn : 0 <= shr_m mrs1).
  { rewrite Hm1. apply Z.div_pos; [assumption|]. apply Z.pow_pos_nonneg; lia. }
  assert (Hm2 : shr_m mrs1 <= m2 <= shr_m mrs1 + 1) by apply round_nearest_even_bounds.
  destruct (shr_fexp_spec m2 e1 loc_Exact ltac:(lia)) as [Hm3 He3].
  destruct (shr_fexp prec emax m2 e1 loc_Exact) as [mrs3 e3]. cbn [fst snd] in Hm3, He3.
  exists (shr_m mrs1), m2, (shr_m mrs3), e1, e3.
  repeat split; try assumption; try lia.
Qed.

(** No overflow: a mantissa of magnitude at most [B], with [B] below
    [emax], rounds to zero or a finite number of magnitude at most [B + 1]. *)
Lemma binary_round_aux_finite s m e l B :
  0 <= m -> Zdigits2 m + e <= B -> e <= B -> emin <= B -> B + 1 <= emax ->
  e <= emax - prec ->
  match binary_round_aux prec emax s m e l with
  | S754_zero s' => s' = s
  | S754_finite s' m' e' => s' = s /\ Z.pos (digits2_pos m') + e' <= B + 1
  | _ => False
  end.
Proof.
  intros Hm HD He Hmin HB Hemax.
  destruct (binary_round_aux_unfold s m e l Hm)
    as (m1 & m2 & m3 & e1 & e3 & Hm1 & He1 & Hm2 & Hm3 & He3 & ->).
  pose proof emin_le as Hemin.
  set (k1 := Z.max 0 (fexp (Zdigits2 m + e) - e)) in *.
  set (k2 := Z.max 0 (fexp (Zdigits2 m2 + e1) - e1)) in *.
  assert (Hk1 : 0 <= k1) by (subst k1; lia).
  assert (Hk2 : 0 <= k2) by (subst k2; lia).
  assert (Hm1nn : 0 <= m1).
  { subst m1. apply Z.div_pos; [assumption|]. apply Z.pow_pos_nonneg; lia. }
  assert (Hd1 : Zdigits2 m1 <= Z.max 0 (Zdigits2 m - k1)).
  { subst m1. apply Zdigits2_div_pow2_le; assumption. }
  assert (Hd2 : Zdigits2 m2 <= Zdigits2 m1 + 1).
  { etransitivity; [apply (Zdigits2_mono m2 (m1 + 1)); lia|]. apply Zdigits2_succ; lia. }
  assert (Hd3 : Zdigits2 m3 <= Z.max 0 (Zdigits2 m2 - k2)).
  { subst m3. apply Zdigits2_div_pow2_le; lia. }
  assert (Hm3nn : 0 <= m3).
  { subst m3. apply Z.div_pos; [lia|]. apply Z.pow_pos_nonneg; lia. }
  assert (He1' : e1 <= B /\ e1 <= emax - prec).
  { subst e1 k1. rewrite fexp_spec. lia. }
  assert (HD2 : Zdigits2 m2 + e1 <= B + 1) by lia.
  assert (He3' : e3 <= emax - prec).
  { subst e3 k2. rewrite fexp_spec. lia. }
  destruct m3 as [|p|p]; [reflexivity| |lia].
  apply Z.leb_le in He3'. rewrite He3'. split; [reflexivity|].
  change (Z.pos (digits2_pos p)) with (Zdigits2 (Z.pos p)).
  pose proof (Zdigits2_pos (Z.pos p) ltac:(lia)). lia.
Qed.

(** No underflow to zero: a positive mantissa whose magnitude is above
    [emin] does not round to zero. *)
Lemma binary_round_aux_nonzero s m e l :
  0 < m -> emin < Zdigits2 m + e ->
  match binary_round_aux prec emax s m e l with
  | S754_finite _ _ _ | S754_infinity _ => True
  | _ => False
  end.
Proof.
  intros Hm HD.
  destruct (binary_round_aux_unfold s m e l ltac:(lia))
    as (m1 & m2 & m3 & e1 & e3 & Hm1 & He1 & Hm2 & Hm3 & He3 & ->).
  set (k1 := Z.max 0 (fexp (Zdigits2 m + e) - e)) in *.
  set (k2 := Z.max 0 (fexp (Zdigits2 m2 + e1) - e1)) in *.
  assert (Hk1 : 0 <= k1 < Zdigits2 m).
  { subst k1. rewrite fexp_spec. pose proof (Zdigits2_pos m Hm). lia. }
  destruct (Zdigits2_div_pow2 m k1 Hm Hk1) as [Hm1pos Hd1]. rewrite <- Hm1 in *.
  assert (Hm2pos : 0 < m2) by lia.
  assert (Hd2 : Zdigits2 m1 <= Zdigits2 m2) by (apply Zdigits2_mono; lia).
  assert (Hk2 : 0 <= k2 < Zdigits2 m2).
  { subst k2. rewrite fexp_spec. pose proof (Zdigits2_pos m2 Hm2pos). lia. }
  destruct (Zdigits2_div_pow2 m2 k2 Hm2pos Hk2) as [Hm3pos _]. rewrite <- Hm3 in *.
  destruct m3 as [|p|p]; try lia.
  destruct (e3 <=? emax - prec); exact I.
Qed.

(** The quotient before rounding. *)
Lemma SFdiv_core_binary_bounds mx ex my ey :
  let Dx := Z.pos (digits2_pos mx) + ex in
  let Dy := Z.pos (digits2_pos my) + ey in
  let '(q, e, _) := SFdiv_core_binary prec emax (Z.pos mx) ex (Z.pos my) ey in
  0 <= q /\ Zdigits2 q + e <= Z.max (Dx - Dy + 1) emin /\
  e <= Z.max (Dx - Dy - prec) emin.
Proof.
  intros Dx Dy. unfold SFdiv_core_binary.
  change (Zdigits2 (Z.pos mx)) with (Z.pos (digits2_pos mx)).
  change (Zdigits2 (Z.pos my)) with (Z.pos (digits2_pos my)).
  fold Dx Dy.
  set (e := Z.min (fexp (Dx - Dy)) (ex - ey)).
  set (s := ex - ey - e).
  set (m' := match s with Z.pos _ => Z.shiftl (Z.pos mx) s | Z0 => Z.pos mx | Z.neg _ => 0 end).
  assert (Hs : 0 <= s) by (subst s e; lia).
  assert (Hm' : m' = Z.pos mx * 2 ^ s).
  { subst m'. destruct s as [|p|p]; try lia.
    - rewrite Z.shiftl_mul_pow2 by lia. reflexivity. }
  pose proof (Z_div_mod m' (Z.pos my) ltac:(lia)) as Hdm.
  destruct (Z.div_eucl m' (Z.pos my)) as [q r]. destruct Hdm as [Hq Hr].
  assert (Hps : 0 < 2 ^ s) by (apply Z.pow_pos_nonneg; lia).
  assert (Hqnn : 0 <= q) by nia.
  assert (He : e <= Z.max (Dx - Dy - prec) emin).
  { subst e. rewrite fexp_spec. lia. }
  split; [assumption|]. split; [|assumption].
  destruct (Z.eq_dec q 0) as [->|Hq0].
  { cbn [Zdigits2]. lia. }
  assert (Hdq : Zdigits2 q <= Z.pos (digits2_pos mx) + s - Z.pos (digits2_pos my) + 1).
  { pose proof (Zdigits2_bounds (Z.pos mx) ltac:(lia)) as [_ Hx].
    pose proof (Zdigits2_bounds (Z.pos my) ltac:(lia)) as [Hy _].
    change (Zdigits2 (Z.pos mx)) with (Z.pos (digits2_pos mx)) in Hx.
    change (Zdigits2 (Z.pos my)) with (Z.pos (digits2_pos my)) in Hy.
    set (dx := Z.pos (digits2_pos mx)) in *. set (dy := Z.pos (digits2_pos my)) in *.
    assert (Hlt : q * 2 ^ (dy - 1) < 2 ^ (dx + s)).
    { rewrite (Z.pow_add_r 2 dx s) by lia. nia. }
    destruct (Z_lt_le_dec (dx + s - dy + 1) 0) as [Hneg|Hnn].
    { exfalso. assert (2 ^ (dx + s) <= 2 ^ (dy - 1)) by (apply Z.pow_le_mono_r; lia).
      assert (0 < 2 ^ (dy - 1)) by (apply Z.pow_pos_nonneg; lia). nia. }
    apply Zdigits2_le_iff; try lia.
    replace (dx + s) with ((dx + s - dy + 1) + (dy - 1)) in Hlt by lia.
    rewrite Z.pow_add_r in Hlt by lia.
    assert (0 < 2 ^ (dy - 1)) by (apply Z.pow_pos_nonneg; lia). nia. }
  subst s Dx Dy. lia.
Qed.

End Rounding.

Section Float64Facts.

Local Abbreviation emin64 := (-1074).

Lemma below_mono K K' x : K <= K' -> below K x -> below K' x.
Proof. destruct x; cbn [below]; lia. Qed.

Lemma below_finite K x : below K x -> is_finite x = true.
Proof. destruct x; cbn [below is_finite]; tauto. Qed.

Lemma finite_not_inf x : is_finite x = true -> is_inf x = false.
Proof. destruct x; cbn; congruence. Qed.

Lemma finite_not_nan x : is_finite x = true -> is_nan x = false.
Proof. destruct x; cbn; congruence. Qed.

(** A number of the format is below [2 ^ 1024]. *)
Lemma valid_below x : valid x = true -> is_finite x = true -> below 1024 x.
Proof.
  destruct x as [s|s| |s m e]; cbn [is_finite below]; try congruence; try tauto.
  unfold valid, valid_binary, bounded, canonical_mantissa. intros Hv _.
  apply andb_prop in Hv as [Hc He].
  apply Z.eqb_eq in Hc. apply Z.leb_le in He.
  unfold fexp, SpecFloat.emin, prec, emax in *. lia.
Qed.

(** The rounded quotient by a finite number of magnitude at least [dy]. *)
Lemma div_below K x sy my ey dy :
  below K x -> dy <= Z.pos (digits2_pos my) + ey -> K - dy + 2 <= 1024 ->
  below (Z.max (K - dy + 2) (emin64 + 1)) (x / S754_finite sy my ey)%D.
Proof.
  intros Hx Hy HK. destruct x as [s|s| |s m e]; cbn [below] in Hx; try tauto.
  unfold div, SFdiv.
  pose proof (SFdiv_core_binary_bounds prec emax ltac:(reflexivity) m e my ey) as Hcore.
  cbv zeta in Hcore.
  destruct (SFdiv_core_binary prec emax (Z.pos m) e (Z.pos my) ey) as [[q eq] lq].
  destruct Hcore as (Hq & Hdq & Heq).
  change (SpecFloat.emin prec emax) with emin64 in *.
  set (Dx := Z.pos (digits2_pos m) + e) in *.
  set (Dy := Z.pos (digits2_pos my) + ey) in *.
  pose proof (binary_round_aux_finite prec emax ltac:(reflexivity) ltac:(reflexivity)
                (xorb s sy) q eq lq (Z.max (Dx - Dy + 1) emin64) Hq Hdq) as Hr.
  change (SpecFloat.emin prec emax) with emin64 in Hr.
  unfold prec, emax in *.
  specialize (Hr ltac:(lia) ltac:(lia) ltac:(lia) ltac:(lia)).
  destruct (binary_round_aux 53 1024 (xorb s sy) q eq lq); cbn [below];
    first [tauto | lia].
Qed.

Lemma exact_Z_below z K : 0 <= K -> Z.abs z < 2 ^ K -> below K (exact_Z z).
Proof.
  intros HK Hz. destruct z as [|p|p]; cbn [exact_Z below]; [exact I| |].
  - change (Z.pos (digits2_pos p)) with (Zdigits2 (Z.pos p)).
    rewrite Z.add_0_r. apply Zdigits2_le_iff; lia.
  - change (Z.pos (digits2_pos p)) with (Zdigits2 (Z.pos p)).
    rewrite Z.add_0_r. apply Zdigits2_le_iff; lia.
Qed.

Lemma exact_Z_finite z :
  z <> 0 -> exists s m, exact_Z z = S754_finite s m 0 /\ Z.pos m = Z.abs z.
Proof. destruct z as [|p|p]; [congruence|eauto|eauto]. Qed.

Lemma Pos_iter_xO m d : Z.pos (Pos.iter xO m d) = Z.pos m * 2 ^ Z.pos d.
Proof.
  revert m. induction d as [|d IH] using Pos.peano_ind; intros m.
  - cbn [Pos.iter]. rewrite Z.pow_1_r. lia.
  - rewrite Pos.iter_succ, Pos2Z.inj_succ, Z.pow_succ_r by lia.
    rewrite Pos2Z.inj_xO, IH. lia.
Qed.

Lemma Zdigits2_mul_pow2 m k :
  0 < m -> 0 <= k -> Zdigits2 (m * 2 ^ k) = Zdigits2 m + k.
Proof.
  intros Hm Hk. pose proof (Zdigits2_bounds m Hm) as [Hlo Hhi].
  pose proof (Zdigits2_pos m Hm).
  assert (0 < 2 ^ k) by (apply Z.pow_pos_nonneg; lia).
  apply Z.le_antisymm.
  - apply Zdigits2_le_iff; [nia|lia|]. rewrite Z.pow_add_r by lia. nia.
  - apply Zdigits2_ge_iff; [nia|lia|].
    replace (Zdigits2 m + k - 1) with ((Zdigits2 m - 1) + k) by lia.
    rewrite Z.pow_add_r by lia. nia.
Qed.

(** Aligning a mantissa keeps the magnitude. *)
Lemma shl_align_magnitude m e e' :
  let '(mz, ez) := shl_align m e e' in
  Z.pos (digits2_pos mz) + ez = Z.pos (digits2_pos m) + e /\ ez <= e.
Proof.
  unfold shl_align. destruct (e' - e) as [|d|d] eqn:Hd; try (split; lia).
  change (Z.pos (digits2_pos (Pos.iter xO m d))) with (Zdigits2 (Z.pos (Pos.iter xO m d))).
  rewrite Pos_iter_xO, Zdigits2_mul_pow2 by lia.
  change (Zdigits2 (Z.pos m)) with (Z.pos (digits2_pos m)). lia.
Qed.

(** [float(z)] does not overflow below [2 ^ 1023], and is zero for zero
    only. *)
Lemma of_Z_below z : Z.abs z < 2 ^ 1023 -> below 1024 (of_Z z).
Proof.
  intros Hz. unfold of_Z, binary_normalize.
  assert (Hpos : forall s p, Z.pos p < 2 ^ 1023 ->
                   below 1024 (binary_round prec emax s p 0)).
  { intros s p Hp. unfold binary_round.
    pose proof (shl_align_magnitude p 0 (fexp prec emax (Z.pos (digits2_pos p) + 0))) as Ha.
    destruct (shl_align p 0 _) as [mz ez]. destruct Ha as [HD He].
    assert (Hdp : Z.pos (digits2_pos p) <= 1023).
    { change (Z.pos (digits2_pos p)) with (Zdigits2 (Z.pos p)).
      apply Zdigits2_le_iff; lia. }
    pose proof (binary_round_aux_finite prec emax ltac:(reflexivity) ltac:(reflexivity)
                  s (Z.pos mz) ez loc_Exact 1023 ltac:(lia)) as Hr.
    change (Zdigits2 (Z.pos mz)) with (Z.pos (digits2_pos mz)) in Hr.
    change (SpecFloat.emin prec emax) with emin64 in Hr. unfold prec, emax in *.
    specialize (Hr ltac:(lia) ltac:(lia) ltac:(lia) ltac:(lia) ltac:(lia)).
    destruct (binary_round_aux 53 1024 s (Z.pos mz) ez loc_Exact); cbn [below];
      first [tauto | lia]. }
  destruct z as [|p|p]; [exact I|apply Hpos; lia|apply Hpos; lia].
Qed.

Lemma of_Z_nonzero z : z <> 0 -> is_zero (of_Z z) = false.
Proof.
  intros Hz. unfold of_Z, binary_normalize.
  assert (Hpos : forall s p, is_zero (binary_round prec emax s p 0) = false).
  { intros s p. unfold binary_round.
    pose proof (shl_align_magnitude p 0 (fexp prec emax (Z.pos (digits2_pos p) + 0))) as Ha.
    destruct (shl_align p 0 _) as [mz ez]. destruct Ha as [HD He].
    pose proof (binary_round_aux_nonzero prec emax ltac:(reflexivity)
                  s (Z.pos mz) ez loc_Exact ltac:(lia)) as Hr.
    change (Zdigits2 (Z.pos mz)) with (Z.pos (digits2_pos mz)) in Hr.
    change (SpecFloat.emin prec emax) with emin64 in Hr.
    specialize (Hr ltac:(lia)).
    destruct (binary_round_aux prec emax s (Z.pos mz) ez loc_Exact); cbn; tauto. }
  destruct z as [|p|p]; [congruence|apply Hpos|apply Hpos].
Qed.

(** The number of steps of a nonnegative time and a nonnegative step is
    not negative. *)
Lemma ceiling_div_nonneg x y :
  sign x = false -> sign y = false -> 0 <= ceiling (x / y)%D.
Proof.
  intros Hx Hy.
  destruct x as [sx|sx| |sx mx ex], y as [sy|sy| |sy my ey]; cbn [sign] in Hx, Hy;
    subst; try (vm_compute; discriminate).
  unfold div, SFdiv.
  pose proof (SFdiv_core_binary_bounds prec emax ltac:(reflexivity) mx ex my ey) as Hcore.
  cbv zeta in Hcore.
  destruct (SFdiv_core_binary prec emax (Z.pos mx) ex (Z.pos my) ey) as [[q eq] lq].
  destruct Hcore as (Hq & _ & _).
  destruct (binary_round_aux_unfold prec emax (xorb false false) q eq lq Hq)
    as (m1 & m2 & m3 & e1 & e3 & _ & _ & _ & _ & _ & ->).
  destruct m3 as [|m|m]; try (vm_compute; discriminate).
  destruct (e3 <=? emax - prec); [|vm_compute; discriminate].
  unfold ceiling, num, den. cbn [xorb].
  destruct (0 <=? e3).
  - rewrite Z.div_1_r. assert (0 <= 2 ^ e3) by (apply Z.pow_nonneg; lia). nia.
  - destruct (Z_le_gt_dec 0 (- e3)) as [He|He].
    + assert (0 < 2 ^ (- e3)) by (apply Z.pow_pos_nonneg; lia).
      assert ((- Z.pos m) `div` 2 ^ (- e3) <= 0); [|lia].
      apply Z.div_le_upper_bound; lia.
    + rewrite Z.pow_neg_r by lia. rewrite Z.div_0_r. lia.
Qed.

End Float64Facts.

(* ===================================================================== *)
(** * Facts about the Q# program *)
(* ===================================================================== *)

Import QSharp.

Section Lattice.

(** The index is the row offset plus a position inside the row. *)
Lemma GetQubitIndex_row row col n :
  0 <= col < n ->
  exists c, 0 <= c < n /\ GetQubitIndex row col n = n * row + c.
Proof.
  intros Hc. unfold GetQubitIndex.
  destruct (row `rem` 2 =? 0); [exists col | exists (n - 1 - col)]; lia.
Qed.

Lemma GetQubitIndex_range row col n :
  0 <= row < n -> 0 <= col < n -> 0 <= GetQubitIndex row col n < n * n.
Proof.
  intros Hr Hc. destruct (GetQubitIndex_row row col n Hc) as (c & Hcn & ->). nia.
Qed.

Lemma GetQubitIndex_inj r1 c1 r2 c2 n :
  0 <= c1 < n -> 0 <= c2 < n ->
  GetQubitIndex r1 c1 n = GetQubitIndex r2 c2 n -> r1 = r2 /\ c1 = c2.
Proof.
  intros H1 H2 Heq.
  destruct (GetQubitIndex_row r1 c1 n H1) as (a & Ha & Ea).
  destruct (GetQubitIndex_row r2 c2 n H2) as (b & Hb & Eb).
  assert (Hr : r1 = r2) by nia. subst r2. split; [reflexivity|].
  unfold GetQubitIndex in Heq. destruct (r1 `rem` 2 =? 0); lia.
Qed.

Lemma GetQubitIndex_surj k n :
  1 <= n -> 0 <= k < n * n ->
  exists row col, 0 <= row < n /\ 0 <= col < n /\ GetQubitIndex row col n = k.
Proof.
  intros Hn1 Hk. assert (Hn : 0 < n) by lia.
  pose proof (Z.div_mod k n ltac:(lia)) as Hdm.
  pose proof (Z.mod_pos_bound k n Hn) as Hm.
  assert (Hq : 0 <= k `div` n < n).
  { split; [apply Z.div_pos; lia|apply Z.div_lt_upper_bound; lia]. }
  exists (k `div` n).
  unfold GetQubitIndex. destruct ((k `div` n) `rem` 2 =? 0).
  - exists (k `mod` n). lia.
  - exists (n - 1 - k `mod` n). lia.
Qed.

Lemma wrap_in_Int z : in_Int z -> wrap z = z.
Proof.
  unfold in_Int, wrap. intros Hz.
  rewrite Z.mod_small; [lia|]. change (2 ^ 64) with (2 ^ 63 + 2 ^ 63). lia.
Qed.

(** On a lattice whose [n * n] qubits can be counted by an [Int], every
    intermediate result of [GetQubitIndex] is in the range of [Int], so
    that the arithmetic of [Z] is the arithmetic of the program: with the
    wrap-around of every operation written out, the index is the same. *)
Lemma GetQubitIndex_in_Int row col n :
  in_Int (n * n) -> 0 <= row < n -> 0 <= col < n ->
  in_Int (n * row) /\ in_Int (col + n * row) /\
  in_Int (n - 1) /\ in_Int (n - 1 - col) /\ in_Int (n - 1 - col + n * row).
Proof. unfold in_Int. intros Hn Hr Hc. repeat split; nia. Qed.

Lemma GetQubitIndex_no_wrap row col n :
  in_Int (n * n) -> 0 <= row < n -> 0 <= col < n ->
  GetQubitIndex row col n
  = if row `rem` 2 =? 0 then wrap (col + wrap (n * row))
    else wrap (wrap (wrap (n - 1) - col) + wrap (n * row)).
Proof.
  intros Hn Hr Hc.
  destruct (GetQubitIndex_in_Int row col n Hn Hr Hc) as (H1 & H2 & H3 & H4 & H5).
  unfold GetQubitIndex.
  rewrite (wrap_in_Int (n * row)) by assumption.
  rewrite (wrap_in_Int (n - 1)) by assumption.
  rewrite (wrap_in_Int (n - 1 - col)) by assumption.
  rewrite (wrap_in_Int (col + n * row)) by assumption.
  rewrite (wrap_in_Int (n - 1 - col + n * row)) by assumption.
  reflexivity.
Qed.

Lemma in_Int_square n : in_Int (n * n) -> - 2 ^ 32 < n < 2 ^ 32.
Proof. unfold in_Int. intros H. nia. Qed.

(** On a lattice that an [Int] can count, the index of the 64-bit program
    is the index on the integers. *)
Lemma GetQubitIndex_Int64 row col n :
  in_Int (n * n) -> 0 <= row < n -> 0 <= col < n ->
  Int64.GetQubitIndex row col n = GetQubitIndex row col n.
Proof.
  intros Hn Hr Hc. rewrite (GetQubitIndex_no_wrap row col n Hn Hr Hc). reflexivity.
Qed.

End Lattice.

(** C8, as stated, fails. [Int] is a 64-bit integer, and for [n = 2 ^ 62]
    the products [n * row] leave its range: the site [(2, 0)] of the lattice
    has the index [- 2 ^ 63], which is no array index, and the sites
    [(0, 0)] and [(4, 0)] have the same index. *)
Lemma GetQubitIndex_wraps :
  let n := 2 ^ 62 in
  1 <= n /\ 0 <= 0 < n /\ 0 <= 2 < n /\ 0 <= 4 < n /\
  Int64.GetQubitIndex 2 0 n = - 2 ^ 63 /\
  ~ 0 <= Int64.GetQubitIndex 2 0 n < n * n /\
  Int64.GetQubitIndex 0 0 n = Int64.GetQubitIndex 4 0 n /\
  ~ (forall r1 c1 r2 c2,
       0 <= r1 < n -> 0 <= c1 < n -> 0 <= r2 < n -> 0 <= c2 < n ->
       Int64.GetQubitIndex r1 c1 n = Int64.GetQubitIndex r2 c2 n -> r1 = r2 /\ c1 = c2).
Proof.
  cbv zeta.
  assert (Hn : 4 < 2 ^ 62) by (vm_compute; reflexivity).
  assert (H2 : Int64.GetQubitIndex 2 0 (2 ^ 62) = - 2 ^ 63) by (vm_compute; reflexivity).
  assert (H4 : Int64.GetQubitIndex 0 0 (2 ^ 62) = Int64.GetQubitIndex 4 0 (2 ^ 62))
    by (vm_compute; reflexivity).
  split; [lia|]. split; [lia|]. split; [lia|]. split; [lia|].
  split; [exact H2|]. split; [rewrite H2; intros [H _]; vm_compute in H; apply H; reflexivity|].
  split; [exact H4|].
  intros Hinj. destruct (Hinj 0 0 4 0) as [H _]; [lia..|exact H4|discriminate H].
Qed.

(** C8, amended. For every [n >= 1] whose [n * n] is in the range of [Int],
    [GetQubitIndex], computed on [Int], restricted to the sites
    [0 <= row < n], [0 <= col < n] of the lattice is a bijection onto the
    array indices [0 .. n*n - 1]: every site is mapped into that range, two
    sites with the same index are the same site, and every index of the
    range is the index of a site. *)
Theorem GetQubitIndex_bijection (n : Z) :
  1 <= n -> in_Int (n * n) ->
  (forall row col, 0 <= row < n -> 0 <= col < n ->
     0 <= Int64.GetQubitIndex row col n < n * n) /\
  (forall r1 c1 r2 c2,
     0 <= r1 < n -> 0 <= c1 < n -> 0 <= r2 < n -> 0 <= c2 < n ->
     Int64.GetQubitIndex r1 c1 n = Int64.GetQubitIndex r2 c2 n -> r1 = r2 /\ c1 = c2) /\
  (forall k, 0 <= k < n * n ->
     exists row col, 0 <= row < n /\ 0 <= col < n /\ Int64.GetQubitIndex row col n = k).
Proof.
  intros Hn Hnn. split; [|split].
  - intros row col Hr Hc. rewrite GetQubitIndex_Int64 by assumption.
    apply GetQubitIndex_range; assumption.
  - intros r1 c1 r2 c2 Hr1 H1 Hr2 H2. rewrite !GetQubitIndex_Int64 by assumption.
    apply GetQubitIndex_inj; assumption.
  - intros k Hk. destruct (GetQubitIndex_surj k n Hn Hk) as (row & col & Hr & Hc & E).
    exists row, col. rewrite GetQubitIndex_Int64 by assumption. auto.
Qed.

Lemma GetQubitIndex_bijection_witness :
  1 <= 3 /\ in_Int (3 * 3) /\
  ((forall row col, 0 <= row < 3 -> 0 <= col < 3 ->
      0 <= Int64.GetQubitIndex row col 3 < 3 * 3) /\
   (forall r1 c1 r2 c2,
      0 <= r1 < 3 -> 0 <= c1 < 3 -> 0 <= r2 < 3 -> 0 <= c2 < 3 ->
      Int64.GetQubitIndex r1 c1 3 = Int64.GetQubitIndex r2 c2 3 -> r1 = r2 /\ c1 = c2) /\
   (forall k, 0 <= k < 3 * 3 ->
      exists row col, 0 <= row < 3 /\ 0 <= col < 3 /\ Int64.GetQubitIndex row col 3 = k)).
Proof.
  assert (Hn : in_Int (3 * 3)).
  { unfold in_Int. split; [vm_compute; intros H; discriminate H|vm_compute; reflexivity]. }
  split; [lia|]. split; [exact Hn|]. apply (GetQubitIndex_bijection 3); [lia|exact Hn].
Defined.

Section Arrays.
Context {A : Type}.
Implicit Types (xs : list A) (i : Z).

Lemma Range_unit start stop : Range start 1 stop = seqZ start (stop - start + 1).
Proof.
  unfold Range. cbn [Z.ltb Z.compare].
  rewrite Z.div_1_r.
  replace (seqZ start (stop - start + 1)) with (seqZ (start + 0) (stop - start + 1))
    by (f_equal; lia).
  rewrite <- fmap_add_seqZ. apply list_fmap_ext. intros _ k _. lia.
Qed.

Lemma Length_fmap_seqZ (f : Z -> A) n : 0 <= n -> Length (f <$> seqZ 0 n) = n.
Proof. intros Hn. unfold Length. rewrite length_fmap, length_seqZ. lia. Qed.

Lemma lookup_fmap_seqZ (f : Z -> A) n i :
  0 <= i < n -> (f <$> seqZ 0 n) !! Z.to_nat i = Some (f i).
Proof.
  intros Hi. rewrite list_lookup_fmap, lookup_seqZ_lt by lia.
  cbn. f_equal. f_equal. lia.
Qed.

Lemma Item_fmap_seqZ (f : Z -> A) n i :
  0 <= i < n -> Item (f <$> seqZ 0 n) i = Ok (f i).
Proof.
  intros Hi. unfold Item. rewrite Length_fmap_seqZ by lia.
  replace ((0 <=? i) && (i <? n)) with true by (symmetry; apply andb_true_intro; lia).
  rewrite lookup_fmap_seqZ by lia. reflexivity.
Qed.

Lemma Item_total `{Inhabited A} xs i :
  0 <= i < Length xs -> Item xs i = Ok (xs !!! Z.to_nat i).
Proof.
  intros Hi. unfold Item, Length in *.
  replace ((0 <=? i) && (i <? Z.of_nat (length xs))) with true
    by (symmetry; apply andb_true_intro; lia).
  destruct (lookup_lt_is_Some_2 xs (Z.to_nat i) ltac:(lia)) as [x Hx].
  rewrite Hx. f_equal. symmetry. apply list_lookup_total_correct. exact Hx.
Qed.

Lemma Updated_fmap_seqZ (f : Z -> A) n i v :
  0 <= i < n ->
  Updated (f <$> seqZ 0 n) i v = Ok ((fun j => if j =? i then v else f j) <$> seqZ 0 n).
Proof.
  intros Hi. unfold Updated. rewrite Length_fmap_seqZ by lia.
  replace ((0 <=? i) && (i <? n)) with true by (symmetry; apply andb_true_intro; lia).
  f_equal. apply list_eq. intros k.
  destruct (decide (k = Z.to_nat i)) as [->|Hne].
  - rewrite list_lookup_insert_eq by (rewrite length_fmap, length_seqZ; lia).
    rewrite lookup_fmap_seqZ by lia. rewrite Z.eqb_refl. reflexivity.
  - rewrite list_lookup_insert_ne by congruence.
    rewrite !list_lookup_fmap. destruct (seqZ 0 n !! k) as [j|] eqn:Hj; [|reflexivity].
    apply lookup_seqZ in Hj as [-> Hk]. cbn.
    destruct (Z.eqb_spec (0 + Z.of_nat k) i); [lia|reflexivity].
Qed.

Lemma ConstantArray_fmap_seqZ n (v : A) :
  0 <= n -> ConstantArray n v = Ok ((fun _ => v) <$> seqZ 0 n).
Proof.
  intros Hn. unfold ConstantArray. destruct (Z.ltb_spec n 0); [lia|]. f_equal.
  apply list_eq. intros k. rewrite list_lookup_fmap.
  destruct (decide (k < Z.to_nat n)%nat) as [Hk|Hk].
  - rewrite lookup_replicate_2 by lia. rewrite lookup_seqZ_lt by lia. reflexivity.
  - rewrite (proj1 (lookup_replicate_None _ _ _)) by lia.
    rewrite lookup_seqZ_ge by lia. reflexivity.
Qed.

Lemma fmap_seqZ_ext (f g : Z -> A) n :
  (forall i, 0 <= i < n -> f i = g i) -> f <$> seqZ 0 n = g <$> seqZ 0 n.
Proof.
  intros H. apply list_fmap_ext. intros k i Hi. apply lookup_seqZ in Hi. apply H. lia.
Qed.

Lemma ForFold_app {B S} (xs ys : list B) (body : S -> B -> Fallible S) s :
  ForFold (xs ++ ys) body s = fbind (ForFold xs body s) (ForFold ys body).
Proof.
  revert s. induction xs as [|x xs IH]; intros s; cbn [ForFold app fbind]; [reflexivity|].
  destruct (body s x); cbn [fbind]; [apply IH|reflexivity].
Qed.

End Arrays.

Section Sequences.
Variables (p dt J g : Double).

Lemma Item_values i :
  0 <= i -> Item (values p dt J g) (i `rem` 10) = Ok (value_at p dt J g (i `rem` 10)).
Proof.
  intros Hi. pose proof (Z.rem_bound_pos i 10 Hi ltac:(lia)) as Hr.
  unfold Item, value_at. change (Length (values p dt J g)) with 10.
  replace ((0 <=? i `rem` 10) && (i `rem` 10 <? 10)) with true
    by (symmetry; apply andb_true_intro; lia).
  destruct (lookup_lt_is_Some_2 (values p dt J g) (Z.to_nat (i `rem` 10)))
    as [v Hv]; [cbn [length values]; lia|].
  rewrite Hv. reflexivity.
Qed.

(** The body of the loop of [SetSequences]. *)
Let body : list Double * list Double -> Z -> Fallible (list Double * list Double) :=
  fun '(seqA, seqB) i =>
    if i `rem` 2 =? 0 then
      fbind (Item (values p dt J g) (i `rem` 10)) (fun v =>
      fbind (Updated seqA i v) (fun seqA => Ok (seqA, seqB)))
    else
      fbind (Item (values p dt J g) (i `rem` 10)) (fun v =>
      fbind (Updated seqB i v) (fun seqB => Ok (seqA, seqB))).

Lemma SetSequences_step len k :
  0 <= k -> k + 1 <= len - 2 ->
  body (seqA_upto k len p dt J g <$> seqZ 0 len,
        seqB_upto k len p dt J g <$> seqZ 0 len) (k + 1)
  = Ok (seqA_upto (k + 1) len p dt J g <$> seqZ 0 len,
        seqB_upto (k + 1) len p dt J g <$> seqZ 0 len).
Proof.
  intros Hk Hlen. subst body. cbv beta iota.
  rewrite Item_values by lia. cbn [fbind].
  rewrite !Updated_fmap_seqZ by lia. cbn [fbind].
  destruct (Z.eqb_spec ((k + 1) `rem` 2) 0) as [Heven|Hodd]; f_equal; f_equal.
  - apply fmap_seqZ_ext. intros i Hi. unfold seqA_upto.
    destruct (Z.eqb_spec i (k + 1)) as [->|Hne].
    + replace ((k + 1 =? 0) || (k + 1 =? len - 1)) with false
        by (symmetry; apply orb_false_intro; lia).
      rewrite Heven, Z.leb_refl. reflexivity.
    + destruct ((i =? 0) || (i =? len - 1)); [reflexivity|].
      replace (i <=? k + 1) with (i <=? k) by lia. reflexivity.
  - apply fmap_seqZ_ext. intros i Hi. unfold seqB_upto.
    destruct (Z.eqb_spec i (k + 1)) as [->|Hne].
    + rewrite Heven. rewrite !andb_false_r. reflexivity.
    + replace (i <=? k + 1) with (i <=? k) by lia. reflexivity.
  - apply fmap_seqZ_ext. intros i Hi. unfold seqA_upto.
    destruct (Z.eqb_spec i (k + 1)) as [->|Hne].
    + replace ((k + 1) `rem` 2 =? 0) with false by lia.
      rewrite !andb_false_r. reflexivity.
    + replace (i <=? k + 1) with (i <=? k) by lia. reflexivity.
  - apply fmap_seqZ_ext. intros i Hi. unfold seqB_upto.
    destruct (Z.eqb_spec i (k + 1)) as [->|Hne].
    + replace ((k + 1) `rem` 2 =? 0) with false by lia.
      replace (1 <=? k + 1) with true by lia. rewrite Z.leb_refl. reflexivity.
    + replace (i <=? k + 1) with (i <=? k) by lia. reflexivity.
Qed.

Lemma SetSequences_loop len (k : nat) :
  Z.of_nat k <= len - 2 ->
  ForFold (seqZ 1 (Z.of_nat k)) body
    (seqA_upto 0 len p dt J g <$> seqZ 0 len, seqB_upto 0 len p dt J g <$> seqZ 0 len)
  = Ok (seqA_upto (Z.of_nat k) len p dt J g <$> seqZ 0 len,
        seqB_upto (Z.of_nat k) len p dt J g <$> seqZ 0 len).
Proof.
  induction k as [|k IH]; intros Hk; [reflexivity|].
  rewrite seqZ_S, ForFold_app, IH by lia. cbn [fbind ForFold].
  replace (1 + Z.of_nat k) with (Z.of_nat k + 1) by lia.
  rewrite SetSequences_step by lia. cbn [fbind].
  replace (Z.of_nat (S k)) with (Z.of_nat k + 1) by lia. reflexivity.
Qed.

(** [SetSequences] succeeds on every positive length, and returns the two
    sequences of [seqA_entry] and [seqB_entry]. *)
Lemma SetSequences_closed len :
  1 <= len ->
  SetSequences len p dt J g
  = Ok (seqA_entry len p dt J g <$> seqZ 0 len, seqB_entry len p dt J g <$> seqZ 0 len).
Proof.
  intros Hlen. destruct (Z.eq_dec len 1) as [->|Hne]; [reflexivity|].
  unfold SetSequences.
  rewrite !ConstantArray_fmap_seqZ by lia. cbn [fbind].
  rewrite Updated_fmap_seqZ by lia. cbn [fbind]. cbv beta.
  rewrite Updated_fmap_seqZ by lia. cbn [fbind].
  rewrite Range_unit.
  replace (len - 2 - 1 + 1) with (Z.of_nat (Z.to_nat (len - 2))) by lia.
  cbv beta. fold body.
  rewrite (fmap_seqZ_ext
             (fun j => if j =? len - 1 then (- J * p * dt / lit 2)%D
                       else if j =? 0 then (- J * p * dt / lit 2)%D else lit 0)
             (seqA_upto 0 len p dt J g)).
  2:{ intros i Hi. cbv beta. unfold seqA_upto.
      destruct (Z.eqb_spec i (len - 1)), (Z.eqb_spec i 0); cbn [orb]; try reflexivity.
      replace (i <=? 0) with false by lia. reflexivity. }
  rewrite (fmap_seqZ_ext (fun _ => lit 0) (seqB_upto 0 len p dt J g)).
  2:{ intros i Hi. cbv beta. unfold seqB_upto.
      destruct (Z.leb_spec 1 i), (Z.leb_spec i 0); cbn [andb]; try reflexivity. lia. }
  rewrite SetSequences_loop by lia. f_equal. f_equal.
  - apply fmap_seqZ_ext. intros i Hi. unfold seqA_upto, seqA_entry.
    destruct ((i =? 0) || (i =? len - 1)) eqn:He; [reflexivity|].
    apply orb_false_elim in He as [H0 H1].
    apply Z.eqb_neq in H0, H1.
    replace (i <=? Z.of_nat (Z.to_nat (len - 2))) with true
      by (symmetry; apply Z.leb_le; lia).
    reflexivity.
  - apply fmap_seqZ_ext. intros i Hi. unfold seqB_upto, seqB_entry.
    replace (Z.of_nat (Z.to_nat (len - 2))) with (len - 2) by lia. reflexivity.
Qed.

End Sequences.

Section SequenceEntries.
Variables (p dt J g : Double).

Lemma rem_2_odd i : 0 <= i -> (i `rem` 2 =? 0) = negb (Z.odd i).
Proof.
  intros Hi. rewrite Z.rem_mod_nonneg, Zmod_odd by lia. destruct (Z.odd i); reflexivity.
Qed.

Lemma opp_involutive (x : Double) : (- - x)%D = x.
Proof. destruct x as [[]|[]| |[] m e]; reflexivity. Qed.

Lemma seqA_entry_odd len i :
  Z.odd len = true -> 0 <= i -> Z.odd i = true -> seqA_entry len p dt J g i = lit 0.
Proof.
  intros Hlen Hi Hodd. unfold seqA_entry. rewrite rem_2_odd, Hodd by lia.
  destruct (Z.eqb_spec i 0) as [->|_]; [discriminate|].
  destruct (Z.eqb_spec i (len - 1)) as [->|_]; [|reflexivity].
  rewrite Z.sub_1_r, Z.odd_pred in Hodd. rewrite <- Z.negb_odd, Hlen in Hodd. discriminate.
Qed.

Lemma seqB_entry_even len i :
  0 <= i -> Z.even i = true -> seqB_entry len p dt J g i = lit 0.
Proof.
  intros Hi Heven. unfold seqB_entry.
  rewrite rem_2_odd, <- Z.negb_even, Heven by lia.
  rewrite andb_false_r. reflexivity.
Qed.

Lemma seqA_entry_ends len i :
  i = 0 \/ i = len - 1 -> seqA_entry len p dt J g i = (- J * p * dt / lit 2)%D.
Proof.
  intros Hi. unfold seqA_entry.
  replace ((i =? 0) || (i =? len - 1)) with true; [reflexivity|].
  symmetry. apply orb_true_iff. lia.
Qed.

(** What [SetSequences] computes is the product formula of the
    documentation for the Hamiltonian in which the two scales have changed
    places: [-J] scales the [A] factors and [g] the [B] factors. *)
Lemma seq_entries_exchanged len i :
  Z.odd len = true -> 0 <= i < len ->
  seqA_entry len p dt J g i
    = (if Z.even i then Formula.angle len p dt (- g)%D (- J)%D i else lit 0) /\
  seqB_entry len p dt J g i
    = (if Z.odd i then Formula.angle len p dt (- g)%D (- J)%D i else lit 0).
Proof.
  intros Hlen Hi.
  assert (Hlen1 : Z.odd (len - 1) = false).
  { rewrite Z.sub_1_r, Z.odd_pred, <- Z.negb_odd, Hlen. reflexivity. }
  unfold seqA_entry, seqB_entry, Formula.angle.
  rewrite rem_2_odd by lia. rewrite <- Z.negb_odd.
  rewrite Z.rem_mod_nonneg by lia.
  pose proof (Z.mod_pos_bound i 10 ltac:(lia)) as Hr.
  pose proof (Zmod_odd i) as Hpar.
  assert (Hpar' : (i `mod` 10) `mod` 2 = i `mod` 2).
  { apply Z.mod_mod_divide. exists 5. reflexivity. }
  destruct (Z.eqb_spec i 0) as [->|Hi0]; [split; reflexivity|].
  destruct (Z.eqb_spec i (len - 1)) as [->|Hil].
  { rewrite Hlen1. cbn [orb negb]. split; [reflexivity|].
    replace (len - 1 <=? len - 2) with false by lia. rewrite andb_false_r. reflexivity. }
  cbn [orb]. replace (1 <=? i) with true by lia. replace (i <=? len - 2) with true by lia.
  cbn [andb]. rewrite opp_involutive.
  set (r := i `mod` 10) in *.
  assert (Hcases : r = 0 \/ r = 1 \/ r = 2 \/ r = 3 \/ r = 4 \/
                   r = 5 \/ r = 6 \/ r = 7 \/ r = 8 \/ r = 9) by lia.
  destruct (Z.odd i);
    destruct Hcases as [H|[H|[H|[H|[H|[H|[H|[H|[H|H]]]]]]]]];
    rewrite H in *; cbn in Hpar'; try lia; split; reflexivity.
Qed.

(** [SetSequences], on an odd length, returns the two sequences of the
    formula for [g] and [-J] exchanged. *)
Lemma SetSequences_exchanged len :
  1 <= len -> Z.odd len = true ->
  SetSequences len p dt J g
  = Ok (Formula.seqA len p dt (- g)%D (- J)%D, Formula.seqB len p dt (- g)%D (- J)%D).
Proof.
  intros Hlen Hodd. rewrite SetSequences_closed by assumption.
  unfold Formula.seqA, Formula.seqB. f_equal. f_equal.
  - apply fmap_seqZ_ext. intros i Hi. apply seq_entries_exchanged; assumption.
  - apply fmap_seqZ_ext. intros i Hi. apply seq_entries_exchanged; assumption.
Qed.

End SequenceEntries.

(** C10. For every odd [len >= 3] and all [p], [dt], [J], [g],
    [SetSequences(len, p, dt, J, g)] returns two arrays of length [len];
    [seqA] is [0.0] at every odd index, [seqB] is [0.0] at every even index,
    in particular at [0] and at [len - 1], and
    [seqA[0] = seqA[len - 1] = -J * p * dt / 2]. *)
Theorem SetSequences_shape (len : Z) (p dt J g : Double) :
  3 <= len -> Z.odd len = true ->
  exists seqA seqB,
    SetSequences len p dt J g = Ok (seqA, seqB) /\
    Length seqA = len /\ Length seqB = len /\
    (forall i, 0 <= i < len -> Z.odd i = true -> Item seqA i = Ok (lit 0)) /\
    (forall i, 0 <= i < len -> Z.even i = true -> Item seqB i = Ok (lit 0)) /\
    Item seqB 0 = Ok (lit 0) /\ Item seqB (len - 1) = Ok (lit 0) /\
    Item seqA 0 = Ok (- J * p * dt / lit 2)%D /\
    Item seqA (len - 1) = Ok (- J * p * dt / lit 2)%D.
Proof.
  intros Hlen Hodd.
  exists (seqA_entry len p dt J g <$> seqZ 0 len), (seqB_entry len p dt J g <$> seqZ 0 len).
  assert (Heven1 : Z.even (len - 1) = true).
  { rewrite Z.sub_1_r, Z.even_pred. exact Hodd. }
  split; [apply SetSequences_closed; lia|].
  split; [apply Length_fmap_seqZ; lia|].
  split; [apply Length_fmap_seqZ; lia|].
  split; [|split; [|split; [|split; [|split]]]].
  - intros i Hi Hi1. rewrite Item_fmap_seqZ by lia. apply f_equal.
    apply seqA_entry_odd; [assumption|lia|assumption].
  - intros i Hi Hi0. rewrite Item_fmap_seqZ by lia. apply f_equal.
    apply seqB_entry_even; [lia|assumption].
  - rewrite Item_fmap_seqZ by lia. apply f_equal. apply seqB_entry_even; [lia|reflexivity].
  - rewrite Item_fmap_seqZ by lia. apply f_equal. apply seqB_entry_even; [lia|assumption].
  - rewrite Item_fmap_seqZ by lia. apply f_equal. apply seqA_entry_ends. lia.
  - rewrite Item_fmap_seqZ by lia. apply f_equal. apply seqA_entry_ends. lia.
Qed.

Lemma SetSequences_shape_witness :
  3 <= 11 /\ Z.odd 11 = true /\
  exists seqA seqB,
    SetSequences 11 (lit 1 / lit 4)%D (lit 1) (lit 1) (lit 2) = Ok (seqA, seqB) /\
    Length seqA = 11 /\ Length seqB = 11 /\
    (forall i, 0 <= i < 11 -> Z.odd i = true -> Item seqA i = Ok (lit 0)) /\
    (forall i, 0 <= i < 11 -> Z.even i = true -> Item seqB i = Ok (lit 0)) /\
    Item seqB 0 = Ok (lit 0) /\ Item seqB (11 - 1) = Ok (lit 0) /\
    Item seqA 0 = Ok (- lit 1 * (lit 1 / lit 4) * lit 1 / lit 2)%D /\
    Item seqA (11 - 1) = Ok (- lit 1 * (lit 1 / lit 4) * lit 1 / lit 2)%D.
Proof.
  split; [lia|]. split; [reflexivity|].
  apply (SetSequences_shape 11 (lit 1 / lit 4)%D (lit 1) (lit 1) (lit 2));
    [lia|reflexivity].
Defined.

(** C1. The claim is that the sequences of [SetSequences] hold the
    coefficients of the documented product formula, scaled by [g] at the
    even positions, where they are the angles of the X rotations, and by
    [-J] at the odd ones, where they are the angles of the ZZ rotations.  On
    [J = 1.0], [g = 2.0], [dt = 1.0] and one step the program has
    [seqA[0] = -J * p * dt / 2] where the formula has [g * p * dt / 2], and
    [seqB[1] = g * p * dt] where the formula has [-J * p * dt]; the first
    gate of [IsingModel2DSim] is the X rotation by twice [-J * p * dt / 2].
    The program scales the even positions by [-J] and the odd ones by [g]. *)
Theorem SetSequences_scales_exchanged :
  let J := lit 1 in
  let g := lit 2 in
  let dt := lit 1 in
  let p := (lit 1 / (lit 4 - PowD_cube_root_4 (lit 4) (lit 1 / lit 3)))%D in
  exists seqA seqB m,
    SetSequences 11 p dt J g = Ok (seqA, seqB) /\
    Item seqA 0 = Ok (- J * p * dt / lit 2)%D /\
    Item (Formula.seqA 11 p dt J g) 0 = Ok (g * p * dt / lit 2)%D /\
    (- J * p * dt / lit 2)%D <> (g * p * dt / lit 2)%D /\
    Item seqB 1 = Ok (g * p * dt)%D /\
    Item (Formula.seqB 11 p dt J g) 1 = Ok (- J * p * dt)%D /\
    (g * p * dt)%D <> (- J * p * dt)%D /\
    run (IsingModel2DSim PowD_cube_root_4 ceiling 2 J g (lit 1) dt
           (lit 1 / lit 1000)%D 0) (fun _ => false) = Ok (tt, m) /\
    gates m !! 0%nat = Some (Rx (lit 2 * (- J * p * dt / lit 2))%D 0%nat).
Proof.
  cbv zeta. do 3 eexists.
  split; [vm_compute; reflexivity|].
  split; [vm_compute; reflexivity|].
  split; [vm_compute; reflexivity|].
  split; [vm_compute; discriminate|].
  split; [vm_compute; reflexivity|].
  split; [vm_compute; reflexivity|].
  split; [vm_compute; discriminate|].
  split; vm_compute; reflexivity.
Qed.

(** ** Runs on concrete inputs *)

Example Range_odd_columns : Range 1 2 (6 - 2) = [1; 3].
Proof. reflexivity. Qed.

Example Range_empty : Range 1 1 (1 - 2) = [].
Proof. reflexivity. Qed.

Example GetQubitIndex_snake :
  (fun row => (fun col => GetQubitIndex row col 3) <$> [0; 1; 2]) <$> [0; 1; 2]
  = [[0; 1; 2]; [5; 4; 3]; [6; 7; 8]].
Proof. reflexivity. Qed.

Example SetSequences_length_1 p dt J g :
  SetSequences 1 p dt J g = Ok ([(- J * p * dt / lit 2)%D], [lit 0]).
Proof. reflexivity. Qed.

Example SetSequences_negative p dt J g : SetSequences (-9) p dt J g = Fail NegativeSize.
Proof. reflexivity. Qed.

Example ApplyDoubleZ_rows theta :
  run (ApplyDoubleZ 3 (seq 0 9) theta true true) (fun _ => false)
  = Ok (tt, {| gates := [ CNOT 0 1; Rz (lit 2 * theta)%D 1; CNOT 0 1;
                          CNOT 5 4; Rz (lit 2 * theta)%D 4; CNOT 5 4;
                          CNOT 6 7; Rz (lit 2 * theta)%D 7; CNOT 6 7 ]%nat;
               allocated := 0; measured := 0 |}).
Proof. reflexivity. Qed.

(** ** Operations *)

Section Operations.

Lemma issues_ret : issues (ret tt) [].
Proof. intros w [gs a k]. unfold ret. cbn. rewrite app_nil_r. reflexivity. Qed.

Lemma issues_emit gate : issues (emit gate) [gate].
Proof. intros w m. reflexivity. Qed.

Lemma issues_bind c1 c2 gs1 gs2 :
  issues c1 gs1 -> issues c2 gs2 -> issues (bind c1 (fun _ => c2)) (gs1 ++ gs2).
Proof.
  intros H1 H2 w m. unfold bind. rewrite H1, H2. cbn. rewrite app_assoc. reflexivity.
Qed.

Lemma issues_lift_bind {A} (r : Fallible A) (x : A) (k : A -> Op unit) gs :
  r = Ok x -> issues (k x) gs -> issues (bind (lift r) k) gs.
Proof. intros -> Hk w m. unfold bind, lift. apply Hk. Qed.

Lemma issues_ForEach {A} (xs : list A) (body : A -> Op unit) (f : A -> list Gate) :
  (forall x, x ∈ xs -> issues (body x) (f x)) ->
  issues (ForEach xs body) (flat_map f xs).
Proof.
  induction xs as [|x xs IH]; intros H; cbn [ForEach flat_map].
  - apply issues_ret.
  - apply issues_bind; [apply H; left|apply IH; intros y Hy; apply H; right; exact Hy].
Qed.

Lemma flat_map_singleton {A B} (f : A -> B) (xs : list A) :
  flat_map (fun x => [f x]) xs = f <$> xs.
Proof. induction xs as [|x xs IH]; cbn; congruence. Qed.

Lemma ApplyAllX_issues qs theta : issues (ApplyAllX qs theta) (X_layer qs theta).
Proof.
  unfold ApplyAllX, ApplyToEach, X_layer. rewrite <- flat_map_singleton.
  apply issues_ForEach. intros q _. apply issues_emit.
Qed.

Lemma elem_of_Range start step stop x :
  0 < step -> x ∈ Range start step stop -> start <= x <= stop.
Proof.
  intros Hs. unfold Range. destruct (Z.ltb_spec 0 step); [|lia].
  intros Hx. apply list_elem_of_fmap in Hx as (k & -> & Hk).
  apply elem_of_seqZ in Hk.
  pose proof (Z.mul_div_le (stop - start) step Hs). nia.
Qed.

(** Both indices of every iteration of [ApplyDoubleZ] are indices of the
    array of [n * n] qubits. *)
Lemma pair_indices_range n (dir grp : bool) i j :
  1 <= n ->
  i ∈ Range 0 1 (n - 1) -> j ∈ Range (if grp then 0 else 1) 2 (n - 2) ->
  0 <= (pair_indices n dir i j).1 < n * n /\
  0 <= (pair_indices n dir i j).2 < n * n.
Proof.
  intros Hn Hi Hj.
  apply elem_of_Range in Hi; [|lia]. apply elem_of_Range in Hj; [|lia].
  assert (0 <= j) by (destruct grp; lia).
  unfold pair_indices. destruct dir; cbn [fst snd];
    split; apply GetQubitIndex_range; lia.
Qed.

Lemma ApplyDoubleZ_issues n qs theta dir grp :
  1 <= n -> Length qs = n * n ->
  issues (ApplyDoubleZ n qs theta dir grp) (ZZ_pass n qs theta dir grp).
Proof.
  intros Hn Hqs. unfold ApplyDoubleZ, ZZ_pass.
  apply issues_ForEach. intros i Hi. apply issues_ForEach. intros j Hj.
  destruct (pair_indices_range n dir grp i j Hn Hi Hj) as [H1 H2].
  unfold ZZ_term. unfold pair_indices in *.
  destruct dir; cbn [fst snd] in *; unfold WithinApply;
    change [CNOT ?a ?b; Rz ?t ?c; CNOT ?d ?e] with ([CNOT a b] ++ [Rz t c] ++ [CNOT d e]);
    repeat first
      [ apply issues_bind
      | eapply issues_lift_bind; [apply Item_total; lia|]
      | apply issues_emit ].
Qed.

(** The measurements at the end. *)
Lemma noops_loop {A} (xs : list A) qs q w m :
  Item qs 0 = Ok q ->
  ForEach xs (fun _ => bind (lift (Item qs 0)) (fun q =>
                       bind (Measure q) (fun r => Ignore r))) w m
  = Ok (tt, {| gates := gates m ++ replicate (length xs) (M q);
               allocated := allocated m;
               measured := (measured m + length xs)%nat |}).
Proof.
  intros Hq.
  assert (Hstep : forall m,
            bind (lift (Item qs 0)) (fun q => bind (Measure q) (fun r => Ignore r)) w m
            = Ok (tt, {| gates := gates m ++ [M q];
                         allocated := allocated m;
                         measured := S (measured m) |})).
  { intros m'. unfold bind, lift. rewrite Hq. reflexivity. }
  revert m. induction xs as [|x xs IH]; intros [gs a k].
  - cbn. rewrite app_nil_r, Nat.add_0_r. reflexivity.
  - cbn [ForEach]. unfold bind at 1. rewrite Hstep, IH.
    cbn [gates allocated measured length replicate].
    rewrite <- app_assoc. cbn [app]. rewrite Nat.add_succ_r. reflexivity.
Qed.

(** ** Obliviousness *)

Lemma oblivious_ret {A} (a : A) : oblivious (ret a).
Proof. intros w1 w2 m. reflexivity. Qed.

Lemma oblivious_lift {A} (r : Fallible A) : oblivious (lift r).
Proof. intros w1 w2 m. reflexivity. Qed.

Lemma oblivious_emit gate : oblivious (emit gate).
Proof. intros w1 w2 m. reflexivity. Qed.

Lemma oblivious_UseQubits n : oblivious (UseQubits n).
Proof. intros w1 w2 m. reflexivity. Qed.

Lemma oblivious_bind {A B} (c : Op A) (k : A -> Op B) :
  oblivious c -> (forall a, oblivious (k a)) -> oblivious (bind c k).
Proof.
  intros Hc Hk w1 w2 m. unfold bind. rewrite (Hc w1 w2 m).
  destruct (c w2 m) as [[a m']|e]; [apply Hk|reflexivity].
Qed.

Lemma oblivious_ForEach {A} (xs : list A) (body : A -> Op unit) :
  (forall x, oblivious (body x)) -> oblivious (ForEach xs body).
Proof.
  intros H. induction xs as [|x xs IH]; cbn [ForEach].
  - apply oblivious_ret.
  - apply oblivious_bind; [apply H|intros _; exact IH].
Qed.

(** A measurement whose outcome is ignored. *)
Lemma oblivious_Measure_Ignore q :
  oblivious (bind (Measure q) (fun r => Ignore r)).
Proof. intros w1 w2 m. reflexivity. Qed.

Lemma oblivious_ApplyAllX qs theta : oblivious (ApplyAllX qs theta).
Proof. apply oblivious_ForEach. intros q. apply oblivious_emit. Qed.


End Operations.

Section Simulation.
Variable PowD : Double -> Double -> Double.
Variable Ceiling : Double -> Z.

(** The main loop over sequences of length [len]. *)
Lemma main_loop_issues N qs len p dt J g :
  1 <= N -> Length qs = N * N -> 1 <= len ->
  issues
    (ForEach (Range 0 1 (len - 1)) (fun i =>
       if i `rem` 2 =? 0 then
         bind (lift (Item (seqA_entry len p dt J g <$> seqZ 0 len) i))
              (fun theta => ApplyAllX qs theta)
       else
         ForEach [(true, true); (true, false); (false, true); (false, false)]
           (fun '(dir, grp) =>
              bind (lift (Item (seqB_entry len p dt J g <$> seqZ 0 len) i))
                   (fun theta => ApplyDoubleZ N qs theta dir grp))))
    (flat_map (exponential N qs len p dt J g) (Range 0 1 (len - 1))).
Proof.
  intros HN Hqs Hlen. apply issues_ForEach. intros i Hi.
  apply elem_of_Range in Hi; [|lia]. unfold exponential.
  destruct (i `rem` 2 =? 0).
  - eapply issues_lift_bind; [apply Item_fmap_seqZ; lia|]. apply ApplyAllX_issues.
  - unfold ZZ_layer. apply issues_ForEach. intros [dir grp] _.
    eapply issues_lift_bind; [apply Item_fmap_seqZ; lia|].
    apply ApplyDoubleZ_issues; assumption.
Qed.

Lemma Length_seq a n : 0 <= n -> Length (seq a (Z.to_nat n)) = n.
Proof. intros Hn. unfold Length. rewrite length_seq. lia. Qed.

Lemma length_Range_unit start stop :
  start <= stop + 1 -> Z.of_nat (length (Range start 1 stop)) = stop - start + 1.
Proof. intros H. rewrite Range_unit, length_seqZ. lia. Qed.

(** A run on a lattice of at least one site and for a number of steps
    that is not negative. *)
Lemma IsingModel2DSim_run N J g totTime dt eps noops w :
  let t := Ceiling (totTime / dt)%D in
  let p := (lit 1 / (lit 4 - PowD (lit 4) (lit 1 / lit 3)))%D in
  let qs := seq 0 (Z.to_nat (N * N)) in
  1 <= N -> 0 <= t ->
  run (IsingModel2DSim PowD Ceiling N J g totTime dt eps noops) w
  = Ok (tt, {| gates := flat_map (exponential N qs (10 * t + 1) p dt J g)
                          (seqZ 0 (10 * t + 1))
                        ++ replicate (Z.to_nat noops) (M 0%nat);
               allocated := Z.to_nat (N * N);
               measured := Z.to_nat noops |}).
Proof.
  intros t p qs HN Ht.
  replace (seqZ 0 (10 * t + 1)) with (Range 0 1 (10 * t + 1 - 1))
    by (rewrite Range_unit; f_equal; lia).
  unfold run, IsingModel2DSim.
  unfold bind at 1. unfold UseQubits at 1.
  destruct (Z.ltb_spec (N * N) 0) as [Hneg|_]; [nia|].
  cbn [allocated gates measured initial Nat.add]. fold qs. cbv zeta. fold t. fold p.
  unfold bind at 1. unfold lift at 1.
  rewrite SetSequences_closed by lia.
  assert (Hqs : Length qs = N * N) by (apply Length_seq; nia).
  unfold bind at 1.
  rewrite (main_loop_issues N qs (10 * t + 1) p dt J g HN Hqs ltac:(lia)).
  cbn [gates allocated measured app].
  assert (Hq0 : Item qs 0 = Ok 0%nat).
  { rewrite Item_total by nia. f_equal. subst qs.
    apply list_lookup_total_correct. apply lookup_seq_lt. nia. }
  rewrite (noops_loop _ qs 0%nat w _ Hq0). cbn [gates allocated measured].
  pose proof (length_seqZ 1 (noops - 1 + 1)) as Hnoops. rewrite <- Range_unit in Hnoops.
  rewrite Hnoops. replace (Z.to_nat (noops - 1 + 1)) with (Z.to_nat noops) by lia.
  reflexivity.
Qed.


(** A run for a negative number of steps fails before any gate: the
    sequences cannot be allocated. *)
Lemma IsingModel2DSim_negative_steps N J g totTime dt eps noops w :
  1 <= N -> Ceiling (totTime / dt)%D < 0 ->
  run (IsingModel2DSim PowD Ceiling N J g totTime dt eps noops) w = Fail NegativeSize.
Proof.
  intros HN Ht. unfold run, IsingModel2DSim.
  unfold bind at 1. unfold UseQubits at 1.
  destruct (Z.ltb_spec (N * N) 0) as [Hneg|_]; [nia|]. cbv zeta.
  unfold bind at 1. unfold lift at 1. unfold SetSequences, ConstantArray.
  destruct (Z.ltb_spec (10 * Ceiling (totTime / dt)%D + 1) 0); [reflexivity|lia].
Qed.

End Simulation.

(** ** The program on the 64-bit [Int] and the program on the integers *)

Section NoWrap.

Lemma SetSequences_no_wrap len p dt J g :
  in_Int len -> Int64.SetSequences len p dt J g = SetSequences len p dt J g.
Proof.
  intros Hlen. unfold Int64.SetSequences, SetSequences, ConstantArray.
  destruct (Z.ltb_spec len 0) as [Hneg|Hpos]; [reflexivity|].
  unfold Int64.sub. rewrite !wrap_in_Int by (unfold in_Int in *; lia). reflexivity.
Qed.

Lemma bind_ext {A B} (c c' : Op A) (k k' : A -> Op B) :
  (forall w m, c w m = c' w m) -> (forall a w m, k a w m = k' a w m) ->
  forall w m, bind c k w m = bind c' k' w m.
Proof.
  intros Hc Hk w m. unfold bind. rewrite Hc.
  destruct (c' w m) as [[a m']|e]; [apply Hk|reflexivity].
Qed.

Lemma ForEach_ext {A} (xs : list A) (f g : A -> Op unit) :
  (forall x, x ∈ xs -> forall w m, f x w m = g x w m) ->
  forall w m, ForEach xs f w m = ForEach xs g w m.
Proof.
  induction xs as [|x xs IH]; intros H w m; cbn [ForEach]; [reflexivity|].
  apply bind_ext; [apply H; left|].
  intros _. apply IH. intros y Hy. apply H. right. exact Hy.
Qed.

Lemma pair_indices_no_wrap n (dir grp : bool) i j :
  in_Int (n * n) ->
  i ∈ Range 0 1 (n - 1) -> j ∈ Range (if grp then 0 else 1) 2 (n - 2) ->
  Int64.pair_indices n dir i j = pair_indices n dir i j.
Proof.
  intros Hn Hi Hj. pose proof (in_Int_square n Hn) as Hn'.
  apply elem_of_Range in Hi; [|lia]. apply elem_of_Range in Hj; [|lia].
  assert (0 <= j) by (destruct grp; lia).
  unfold Int64.pair_indices, pair_indices, Int64.add.
  destruct dir; rewrite wrap_in_Int by (unfold in_Int; lia);
    rewrite !GetQubitIndex_Int64 by (assumption || lia); reflexivity.
Qed.

(** The loops of [ApplyDoubleZ] stay inside the lattice, and so inside the
    range of [Int]. *)
Lemma ApplyDoubleZ_no_wrap n qs theta dir grp :
  in_Int (n * n) ->
  forall w m, Int64.ApplyDoubleZ n qs theta dir grp w m = ApplyDoubleZ n qs theta dir grp w m.
Proof.
  intros Hn. pose proof (in_Int_square n Hn) as Hn'.
  unfold Int64.ApplyDoubleZ, ApplyDoubleZ, Int64.sub.
  rewrite !wrap_in_Int by (unfold in_Int; lia).
  apply ForEach_ext. intros i Hi. apply ForEach_ext. intros j Hj.
  pose proof (pair_indices_no_wrap n dir grp i j Hn Hi Hj) as Hp.
  unfold Int64.pair_indices, pair_indices in Hp.
  destruct dir; injection Hp as -> ->; reflexivity.
Qed.

Section Library.
Variable PowD : Double -> Double -> Double.
Variables Ceiling Ceiling' : Double -> Z.

(** The 64-bit program is the program on the integers for the sequence
    length that it computes, when [N * N] does not wrap around. *)
Lemma IsingModel2DSim_seqLen N J g totTime dt eps noops :
  let t := Ceiling (totTime / dt)%D in
  let t' := Ceiling' (totTime / dt)%D in
  in_Int (N * N) -> Int64.add (Int64.mul 10 t) 1 = 10 * t' + 1 ->
  forall w m,
    Int64.IsingModel2DSim PowD Ceiling N J g totTime dt eps noops w m
    = IsingModel2DSim PowD Ceiling' N J g totTime dt eps noops w m.
Proof.
  intros t t' HN Ht.
  assert (Hlen : in_Int (10 * t' + 1)).
  { rewrite <- Ht. unfold Int64.add, wrap, in_Int.
    pose proof (Z.mod_pos_bound (Int64.mul 10 t + 1 + 2 ^ 63) (2 ^ 64) ltac:(lia)). lia. }
  unfold Int64.IsingModel2DSim, IsingModel2DSim. fold t t'. rewrite Ht.
  unfold Int64.mul at 1. rewrite (wrap_in_Int (N * N)) by assumption.
  unfold Int64.sub. rewrite (wrap_in_Int (10 * t' + 1 - 1)) by (unfold in_Int in *; lia).
  rewrite SetSequences_no_wrap by assumption.
  apply bind_ext; [reflexivity|intros qs]. cbv zeta.
  apply bind_ext; [reflexivity|intros [seqA seqB]].
  apply bind_ext; [|reflexivity].
  apply ForEach_ext. intros i _. destruct (i `rem` 2 =? 0); [reflexivity|].
  apply ForEach_ext. intros [dir grp] _.
  apply bind_ext; [reflexivity|intros theta]. apply ApplyDoubleZ_no_wrap. exact HN.
Qed.

End Library.

Lemma IsingModel2DSim_no_wrap PowD Ceiling N J g totTime dt eps noops w :
  in_Int (N * N) -> in_Int (10 * Ceiling (totTime / dt)%D + 1) ->
  run (Int64.IsingModel2DSim PowD Ceiling N J g totTime dt eps noops) w
  = run (IsingModel2DSim PowD Ceiling N J g totTime dt eps noops) w.
Proof.
  intros HN Ht. unfold run. apply IsingModel2DSim_seqLen; [exact HN|].
  unfold Int64.add, Int64.mul.
  rewrite (wrap_in_Int (10 * _)) by (unfold in_Int in *; lia).
  apply wrap_in_Int. exact Ht.
Qed.

(** The entry point: [10 * 10] and, for [80] steps, [801] are in the
    range. *)
Lemma Ising10_no_wrap PowD Ceiling noops w :
  Ceiling (lit 80) = 80 ->
  run (Int64.Ising10 PowD Ceiling noops) w = run (Ising10 PowD Ceiling noops) w.
Proof.
  intros HC.
  assert (Ht : Ceiling (lit 20 / literal_0_25)%D = 80).
  { replace (lit 20 / literal_0_25)%D with (lit 80) by (vm_compute; reflexivity). exact HC. }
  unfold Int64.Ising10, Ising10. apply IsingModel2DSim_no_wrap; [|rewrite Ht];
    (unfold in_Int; split; [vm_compute; intros H; discriminate H|vm_compute; reflexivity]).
Qed.

(** The 64-bit program does not depend on the outcomes of its
    measurements either. *)
Lemma oblivious_ApplyDoubleZ_Int64 n qs theta dir grp :
  oblivious (Int64.ApplyDoubleZ n qs theta dir grp).
Proof.
  unfold Int64.ApplyDoubleZ. apply oblivious_ForEach. intros i.
  apply oblivious_ForEach. intros j. destruct dir; unfold WithinApply;
    repeat first
      [ apply oblivious_bind; [|intros ?]
      | apply oblivious_lift
      | apply oblivious_emit ].
Qed.

Lemma oblivious_IsingModel2DSim_Int64 PowD Ceiling N J g totTime dt eps noops :
  oblivious (Int64.IsingModel2DSim PowD Ceiling N J g totTime dt eps noops).
Proof.
  unfold Int64.IsingModel2DSim.
  apply oblivious_bind; [apply oblivious_UseQubits|intros qs]. cbv zeta.
  apply oblivious_bind; [apply oblivious_lift|intros [seqA seqB]].
  apply oblivious_bind; [|intros _].
  - apply oblivious_ForEach. intros i. destruct (i `rem` 2 =? 0).
    + apply oblivious_bind; [apply oblivious_lift|intros theta].
      apply oblivious_ApplyAllX.
    + apply oblivious_ForEach. intros [dir grp].
      apply oblivious_bind; [apply oblivious_lift|intros theta].
      apply oblivious_ApplyDoubleZ_Int64.
  - apply oblivious_ForEach. intros _.
    apply oblivious_bind; [apply oblivious_lift|intros q].
    apply oblivious_Measure_Ignore.
Qed.

End NoWrap.

Section SeqLen.
Variable PowD : Double -> Double -> Double.
Variable Ceiling : Double -> Z.

Lemma wrap_range z : in_Int (wrap z).
Proof.
  unfold in_Int, wrap.
  pose proof (Z.mod_pos_bound (z + 2 ^ 63) (2 ^ 64) eq_refl) as H.
  change (2 ^ 64) with (2 ^ 63 + 2 ^ 63) in H at 3. lia.
Qed.

(** The sequence length that the program computes is odd, whatever the
    number of steps: it is never [0]. *)
Lemma seqLen_nonzero t : Int64.add (Int64.mul 10 t) 1 <> 0.
Proof.
  unfold Int64.add, Int64.mul, wrap.
  pose proof (Z.div_mod (10 * t + 2 ^ 63) (2 ^ 64) ltac:(lia)) as H1.
  set (a := (10 * t + 2 ^ 63) `mod` 2 ^ 64) in *.
  pose proof (Z.div_mod (a - 2 ^ 63 + 1 + 2 ^ 63) (2 ^ 64) ltac:(lia)) as H2.
  set (b := (a - 2 ^ 63 + 1 + 2 ^ 63) `mod` 2 ^ 64) in *.
  set (q1 := (10 * t + 2 ^ 63) `div` 2 ^ 64) in *.
  set (q2 := (a - 2 ^ 63 + 1 + 2 ^ 63) `div` 2 ^ 64) in *.
  change (2 ^ 64) with 18446744073709551616 in *.
  change (2 ^ 63) with 9223372036854775808 in *. lia.
Qed.

(** A run of the 64-bit program on a lattice of at least one site, in
    terms of the sequence length [seqLen] that it computes. *)
Lemma IsingModel2DSim_Int64_run N J g totTime dt eps noops w :
  let t := Ceiling (totTime / dt)%D in
  let p := (lit 1 / (lit 4 - PowD (lit 4) (lit 1 / lit 3)))%D in
  let seqLen := Int64.add (Int64.mul 10 t) 1 in
  let qs := seq 0 (Z.to_nat (N * N)) in
  1 <= N -> in_Int (N * N) -> 1 <= seqLen ->
  run (Int64.IsingModel2DSim PowD Ceiling N J g totTime dt eps noops) w
  = Ok (tt, {| gates := flat_map (exponential N qs seqLen p dt J g) (seqZ 0 seqLen)
                        ++ replicate (Z.to_nat noops) (M 0%nat);
               allocated := Z.to_nat (N * N);
               measured := Z.to_nat noops |}).
Proof.
  intros t p seqLen qs HN HNN Hlen.
  assert (Hin : in_Int seqLen) by apply wrap_range.
  replace (seqZ 0 seqLen) with (Range 0 1 (seqLen - 1))
    by (rewrite Range_unit; f_equal; lia).
  unfold run, Int64.IsingModel2DSim. fold t. fold seqLen.
  unfold Int64.mul at 1. rewrite (wrap_in_Int (N * N)) by assumption.
  unfold Int64.sub. rewrite (wrap_in_Int (seqLen - 1)) by (unfold in_Int in *; lia).
  unfold bind at 1. unfold UseQubits at 1.
  destruct (Z.ltb_spec (N * N) 0) as [Hneg|_]; [nia|].
  cbn [allocated gates measured initial Nat.add]. fold qs. cbv zeta. fold p.
  unfold bind at 1. unfold lift at 1.
  rewrite SetSequences_no_wrap by assumption.
  rewrite SetSequences_closed by lia.
  assert (Hqs : Length qs = N * N) by (apply Length_seq; nia).
  unfold bind at 1.
  rewrite (ForEach_ext (Range 0 1 (seqLen - 1)) _
             (fun i =>
                if i `rem` 2 =? 0 then
                  bind (lift (Item (seqA_entry seqLen p dt J g <$> seqZ 0 seqLen) i))
                       (fun theta => ApplyAllX qs theta)
                else
                  ForEach [(true, true); (true, false); (false, true); (false, false)]
                    (fun '(dir, grp) =>
                       bind (lift (Item (seqB_entry seqLen p dt J g <$> seqZ 0 seqLen) i))
                            (fun theta => ApplyDoubleZ N qs theta dir grp)))).
  2:{ intros i _ w' m'. destruct (i `rem` 2 =? 0); [reflexivity|].
      apply ForEach_ext. intros [dir grp] _.
      apply bind_ext; [reflexivity|intros theta]. apply ApplyDoubleZ_no_wrap. exact HNN. }
  rewrite (main_loop_issues N qs seqLen p dt J g HN Hqs Hlen).
  cbn [gates allocated measured app].
  assert (Hq0 : Item qs 0 = Ok 0%nat).
  { rewrite Item_total by nia. f_equal. subst qs.
    apply list_lookup_total_correct. apply lookup_seq_lt. nia. }
  rewrite (noops_loop _ qs 0%nat w _ Hq0). cbn [gates allocated measured].
  pose proof (length_seqZ 1 (noops - 1 + 1)) as Hnoops. rewrite <- Range_unit in Hnoops.
  rewrite Hnoops. replace (Z.to_nat (noops - 1 + 1)) with (Z.to_nat noops) by lia.
  reflexivity.
Qed.

(** A negative sequence length: the sequences cannot be allocated. *)
Lemma IsingModel2DSim_Int64_negative N J g totTime dt eps noops w :
  in_Int (N * N) -> Int64.add (Int64.mul 10 (Ceiling (totTime / dt)%D)) 1 < 0 ->
  run (Int64.IsingModel2DSim PowD Ceiling N J g totTime dt eps noops) w = Fail NegativeSize.
Proof.
  intros HNN Hlen. unfold run, Int64.IsingModel2DSim.
  unfold Int64.mul at 1. rewrite (wrap_in_Int (N * N)) by assumption.
  unfold bind at 1. unfold UseQubits at 1.
  destruct (Z.ltb_spec (N * N) 0) as [Hneg|_]; [nia|]. cbv zeta.
  unfold bind at 1. unfold lift at 1. unfold Int64.SetSequences, ConstantArray.
  destruct (Z.ltb_spec (Int64.add (Int64.mul 10 (Ceiling (totTime / dt)%D)) 1) 0);
    [reflexivity|lia].
Qed.

End SeqLen.

(** C2, as stated, fails. With [dt = 1.0] and the total time [-1.0] the
    number of steps is [-1] and the sequence length [-9]: the run fails on
    the size of the sequences, before any term. With [totTime = dt = 1.0]
    and [N = 3037000500], [N * N] is beyond the range of [Int] and wraps
    around to a negative number: the run fails on the size of the register.
    With [dt = 1.0] and the total time [10 ^ 18], [10 * t + 1] wraps around
    to a negative number, and the run fails on the size of the sequences. *)
Lemma IsingModel2DSim_terms_missing :
  (1 <= 2 /\ ltb (lit 0) (lit 1) = true /\
   ceiling (lit (-1) / lit 1)%D = -1 /\
   run (Int64.IsingModel2DSim PowD_cube_root_4 ceiling 2 (lit 1) (lit 1) (lit (-1)) (lit 1)
          (lit 1 / lit 1000)%D 0) (fun _ => false)
   = Fail NegativeSize) /\
  (1 <= 3037000500 /\ ltb (lit 0) (lit 1) = true /\
   ceiling (lit 1 / lit 1)%D = 1 /\
   Int64.mul 3037000500 3037000500 = -9223372036709301616 /\
   run (Int64.IsingModel2DSim PowD_cube_root_4 ceiling 3037000500 (lit 1) (lit 1) (lit 1)
          (lit 1) (lit 1 / lit 1000)%D 0) (fun _ => false)
   = Fail NegativeSize) /\
  (1 <= 2 /\ ltb (lit 0) (lit 1) = true /\
   ceiling (lit (10 ^ 18) / lit 1)%D = 10 ^ 18 /\
   Int64.add (Int64.mul 10 (10 ^ 18)) 1 = -8446744073709551615 /\
   run (Int64.IsingModel2DSim PowD_cube_root_4 ceiling 2 (lit 1) (lit 1) (lit (10 ^ 18))
          (lit 1) (lit 1 / lit 1000)%D 0) (fun _ => false)
   = Fail NegativeSize).
Proof.
  split; [|split]; (split; [lia|]); repeat split; vm_compute; reflexivity.
Qed.

(** C2, amended. For every [N >= 1] and every [totTime] and [dt] whose
    number of steps [t = Ceiling(totTime / dt)] is not negative, with
    [N * N] and [10 * t + 1] in the range of [Int], [IsingModel2DSim]
    produces exactly [10 * t + 1] exponential terms: the sequence length
    that the program computes is [10 * t + 1], [SetSequences] returns
    sequences of that length, the main loop runs over the [10 * t + 1]
    indices [0 <= i < 10 * t + 1], and the gates of the run are, index by
    index, one layer of X rotations (the gates of [ApplyAllX]) at each even
    index and one interaction layer (the gates of the four calls of
    [ApplyDoubleZ]) at each odd index, followed by the [noops] measurements. *)
Theorem IsingModel2DSim_terms (PowD : Double -> Double -> Double)
    (Ceiling : Double -> Z) (N : Z) (J g totTime dt eps : Double) (noops : Z)
    (w : Outcomes) :
  let t := Ceiling (totTime / dt)%D in
  let p := (lit 1 / (lit 4 - PowD (lit 4) (lit 1 / lit 3)))%D in
  let seqLen := Int64.add (Int64.mul 10 t) 1 in
  let qs := seq 0 (Z.to_nat (N * N)) in
  1 <= N -> 0 <= t -> in_Int (N * N) -> in_Int (10 * t + 1) ->
  seqLen = 10 * t + 1 /\
  (exists seqA seqB,
     Int64.SetSequences seqLen p dt J g = Ok (seqA, seqB) /\
     Length seqA = 10 * t + 1 /\ Length seqB = 10 * t + 1) /\
  Range 0 1 (Int64.sub seqLen 1) = seqZ 0 (10 * t + 1) /\
  Length (seqZ 0 (10 * t + 1)) = 10 * t + 1 /\
  run (Int64.IsingModel2DSim PowD Ceiling N J g totTime dt eps noops) w
  = Ok (tt, {| gates := flat_map (exponential N qs (10 * t + 1) p dt J g)
                          (seqZ 0 (10 * t + 1))
                        ++ replicate (Z.to_nat noops) (M 0%nat);
               allocated := Z.to_nat (N * N);
               measured := Z.to_nat noops |}).
Proof.
  intros t p seqLen qs HN Ht HNN Hlen.
  assert (Hseq : seqLen = 10 * t + 1).
  { subst seqLen. unfold Int64.add, Int64.mul.
    rewrite (wrap_in_Int (10 * t)) by (unfold in_Int in *; lia).
    apply wrap_in_Int. exact Hlen. }
  split; [exact Hseq|]. rewrite Hseq. split; [|split; [|split]].
  - exists (seqA_entry (10 * t + 1) p dt J g <$> seqZ 0 (10 * t + 1)),
           (seqB_entry (10 * t + 1) p dt J g <$> seqZ 0 (10 * t + 1)).
    rewrite SetSequences_no_wrap by assumption.
    split; [apply SetSequences_closed; lia|].
    split; apply Length_fmap_seqZ; lia.
  - unfold Int64.sub. rewrite wrap_in_Int by (unfold in_Int in *; lia).
    rewrite Range_unit. f_equal. lia.
  - unfold Length. rewrite length_seqZ. lia.
  - rewrite IsingModel2DSim_no_wrap by assumption.
    apply IsingModel2DSim_run; assumption.
Qed.

Lemma IsingModel2DSim_terms_witness :
  1 <= 10 /\
  0 <= ceiling (lit 20 / (lit 1 / lit 4))%D /\
  in_Int (10 * 10) /\
  in_Int (10 * ceiling (lit 20 / (lit 1 / lit 4))%D + 1) /\
  (let t := ceiling (lit 20 / (lit 1 / lit 4))%D in
   let p := (lit 1 / (lit 4 - PowD_cube_root_4 (lit 4) (lit 1 / lit 3)))%D in
   let seqLen := Int64.add (Int64.mul 10 t) 1 in
   let qs := seq 0 (Z.to_nat (10 * 10)) in
   seqLen = 10 * t + 1 /\
   (exists seqA seqB,
      Int64.SetSequences seqLen p (lit 1 / lit 4)%D (lit 1) (lit 1) = Ok (seqA, seqB) /\
      Length seqA = 10 * t + 1 /\ Length seqB = 10 * t + 1) /\
   Range 0 1 (Int64.sub seqLen 1) = seqZ 0 (10 * t + 1) /\
   Length (seqZ 0 (10 * t + 1)) = 10 * t + 1 /\
   run (Int64.IsingModel2DSim PowD_cube_root_4 ceiling 10 (lit 1) (lit 1) (lit 20)
          (lit 1 / lit 4)%D (lit 1 / lit 1000)%D 0) (fun _ => false)
   = Ok (tt, {| gates := flat_map (exponential 10 qs (10 * t + 1) p (lit 1 / lit 4)%D
                                     (lit 1) (lit 1))
                           (seqZ 0 (10 * t + 1))
                         ++ replicate (Z.to_nat 0) (M 0%nat);
                allocated := Z.to_nat (10 * 10);
                measured := Z.to_nat 0 |})).
Proof.
  assert (H1 : 0 <= ceiling (lit 20 / (lit 1 / lit 4))%D)
    by (vm_compute; intros H; discriminate H).
  assert (H2 : in_Int (10 * 10)).
  { unfold in_Int. split; [vm_compute; intros H; discriminate H|vm_compute; reflexivity]. }
  assert (H3 : in_Int (10 * ceiling (lit 20 / (lit 1 / lit 4))%D + 1)).
  { unfold in_Int. split; [vm_compute; intros H; discriminate H|vm_compute; reflexivity]. }
  split; [lia|]. split; [exact H1|]. split; [exact H2|]. split; [exact H3|].
  apply (IsingModel2DSim_terms PowD_cube_root_4 ceiling 10 (lit 1) (lit 1) (lit 20)
           (lit 1 / lit 4)%D (lit 1 / lit 1000)%D 0 (fun _ => false));
    [lia|exact H1|exact H2|exact H3].
Defined.


(** C9, as stated, fails. For [N = 2 ^ 32] the size [N * N] of the register
    wraps around to [0]: the register is empty, and with [noops = 1] the run
    fails on the index of [qs[0]]. *)
Lemma qubit_access_out_of_range :
  1 <= 2 ^ 32 /\
  Int64.mul (2 ^ 32) (2 ^ 32) = 0 /\
  ceiling (lit 0 / lit 1)%D = 0 /\
  run (Int64.IsingModel2DSim PowD_cube_root_4 ceiling (2 ^ 32) (lit 1) (lit 1) (lit 0) (lit 1)
         (lit 1 / lit 1000)%D 1) (fun _ => false)
  = Fail IndexOutOfRange.
Proof. split; [vm_compute; intros H; discriminate H|]. repeat split; vm_compute; reflexivity. Qed.

(** C9, amended. For every [n >= 1] whose [n * n] is in the range of [Int]:
    the indices [ind1] and [ind2] of every iteration of [ApplyDoubleZ], for
    every [dir] and [grp], are indices of an array of [n * n] qubits; on
    every such array [ApplyDoubleZ] runs to its end, so that none of its
    array accesses is out of bounds; and no run of [IsingModel2DSim] on a
    lattice of size [n] fails on an index out of range, whatever the number
    of steps, the measurements of [qs[0]] at the end included. *)
Theorem qubit_accesses_in_bounds (PowD : Double -> Double -> Double)
    (Ceiling : Double -> Z) (n : Z) :
  1 <= n -> in_Int (n * n) ->
  (forall (dir grp : bool) i j,
     i ∈ Range 0 1 (Int64.sub n 1) ->
     j ∈ Range (if grp then 0 else 1) 2 (Int64.sub n 2) ->
     0 <= (Int64.pair_indices n dir i j).1 < n * n /\
     0 <= (Int64.pair_indices n dir i j).2 < n * n) /\
  (forall (qs : list Qubit) theta dir grp w m,
     Length qs = n * n ->
     exists m', Int64.ApplyDoubleZ n qs theta dir grp w m = Ok (tt, m')) /\
  (forall J g totTime dt eps noops w,
     run (Int64.IsingModel2DSim PowD Ceiling n J g totTime dt eps noops) w
     <> Fail IndexOutOfRange).
Proof.
  intros Hn Hnn. pose proof (in_Int_square n Hnn) as Hn'.
  split; [|split].
  - intros dir grp i j. unfold Int64.sub.
    rewrite !wrap_in_Int by (unfold in_Int; lia). intros Hi Hj.
    rewrite (pair_indices_no_wrap n dir grp i j Hnn Hi Hj).
    apply (pair_indices_range n dir grp i j Hn Hi Hj).
  - intros qs theta dir grp w m Hqs. rewrite ApplyDoubleZ_no_wrap by assumption.
    rewrite (ApplyDoubleZ_issues n qs theta dir grp Hn Hqs w m). eauto.
  - intros J g totTime dt eps noops w.
    pose proof (seqLen_nonzero (Ceiling (totTime / dt)%D)) as Hodd.
    destruct (Z_lt_le_dec (Int64.add (Int64.mul 10 (Ceiling (totTime / dt)%D)) 1) 0)
      as [Hneg|Hpos].
    + rewrite IsingModel2DSim_Int64_negative by assumption. discriminate.
    + rewrite IsingModel2DSim_Int64_run by (assumption || lia). discriminate.
Qed.

Lemma qubit_accesses_in_bounds_witness :
  1 <= 3 /\ in_Int (3 * 3) /\
  ((forall (dir grp : bool) i j,
      i ∈ Range 0 1 (Int64.sub 3 1) ->
      j ∈ Range (if grp then 0 else 1) 2 (Int64.sub 3 2) ->
      0 <= (Int64.pair_indices 3 dir i j).1 < 3 * 3 /\
      0 <= (Int64.pair_indices 3 dir i j).2 < 3 * 3) /\
   (forall (qs : list Qubit) theta dir grp w m,
      Length qs = 3 * 3 ->
      exists m', Int64.ApplyDoubleZ 3 qs theta dir grp w m = Ok (tt, m')) /\
   (forall J g totTime dt eps noops w,
      run (Int64.IsingModel2DSim PowD_cube_root_4 ceiling 3 J g totTime dt eps noops) w
      <> Fail IndexOutOfRange)).
Proof.
  assert (Hn : in_Int (3 * 3)).
  { unfold in_Int. split; [vm_compute; intros H; discriminate H|vm_compute; reflexivity]. }
  split; [lia|]. split; [exact Hn|].
  apply (qubit_accesses_in_bounds PowD_cube_root_4 ceiling 3); [lia|exact Hn].
Defined.

(* ===================================================================== *)
(** * More about the Q# program *)
(* ===================================================================== *)

(** ** The order of the qubits *)

Section Snake.

Lemma rem_2_succ r : 0 <= r -> ((r + 1) `rem` 2 =? 0) = negb (r `rem` 2 =? 0).
Proof.
  intros Hr. rewrite !rem_2_odd by lia. rewrite Z.add_1_r, Z.odd_succ, <- Z.negb_odd.
  reflexivity.
Qed.

End Snake.

(** X1. The order of the qubit array is a path through the lattice: for
    every [n >= 1] whose [n * n] is in the range of [Int], the sites of two
    consecutive array indices [k] and [k + 1] are next to each other, in the
    same row or in the same column. *)
Theorem GetQubitIndex_path (n k : Z) :
  1 <= n -> in_Int (n * n) -> 0 <= k < n * n - 1 ->
  exists r1 c1 r2 c2,
    0 <= r1 < n /\ 0 <= c1 < n /\ 0 <= r2 < n /\ 0 <= c2 < n /\
    Int64.GetQubitIndex r1 c1 n = k /\ Int64.GetQubitIndex r2 c2 n = k + 1 /\
    Z.abs (r2 - r1) + Z.abs (c2 - c1) = 1.
Proof.
  intros Hn Hnn Hk.
  assert (Hpath : exists r1 c1 r2 c2,
            0 <= r1 < n /\ 0 <= c1 < n /\ 0 <= r2 < n /\ 0 <= c2 < n /\
            GetQubitIndex r1 c1 n = k /\ GetQubitIndex r2 c2 n = k + 1 /\
            Z.abs (r2 - r1) + Z.abs (c2 - c1) = 1).
  { pose proof (Z.div_mod k n ltac:(lia)) as Hdm.
    pose proof (Z.mod_pos_bound k n ltac:(lia)) as Hm.
    assert (Hr : 0 <= k `div` n < n).
    { split; [apply Z.div_pos; lia|apply Z.div_lt_upper_bound; nia]. }
    set (r := k `div` n) in *. set (m := k `mod` n) in *.
    pose proof (rem_2_succ r ltac:(lia)) as Hpar.
    destruct (Z_lt_le_dec m (n - 1)) as [Hin|Hend].
    - (* the next site is in the same row *)
      destruct (r `rem` 2 =? 0) eqn:Heven.
      + exists r, m, r, (m + 1). unfold GetQubitIndex. rewrite Heven. repeat split; lia.
      + exists r, (n - 1 - m), r, (n - 2 - m). unfold GetQubitIndex. rewrite Heven.
        repeat split; lia.
    - (* the next site is in the next row, in the same column *)
      assert (r < n - 1) by nia.
      destruct (r `rem` 2 =? 0) eqn:Heven; cbn [negb] in Hpar.
      + exists r, (n - 1), (r + 1), (n - 1). unfold GetQubitIndex. rewrite Heven, Hpar.
        repeat split; lia.
      + exists r, 0, (r + 1), 0. unfold GetQubitIndex. rewrite Heven, Hpar.
        repeat split; lia. }
  destruct Hpath as (r1 & c1 & r2 & c2 & Hr1 & Hc1 & Hr2 & Hc2 & E1 & E2 & Hd).
  exists r1, c1, r2, c2. rewrite !GetQubitIndex_Int64 by assumption.
  repeat split; first [assumption | lia].
Qed.

Lemma GetQubitIndex_path_witness :
  1 <= 3 /\ in_Int (3 * 3) /\ 0 <= 2 < 3 * 3 - 1 /\
  exists r1 c1 r2 c2,
    0 <= r1 < 3 /\ 0 <= c1 < 3 /\ 0 <= r2 < 3 /\ 0 <= c2 < 3 /\
    Int64.GetQubitIndex r1 c1 3 = 2 /\ Int64.GetQubitIndex r2 c2 3 = 2 + 1 /\
    Z.abs (r2 - r1) + Z.abs (c2 - c1) = 1.
Proof.
  assert (Hn : in_Int (3 * 3)).
  { unfold in_Int. split; [vm_compute; intros H; discriminate H|vm_compute; reflexivity]. }
  split; [lia|]. split; [exact Hn|]. split; [lia|].
  apply (GetQubitIndex_path 3 2); [lia|exact Hn|lia].
Defined.

(** X2. On every lattice whose [n * n] qubits an [Int] can count, no
    intermediate result of [GetQubitIndex] leaves the range of the 64-bit
    [Int], and the index computed with the wrap-around of every operation is
    the index computed on the integers. *)
Theorem GetQubitIndex_64_bit (row col n : Z) :
  in_Int (n * n) -> 0 <= row < n -> 0 <= col < n ->
  (in_Int (n * row) /\ in_Int (col + n * row) /\
   in_Int (n - 1) /\ in_Int (n - 1 - col) /\ in_Int (n - 1 - col + n * row)) /\
  GetQubitIndex row col n
  = (if row `rem` 2 =? 0 then wrap (col + wrap (n * row))
     else wrap (wrap (wrap (n - 1) - col) + wrap (n * row))).
Proof.
  intros Hn Hr Hc.
  split; [apply GetQubitIndex_in_Int|apply GetQubitIndex_no_wrap]; assumption.
Qed.

Lemma GetQubitIndex_64_bit_witness :
  in_Int (3 * 3) /\ 0 <= 1 < 3 /\ 0 <= 2 < 3 /\
  (in_Int (3 * 1) /\ in_Int (2 + 3 * 1) /\
   in_Int (3 - 1) /\ in_Int (3 - 1 - 2) /\ in_Int (3 - 1 - 2 + 3 * 1)) /\
  GetQubitIndex 1 2 3
  = (if 1 `rem` 2 =? 0 then wrap (2 + wrap (3 * 1))
     else wrap (wrap (wrap (3 - 1) - 2) + wrap (3 * 1))).
Proof.
  assert (Hn : in_Int (3 * 3)).
  { unfold in_Int. split; [vm_compute; intros H; discriminate H|vm_compute; reflexivity]. }
  split; [exact Hn|]. split; [lia|]. split; [lia|].
  apply (GetQubitIndex_64_bit 1 2 3); [exact Hn|lia|lia].
Defined.

(** ** The sequences on every length *)

(** X3. [SetSequences] returns two arrays of length [len] on every
    [len >= 1]; it fails on an index out of range for [len = 0], where
    [seqA w/= 0] meets an empty array, and on the size of the arrays for a
    negative [len]. *)
Theorem SetSequences_succeeds_iff (len : Z) (p dt J g : Double) :
  (1 <= len ->
   exists seqA seqB,
     SetSequences len p dt J g = Ok (seqA, seqB) /\
     Length seqA = len /\ Length seqB = len) /\
  (len = 0 -> SetSequences len p dt J g = Fail IndexOutOfRange) /\
  (len < 0 -> SetSequences len p dt J g = Fail NegativeSize).
Proof.
  split; [|split].
  - intros Hlen. do 2 eexists. split; [apply SetSequences_closed; assumption|].
    split; apply Length_fmap_seqZ; lia.
  - intros ->. reflexivity.
  - intros Hlen. unfold SetSequences, ConstantArray.
    destruct (Z.ltb_spec len 0); [reflexivity|lia].
Qed.

Section Mirror.
Variables (p dt J g : Double).

Lemma seq_entries_mirror t i :
  0 <= t -> 0 <= i <= 10 * t ->
  seqA_entry (10 * t + 1) p dt J g (10 * t - i) = seqA_entry (10 * t + 1) p dt J g i /\
  seqB_entry (10 * t + 1) p dt J g (10 * t - i) = seqB_entry (10 * t + 1) p dt J g i.
Proof.
  intros Ht Hi. unfold seqA_entry, seqB_entry.
  replace (10 * t + 1 - 1) with (10 * t) by lia.
  replace (10 * t + 1 - 2) with (10 * t - 1) by lia.
  rewrite !Z.rem_mod_nonneg by lia.
  pose proof (Z.div_mod i 10 ltac:(lia)) as Hdm.
  pose proof (Z.mod_pos_bound i 10 ltac:(lia)) as Hr.
  set (q := i `div` 10) in *. set (r := i `mod` 10) in *.
  assert (Hcases : r = 0 \/ r = 1 \/ r = 2 \/ r = 3 \/ r = 4 \/
                   r = 5 \/ r = 6 \/ r = 7 \/ r = 8 \/ r = 9) by lia.
  assert (Hmod : forall a b c, 0 <= c < 10 -> a = 10 * b + c -> a `mod` 10 = c).
  { intros a b c Hc ->. rewrite Z.add_comm, Z.mul_comm, Z.mod_add by lia.
    apply Z.mod_small. exact Hc. }
  assert (Hmod2 : forall a b c, 0 <= c < 2 -> a = 2 * b + c -> a `mod` 2 = c).
  { intros a b c Hc ->. rewrite Z.add_comm, Z.mul_comm, Z.mod_add by lia.
    apply Z.mod_small. exact Hc. }
  destruct (Z.eqb_spec i 0) as [Hi0|Hi0].
  { replace (10 * t - i =? 10 * t) with true by lia.
    rewrite orb_true_r. cbn [orb].
    replace (1 <=? i) with false by lia.
    replace (10 * t - i <=? 10 * t - 1) with false by lia.
    rewrite andb_false_r. cbn [andb]. split; reflexivity. }
  destruct (Z.eqb_spec i (10 * t)) as [Hit|Hit].
  { replace (10 * t - i =? 0) with true by lia. cbn [orb].
    replace (1 <=? 10 * t - i) with false by lia.
    replace (i <=? 10 * t - 1) with false by lia.
    rewrite andb_false_r. cbn [andb]. split; reflexivity. }
  replace (10 * t - i =? 0) with false by lia.
  replace (10 * t - i =? 10 * t) with false by lia.
  replace (1 <=? 10 * t - i) with true by lia.
  replace (10 * t - i <=? 10 * t - 1) with true by lia.
  replace (1 <=? i) with true by lia.
  replace (i <=? 10 * t - 1) with true by lia.
  cbn [orb andb].
  destruct Hcases as [H|[H|[H|[H|[H|[H|[H|[H|[H|H]]]]]]]]]; rewrite H in *.
  - rewrite (Hmod (10 * t - i) (t - q) 0), (Hmod2 (10 * t - i) (5 * (t - q)) 0),
      (Hmod2 i (5 * q) 0) by lia. split; reflexivity.
  - rewrite (Hmod (10 * t - i) (t - q - 1) 9), (Hmod2 (10 * t - i) (5 * (t - q) - 1) 1),
      (Hmod2 i (5 * q) 1) by lia. split; reflexivity.
  - rewrite (Hmod (10 * t - i) (t - q - 1) 8), (Hmod2 (10 * t - i) (5 * (t - q) - 1) 0),
      (Hmod2 i (5 * q + 1) 0) by lia. split; reflexivity.
  - rewrite (Hmod (10 * t - i) (t - q - 1) 7), (Hmod2 (10 * t - i) (5 * (t - q) - 2) 1),
      (Hmod2 i (5 * q + 1) 1) by lia. split; reflexivity.
  - rewrite (Hmod (10 * t - i) (t - q - 1) 6), (Hmod2 (10 * t - i) (5 * (t - q) - 2) 0),
      (Hmod2 i (5 * q + 2) 0) by lia. split; reflexivity.
  - rewrite (Hmod (10 * t - i) (t - q - 1) 5), (Hmod2 (10 * t - i) (5 * (t - q) - 3) 1),
      (Hmod2 i (5 * q + 2) 1) by lia. split; reflexivity.
  - rewrite (Hmod (10 * t - i) (t - q - 1) 4), (Hmod2 (10 * t - i) (5 * (t - q) - 3) 0),
      (Hmod2 i (5 * q + 3) 0) by lia. split; reflexivity.
  - rewrite (Hmod (10 * t - i) (t - q - 1) 3), (Hmod2 (10 * t - i) (5 * (t - q) - 4) 1),
      (Hmod2 i (5 * q + 3) 1) by lia. split; reflexivity.
  - rewrite (Hmod (10 * t - i) (t - q - 1) 2), (Hmod2 (10 * t - i) (5 * (t - q) - 4) 0),
      (Hmod2 i (5 * q + 4) 0) by lia. split; reflexivity.
  - rewrite (Hmod (10 * t - i) (t - q - 1) 1), (Hmod2 (10 * t - i) (5 * (t - q) - 5) 1),
      (Hmod2 i (5 * q + 4) 1) by lia. split; reflexivity.
Qed.

Lemma reverse_fmap_seqZ (f : Z -> Double) n :
  0 <= n -> reverse (f <$> seqZ 0 n) = (fun i => f (n - 1 - i)) <$> seqZ 0 n.
Proof.
  intros Hn. apply list_eq. intros k.
  destruct (decide (k < Z.to_nat n)%nat) as [Hk|Hk].
  - rewrite reverse_lookup by (rewrite length_fmap, length_seqZ; lia).
    rewrite length_fmap, length_seqZ.
    rewrite !list_lookup_fmap, !lookup_seqZ_lt by lia. cbn. do 2 f_equal. lia.
  - rewrite !lookup_ge_None_2; [reflexivity| |].
    + rewrite length_fmap, length_seqZ. lia.
    + rewrite length_reverse, length_fmap, length_seqZ. lia.
Qed.

End Mirror.

(** X4. For every number of steps [t >= 0], the two sequences of length
    [10 * t + 1] that [SetSequences] returns read the same backwards: the
    product of exponentials that the program applies is symmetric in time. *)
Theorem SetSequences_symmetric (t : Z) (p dt J g : Double) :
  0 <= t ->
  exists seqA seqB,
    SetSequences (10 * t + 1) p dt J g = Ok (seqA, seqB) /\
    reverse seqA = seqA /\ reverse seqB = seqB.
Proof.
  intros Ht. do 2 eexists. split; [apply SetSequences_closed; lia|].
  rewrite !reverse_fmap_seqZ by lia.
  split; apply fmap_seqZ_ext; intros i Hi;
    replace (10 * t + 1 - 1 - i) with (10 * t - i) by lia;
    apply seq_entries_mirror; lia.
Qed.

Lemma SetSequences_symmetric_witness :
  0 <= 2 /\
  exists seqA seqB,
    SetSequences (10 * 2 + 1) (lit 1 / lit 4)%D (lit 1) (lit 1) (lit 2) = Ok (seqA, seqB) /\
    reverse seqA = seqA /\ reverse seqB = seqB.
Proof.
  split; [lia|].
  apply (SetSequences_symmetric 2 (lit 1 / lit 4)%D (lit 1) (lit 1) (lit 2)). lia.
Defined.

(** ** The pairs of the interaction *)

Section Pairs.

Lemma flat_map_bind {A B} (f : A -> list B) (l : list A) : flat_map f l = l ≫= f.
Proof. induction l as [|x l IH]; cbn; [reflexivity|]. rewrite IH. reflexivity. Qed.

Lemma elem_of_flat_map {A B} (f : A -> list B) (l : list A) (y : B) :
  y ∈ flat_map f l <-> exists x, x ∈ l /\ y ∈ f x.
Proof.
  rewrite flat_map_bind, list_elem_of_bind.
  split; intros (x & H1 & H2); exists x; split; assumption.
Qed.

Lemma NoDup_flat_map {A B} (f : A -> list B) (l : list A) :
  (forall x1 x2 y, x1 ∈ l -> x2 ∈ l -> y ∈ f x1 -> y ∈ f x2 -> x1 = x2) ->
  (forall x, x ∈ l -> NoDup (f x)) -> NoDup l -> NoDup (flat_map f l).
Proof. rewrite flat_map_bind. apply NoDup_bind. Qed.

Lemma elem_of_Range_iff start step stop x :
  0 < step ->
  x ∈ Range start step stop <->
  start <= x <= stop /\ (x - start) `mod` step = 0.
Proof.
  intros Hs. unfold Range. destruct (Z.ltb_spec 0 step); [|lia].
  rewrite list_elem_of_fmap. split.
  - intros (k & -> & Hk). apply elem_of_seqZ in Hk.
    pose proof (Z.mul_div_le (stop - start) step Hs).
    split; [nia|].
    replace (start + step * k - start) with (k * step) by lia.
    apply Z.mod_mul. lia.
  - intros [Hx Hm]. exists ((x - start) `div` step).
    pose proof (Z.div_mod (x - start) step ltac:(lia)) as Hdm.
    split; [lia|]. apply elem_of_seqZ.
    split; [apply Z.div_pos; lia|].
    assert ((x - start) `div` step <= (stop - start) `div` step); [|lia].
    apply Z.div_le_mono; lia.
Qed.

Lemma NoDup_Range start step stop : NoDup (Range start step stop).
Proof.
  unfold Range. destruct (Z.ltb_spec 0 step); [|destruct (Z.ltb_spec step 0)].
  - apply NoDup_fmap_2_strong; [|apply NoDup_seqZ]. intros a b _ _ Hab. nia.
  - apply NoDup_fmap_2_strong; [|apply NoDup_seqZ]. intros a b _ _ Hab. nia.
  - constructor.
Qed.

Lemma elem_of_Range_2 start stop x :
  x ∈ Range start 2 stop <-> exists k, 0 <= k /\ x = start + 2 * k /\ x <= stop.
Proof.
  rewrite elem_of_Range_iff by lia. split.
  - intros [Hx Hm]. exists ((x - start) `div` 2).
    pose proof (Z.div_mod (x - start) 2 ltac:(lia)) as Hdm.
    split; [apply Z.div_pos; lia|]. split; lia.
  - intros (k & Hk & -> & Hs). split; [lia|].
    replace (start + 2 * k - start) with (k * 2) by lia. apply Z.mod_mul. lia.
Qed.

Lemma elem_of_Range_1 start stop x : x ∈ Range start 1 stop <-> start <= x <= stop.
Proof.
  rewrite elem_of_Range_iff by lia. rewrite Z.mod_1_r. tauto.
Qed.

Lemma elem_of_pass_pairs n dir grp e :
  e ∈ pass_pairs n dir grp <->
  exists i j k, 0 <= i <= n - 1 /\ 0 <= k /\ j = (if grp then 0 else 1) + 2 * k /\
                j <= n - 2 /\ e = pair_indices n dir i j.
Proof.
  unfold pass_pairs. rewrite elem_of_flat_map. split.
  - intros (i & Hi & He). apply list_elem_of_fmap in He as (j & -> & Hj).
    apply elem_of_Range_1 in Hi. apply elem_of_Range_2 in Hj as (k & Hk & Hj & Hs).
    exists i, j, k. repeat split; try assumption; lia.
  - intros (i & j & k & Hi & Hk & Hj & Hs & ->). exists i. split.
    + apply elem_of_Range_1. lia.
    + apply list_elem_of_fmap. exists j. split; [reflexivity|].
      apply elem_of_Range_2. exists k. repeat split; assumption.
Qed.

(** Two iterations of [ApplyDoubleZ] with the same pair of indices are the
    same iteration, of calls in the same direction. *)
Lemma pair_indices_inj n d1 i1 j1 d2 i2 j2 :
  0 <= i1 <= n - 1 -> 0 <= j1 <= n - 2 -> 0 <= i2 <= n - 1 -> 0 <= j2 <= n - 2 ->
  pair_indices n d1 i1 j1 = pair_indices n d2 i2 j2 -> d1 = d2 /\ i1 = i2 /\ j1 = j2.
Proof.
  intros Hi1 Hj1 Hi2 Hj2. unfold pair_indices.
  destruct d1, d2; intros [= Ha Hb];
    apply GetQubitIndex_inj in Ha; try lia;
    apply GetQubitIndex_inj in Hb; try lia.
  all: repeat split; lia.
Qed.

(** An index that two iterations of one call share: they are one
    iteration. *)
Lemma pair_indices_disjoint n dir (grp : bool) i1 j1 k1 i2 j2 k2 y :
  0 <= i1 <= n - 1 -> 0 <= k1 -> j1 = (if grp then 0 else 1) + 2 * k1 -> j1 <= n - 2 ->
  0 <= i2 <= n - 1 -> 0 <= k2 -> j2 = (if grp then 0 else 1) + 2 * k2 -> j2 <= n - 2 ->
  y ∈ [(pair_indices n dir i1 j1).1; (pair_indices n dir i1 j1).2] ->
  y ∈ [(pair_indices n dir i2 j2).1; (pair_indices n dir i2 j2).2] ->
  i1 = i2 /\ j1 = j2.
Proof.
  intros Hi1 Hk1 Hj1 Hs1 Hi2 Hk2 Hj2 Hs2 H1 H2.
  assert (0 <= j1 /\ 0 <= j2) as [? ?] by (destruct grp; lia).
  apply list_elem_of_In in H1, H2. cbn [In] in H1, H2.
  unfold pair_indices in *.
  destruct dir; cbn [fst snd] in *;
    destruct H1 as [H1|[H1|[]]], H2 as [H2|[H2|[]]]; subst y;
    apply GetQubitIndex_inj in H2; try lia; destruct grp; lia.
Qed.

Lemma pair_indices_distinct n dir i j :
  0 <= i <= n - 1 -> 0 <= j <= n - 2 ->
  (pair_indices n dir i j).1 <> (pair_indices n dir i j).2.
Proof.
  intros Hi Hj. unfold pair_indices. destruct dir; cbn [fst snd]; intros H;
    apply GetQubitIndex_inj in H; lia.
Qed.

Lemma NoDup_pass_pairs n dir grp : NoDup (pass_pairs n dir grp).
Proof.
  unfold pass_pairs. apply NoDup_flat_map; [| |apply NoDup_Range].
  - intros i1 i2 e Hi1 Hi2 H1 H2.
    apply elem_of_Range_1 in Hi1, Hi2.
    apply list_elem_of_fmap in H1 as (j1 & -> & Hj1).
    apply list_elem_of_fmap in H2 as (j2 & He & Hj2).
    apply elem_of_Range_2 in Hj1 as (k1 & ? & ? & ?).
    apply elem_of_Range_2 in Hj2 as (k2 & ? & ? & ?).
    apply pair_indices_inj in He; [lia|destruct grp; lia..].
  - intros i Hi. apply elem_of_Range_1 in Hi.
    apply NoDup_fmap_2_strong; [|apply NoDup_Range].
    intros j1 j2 Hj1 Hj2 He.
    apply elem_of_Range_2 in Hj1 as (k1 & ? & ? & ?).
    apply elem_of_Range_2 in Hj2 as (k2 & ? & ? & ?).
    apply pair_indices_inj in He; [lia|destruct grp; lia..].
Qed.

Lemma NoDup_pass_indices n dir grp :
  NoDup (flat_map (fun e : Z * Z => [e.1; e.2]) (pass_pairs n dir grp)).
Proof.
  apply NoDup_flat_map; [| |apply NoDup_pass_pairs].
  - intros e1 e2 y H1 H2 Hy1 Hy2.
    apply elem_of_pass_pairs in H1 as (i1 & j1 & k1 & ? & ? & ? & ? & ->).
    apply elem_of_pass_pairs in H2 as (i2 & j2 & k2 & ? & ? & ? & ? & ->).
    destruct (pair_indices_disjoint n dir grp i1 j1 k1 i2 j2 k2 y) as [-> ->];
      try assumption. reflexivity.
  - intros e He. apply elem_of_pass_pairs in He as (i & j & k & ? & ? & ? & ? & ->).
    apply NoDup_cons. split; [|apply NoDup_singleton].
    rewrite list_elem_of_singleton. apply pair_indices_distinct; [lia|destruct grp; lia].
Qed.

Lemma NoDup_layer_pairs n : NoDup (layer_pairs n).
Proof.
  unfold layer_pairs. apply NoDup_flat_map.
  - intros [d1 g1] [d2 g2] e _ _ H1 H2.
    apply elem_of_pass_pairs in H1 as (i1 & j1 & k1 & ? & ? & ? & ? & ->).
    apply elem_of_pass_pairs in H2 as (i2 & j2 & k2 & ? & ? & ? & ? & He).
    apply pair_indices_inj in He as (-> & ? & ?); [|destruct g1, g2; lia..].
    destruct g1, g2; first [reflexivity | lia].
  - intros [dir grp] _. apply NoDup_pass_pairs.
  - apply (bool_decide_unpack _). vm_compute. exact I.
Qed.

Lemma elem_of_layer_pairs n e :
  1 <= n -> e ∈ layer_pairs n <-> neighbours n e.
Proof.
  intros Hn. unfold layer_pairs. rewrite elem_of_flat_map. split.
  - intros ([dir grp] & _ & He).
    apply elem_of_pass_pairs in He as (i & j & k & ? & ? & ? & ? & ->).
    assert (0 <= j) by (destruct grp; lia).
    unfold pair_indices. destruct dir; [left; exists i, j|right; exists j, i];
      repeat split; lia.
  - intros [(row & col & Hr & Hc & ->)|(row & col & Hr & Hc & ->)].
    + exists (true, Z.even col). split.
      { destruct (Z.even col); apply list_elem_of_In; cbn; tauto. }
      apply elem_of_pass_pairs. exists row, col, (col `div` 2).
      pose proof (Zmod_even col) as He. pose proof (Z.div_mod col 2 ltac:(lia)).
      split; [lia|]. split; [apply Z.div_pos; lia|].
      split; [destruct (Z.even col); lia|]. split; [lia|reflexivity].
    + exists (false, Z.even row). split.
      { destruct (Z.even row); apply list_elem_of_In; cbn; tauto. }
      apply elem_of_pass_pairs. exists col, row, (row `div` 2).
      pose proof (Zmod_even row) as He. pose proof (Z.div_mod row 2 ltac:(lia)).
      split; [lia|]. split; [apply Z.div_pos; lia|].
      split; [destruct (Z.even row); lia|]. split; [lia|reflexivity].
Qed.

Lemma neighbours_oriented n a b : neighbours n (a, b) -> ~ neighbours n (b, a).
Proof.
  intros [(r1 & c1 & ? & ? & [= -> ->])|(r1 & c1 & ? & ? & [= -> ->])]
         [(r2 & c2 & ? & ? & [= Ea Eb])|(r2 & c2 & ? & ? & [= Ea Eb])];
    apply GetQubitIndex_inj in Ea; try lia;
    apply GetQubitIndex_inj in Eb; lia.
Qed.

Lemma flat_map_flat_map {A B C} (f : A -> list B) (g : B -> list C) (l : list A) :
  flat_map g (flat_map f l) = flat_map (fun x => flat_map g (f x)) l.
Proof.
  induction l as [|x l IH]; cbn [flat_map]; [reflexivity|].
  rewrite flat_map_app, IH. reflexivity.
Qed.

Lemma flat_map_fmap {A B C} (f : A -> B) (g : B -> list C) (l : list A) :
  flat_map g (f <$> l) = flat_map (fun x => g (f x)) l.
Proof. induction l as [|x l IH]; cbn; [reflexivity|]. rewrite IH. reflexivity. Qed.

Lemma ZZ_pass_pairs n qs theta dir grp :
  ZZ_pass n qs theta dir grp = flat_map (ZZ_gates qs theta) (pass_pairs n dir grp).
Proof.
  unfold ZZ_pass, pass_pairs. rewrite flat_map_flat_map.
  apply flat_map_ext. intros i. rewrite flat_map_fmap. reflexivity.
Qed.

Lemma ZZ_layer_pairs n qs theta :
  ZZ_layer n qs theta = flat_map (ZZ_gates qs theta) (layer_pairs n).
Proof.
  unfold ZZ_layer, layer_pairs. rewrite flat_map_flat_map.
  apply flat_map_ext. intros [dir grp]. apply ZZ_pass_pairs.
Qed.

Lemma lookup_total_seq (n i : nat) : (i < n)%nat -> seq 0 n !!! i = i.
Proof. intros Hi. apply list_lookup_total_correct. apply lookup_seq_lt. exact Hi. Qed.

Lemma elem_of_pass_pairs_range n dir grp e :
  1 <= n -> e ∈ pass_pairs n dir grp ->
  0 <= e.1 < n * n /\ 0 <= e.2 < n * n /\ e.1 <> e.2.
Proof.
  intros Hn He. apply elem_of_pass_pairs in He as (i & j & k & ? & ? & ? & ? & ->).
  assert (0 <= j) by (destruct grp; lia).
  split; [|split].
  - unfold pair_indices. destruct dir; cbn [fst]; apply GetQubitIndex_range; lia.
  - unfold pair_indices. destruct dir; cbn [snd]; apply GetQubitIndex_range; lia.
  - apply pair_indices_distinct; lia.
Qed.

Lemma elem_of_layer_pairs_range n e :
  1 <= n -> e ∈ layer_pairs n ->
  0 <= e.1 < n * n /\ 0 <= e.2 < n * n /\ e.1 <> e.2.
Proof.
  intros Hn He. unfold layer_pairs in He.
  apply elem_of_flat_map in He as ([dir grp] & _ & He).
  eapply elem_of_pass_pairs_range; eassumption.
Qed.

Lemma ApplyDoubleZ_issues_pairs n qs theta dir grp :
  1 <= n -> Length qs = n * n ->
  issues (ApplyDoubleZ n qs theta dir grp)
         (flat_map (ZZ_gates qs theta) (pass_pairs n dir grp)).
Proof. intros Hn Hqs. rewrite <- ZZ_pass_pairs. apply ApplyDoubleZ_issues; assumption. Qed.

End Pairs.

(** X5. One call of [ApplyDoubleZ] on a register of [n * n] different qubits
    issues, pair by pair, the three gates of [ZZ_gates] on the pairs of
    [pass_pairs], and no qubit belongs to two of the pairs, nor twice to
    one: the terms of one call act on disjoint pairs of qubits. *)
Theorem ApplyDoubleZ_terms_disjoint (n : Z) (qs : list Qubit) (theta : Double)
    (dir grp : bool) :
  1 <= n -> Length qs = n * n -> NoDup qs ->
  issues (ApplyDoubleZ n qs theta dir grp)
         (flat_map (ZZ_gates qs theta) (pass_pairs n dir grp)) /\
  NoDup (flat_map (fun e : Z * Z => [qs !!! Z.to_nat e.1; qs !!! Z.to_nat e.2])
           (pass_pairs n dir grp)).
Proof.
  intros Hn Hqs Hnd. split; [apply ApplyDoubleZ_issues_pairs; assumption|].
  rewrite (flat_map_ext _ (fun e : Z * Z => (fun k => qs !!! Z.to_nat k) <$> [e.1; e.2]))
    by reflexivity.
  rewrite <- (flat_map_fmap (fun e : Z * Z => [e.1; e.2])
                (fun l => (fun k => qs !!! Z.to_nat k) <$> l)).
  assert (Hflat : forall (ls : list (list Z)),
            flat_map (fun l => (fun k => qs !!! Z.to_nat k) <$> l) ls
            = (fun k => qs !!! Z.to_nat k) <$> concat ls).
  { induction ls as [|l ls IH]; cbn [flat_map concat]; [reflexivity|].
    rewrite fmap_app, IH. reflexivity. }
  rewrite Hflat.
  assert (Hconcat : concat ((fun e : Z * Z => [e.1; e.2]) <$> pass_pairs n dir grp)
                    = flat_map (fun e : Z * Z => [e.1; e.2]) (pass_pairs n dir grp)).
  { induction (pass_pairs n dir grp) as [|e l IH]; cbn; [reflexivity|]. rewrite IH. reflexivity. }
  rewrite Hconcat.
  apply NoDup_fmap_2_strong; [|apply NoDup_pass_indices].
  intros a b Ha Hb Hab.
  assert (Hin : forall k, k ∈ flat_map (fun e : Z * Z => [e.1; e.2]) (pass_pairs n dir grp) ->
                  0 <= k < n * n).
  { intros k Hk. apply elem_of_flat_map in Hk as (e & He & Hk).
    destruct (elem_of_pass_pairs_range n dir grp e Hn He) as (H1 & H2 & _).
    apply list_elem_of_In in Hk. cbn [In] in Hk. destruct Hk as [<-|[<-|[]]]; assumption. }
  pose proof (Hin a Ha) as Har. pose proof (Hin b Hb) as Hbr.
  unfold Length in Hqs.
  destruct (lookup_lt_is_Some_2 qs (Z.to_nat a) ltac:(lia)) as [qa Hqa].
  destruct (lookup_lt_is_Some_2 qs (Z.to_nat b) ltac:(lia)) as [qb Hqb].
  rewrite (list_lookup_total_correct _ _ _ Hqa), (list_lookup_total_correct _ _ _ Hqb) in Hab.
  subst qb. pose proof (NoDup_lookup _ _ _ _ Hnd Hqa Hqb). lia.
Qed.

Lemma ApplyDoubleZ_terms_disjoint_witness :
  1 <= 3 /\ Length (seq 0 9) = 3 * 3 /\ NoDup (seq 0 9) /\
  issues (ApplyDoubleZ 3 (seq 0 9) (lit 1) false true)
         (flat_map (ZZ_gates (seq 0 9) (lit 1)) (pass_pairs 3 false true)) /\
  NoDup (flat_map (fun e : Z * Z => [seq 0 9 !!! Z.to_nat e.1; seq 0 9 !!! Z.to_nat e.2])
           (pass_pairs 3 false true)).
Proof.
  assert (Hnd : NoDup (seq 0 9)) by (apply (bool_decide_unpack _); vm_compute; exact I).
  split; [lia|]. split; [reflexivity|]. split; [exact Hnd|].
  apply (ApplyDoubleZ_terms_disjoint 3 (seq 0 9) (lit 1) false true);
    [lia|reflexivity|exact Hnd].
Defined.

(** X6. The four calls of [ApplyDoubleZ] of one interaction term act on
    every pair of neighbouring sites of the lattice exactly once: their
    pairs are the pairs of [neighbours], none occurs twice, and none occurs
    in both orders. *)
Theorem ZZ_layer_every_edge_once (n : Z) (qs : list Qubit) (theta : Double) :
  1 <= n -> Length qs = n * n ->
  issues (ForEach [(true, true); (true, false); (false, true); (false, false)]
            (fun '(dir, grp) => ApplyDoubleZ n qs theta dir grp))
         (flat_map (ZZ_gates qs theta) (layer_pairs n)) /\
  NoDup (layer_pairs n) /\
  (forall e, e ∈ layer_pairs n <-> neighbours n e) /\
  (forall a b, (a, b) ∈ layer_pairs n -> (b, a) ∉ layer_pairs n).
Proof.
  intros Hn Hqs. split; [|split; [|split]].
  - unfold layer_pairs. rewrite flat_map_flat_map.
    apply issues_ForEach. intros [dir grp] _. apply ApplyDoubleZ_issues_pairs; assumption.
  - apply NoDup_layer_pairs.
  - intros e. apply elem_of_layer_pairs. exact Hn.
  - intros a b Hab Hba. apply elem_of_layer_pairs in Hab, Hba; try assumption.
    exact (neighbours_oriented n a b Hab Hba).
Qed.

Lemma ZZ_layer_every_edge_once_witness :
  1 <= 3 /\ Length (seq 0 9) = 3 * 3 /\
  issues (ForEach [(true, true); (true, false); (false, true); (false, false)]
            (fun '(dir, grp) => ApplyDoubleZ 3 (seq 0 9) (lit 1) dir grp))
         (flat_map (ZZ_gates (seq 0 9) (lit 1)) (layer_pairs 3)) /\
  NoDup (layer_pairs 3) /\
  (forall e, e ∈ layer_pairs 3 <-> neighbours 3 e) /\
  (forall a b, (a, b) ∈ layer_pairs 3 -> (b, a) ∉ layer_pairs 3).
Proof.
  split; [lia|]. split; [reflexivity|].
  apply (ZZ_layer_every_edge_once 3 (seq 0 9) (lit 1)); [lia|reflexivity].
Defined.

(** ** The gates of a run, counted *)

Section Counting.
Variable f : Gate -> bool.

Lemma count_gates_app gs1 gs2 :
  count_gates f (gs1 ++ gs2) = count_gates f gs1 + count_gates f gs2.
Proof. unfold count_gates. rewrite List.filter_app, length_app. lia. Qed.

Lemma count_gates_flat_map {A} (h : A -> list Gate) (l : list A) c :
  (forall x, x ∈ l -> count_gates f (h x) = c) ->
  count_gates f (flat_map h l) = c * Length l.
Proof.
  unfold Length. induction l as [|x l IH]; intros H; cbn [flat_map length].
  - unfold count_gates. cbn. lia.
  - rewrite count_gates_app, (H x) by left.
    rewrite IH by (intros y Hy; apply H; right; exact Hy). lia.
Qed.

Lemma count_gates_replicate k g :
  count_gates f (replicate k g) = if f g then Z.of_nat k else 0.
Proof.
  unfold count_gates. induction k as [|k IH]; cbn [replicate List.filter].
  - destruct (f g); reflexivity.
  - destruct (f g); cbn [length]; lia.
Qed.

(** Over the indices [0 .. 2k], with one count at the even and one at
    the odd indices. *)
Lemma count_gates_alternating (h : Z -> list Gate) a b (k : nat) :
  (forall i, 0 <= i -> i `rem` 2 = 0 -> count_gates f (h i) = a) ->
  (forall i, 0 <= i -> i `rem` 2 <> 0 -> count_gates f (h i) = b) ->
  count_gates f (flat_map h (seqZ 0 (2 * Z.of_nat k + 1)))
  = (Z.of_nat k + 1) * a + Z.of_nat k * b.
Proof.
  intros Ha Hb. induction k as [|k IH].
  - change (flat_map h (seqZ 0 (2 * Z.of_nat 0 + 1))) with (h 0 ++ []).
    rewrite app_nil_r. rewrite Ha; [lia|lia|reflexivity].
  - replace (2 * Z.of_nat (S k) + 1) with (Z.of_nat (S (S (Z.to_nat (2 * Z.of_nat k + 1))))) by lia.
    rewrite !seqZ_S, !flat_map_app, !count_gates_app.
    replace (Z.of_nat (Z.to_nat (2 * Z.of_nat k + 1))) with (2 * Z.of_nat k + 1) by lia.
    rewrite IH. cbn [flat_map]. rewrite !app_nil_r.
    rewrite Hb, Ha; [lia| | | |].
    + lia.
    + replace (0 + Z.of_nat (S (Z.to_nat (2 * Z.of_nat k + 1)))) with ((Z.of_nat k + 1) * 2) by lia.
      apply Z.rem_mul. lia.
    + lia.
    + replace (0 + (2 * Z.of_nat k + 1)) with (1 + Z.of_nat k * 2) by lia.
      rewrite Z.rem_add by lia. change (1 `rem` 2) with 1. lia.
Qed.

End Counting.

Section Counts.

Lemma Length_flat_map_const {A B} (h : A -> list B) (l : list A) c :
  (forall x, x ∈ l -> Length (h x) = c) -> Length (flat_map h l) = c * Length l.
Proof.
  unfold Length. induction l as [|x l IH]; intros H; cbn [flat_map length]; [lia|].
  rewrite length_app, Nat2Z.inj_add, (H x) by left.
  rewrite IH by (intros y Hy; apply H; right; exact Hy). lia.
Qed.

Lemma Length_Range start step stop :
  0 < step -> Length (Range start step stop) = Z.max 0 ((stop - start) `div` step + 1).
Proof.
  intros Hs. unfold Range, Length. destruct (Z.ltb_spec 0 step); [|lia].
  rewrite length_fmap, length_seqZ. lia.
Qed.

Lemma Length_pass_pairs n dir grp :
  1 <= n ->
  Length (pass_pairs n dir grp) = n * ((n - 2 - (if grp then 0 else 1)) `div` 2 + 1).
Proof.
  intros Hn. unfold pass_pairs.
  rewrite (Length_flat_map_const _ _ ((n - 2 - (if grp then 0 else 1)) `div` 2 + 1)).
  - rewrite Length_Range by lia. rewrite Z.div_1_r. lia.
  - intros i _. unfold Length. rewrite length_fmap.
    fold (Length (Range (if grp then 0 else 1) 2 (n - 2))).
    rewrite Length_Range by lia.
    assert (-1 <= (n - 2 - (if grp then 0 else 1)) `div` 2); [|lia].
    apply Z.div_le_lower_bound; destruct grp; lia.
Qed.

Lemma Length_layer_pairs n : 1 <= n -> Length (layer_pairs n) = 2 * n * (n - 1).
Proof.
  intros Hn. unfold layer_pairs, Length. cbn [flat_map].
  rewrite !length_app, !Nat2Z.inj_add. cbn [length].
  fold (Length (pass_pairs n true true)) (Length (pass_pairs n true false))
       (Length (pass_pairs n false true)) (Length (pass_pairs n false false)).
  rewrite !Length_pass_pairs by assumption.
  assert (Hab : (n - 2 - 0) `div` 2 + (n - 2 - 1) `div` 2 = n - 3).
  { pose proof (Z.div_mod (n - 2 - 0) 2 ltac:(lia)).
    pose proof (Z.mod_pos_bound (n - 2 - 0) 2 ltac:(lia)).
    pose proof (Z.div_mod (n - 2 - 1) 2 ltac:(lia)).
    pose proof (Z.mod_pos_bound (n - 2 - 1) 2 ltac:(lia)).
    lia. }
  generalize dependent ((n - 2 - 0) `div` 2). generalize ((n - 2 - 1) `div` 2).
  intros b a Hab. replace a with (n - 3 - b) by lia. ring.
Qed.

Lemma count_gates_X_layer qs theta :
  count_gates is_Rx (X_layer qs theta) = Length qs /\
  count_gates is_Rz (X_layer qs theta) = 0 /\
  count_gates is_CNOT (X_layer qs theta) = 0 /\
  count_gates is_M (X_layer qs theta) = 0.
Proof.
  unfold X_layer. rewrite <- flat_map_singleton.
  rewrite (count_gates_flat_map is_Rx _ _ 1) by reflexivity.
  rewrite (count_gates_flat_map is_Rz _ _ 0) by reflexivity.
  rewrite (count_gates_flat_map is_CNOT _ _ 0) by reflexivity.
  rewrite (count_gates_flat_map is_M _ _ 0) by reflexivity.
  lia.
Qed.

Lemma count_gates_ZZ qs theta (l : list (Z * Z)) :
  count_gates is_Rx (flat_map (ZZ_gates qs theta) l) = 0 /\
  count_gates is_Rz (flat_map (ZZ_gates qs theta) l) = Length l /\
  count_gates is_CNOT (flat_map (ZZ_gates qs theta) l) = 2 * Length l /\
  count_gates is_M (flat_map (ZZ_gates qs theta) l) = 0.
Proof.
  rewrite (count_gates_flat_map is_Rx _ _ 0) by reflexivity.
  rewrite (count_gates_flat_map is_Rz _ _ 1) by reflexivity.
  rewrite (count_gates_flat_map is_CNOT _ _ 2) by reflexivity.
  rewrite (count_gates_flat_map is_M _ _ 0) by reflexivity.
  lia.
Qed.

Lemma count_gates_exponentials f N qs len p dt J g (t : Z) a b :
  0 <= t ->
  (forall theta, count_gates f (X_layer qs theta) = a) ->
  (forall theta, count_gates f (ZZ_layer N qs theta) = b) ->
  count_gates f (flat_map (exponential N qs len p dt J g) (seqZ 0 (10 * t + 1)))
  = (5 * t + 1) * a + 5 * t * b.
Proof.
  intros Ht Ha Hb.
  replace (10 * t + 1) with (2 * Z.of_nat (Z.to_nat (5 * t)) + 1) by lia.
  rewrite (count_gates_alternating f _ a b).
  - rewrite Z2Nat.id by lia. reflexivity.
  - intros i Hi Hr. unfold exponential. rewrite Hr. apply Ha.
  - intros i Hi Hr. unfold exponential.
    destruct (Z.eqb_spec (i `rem` 2) 0); [contradiction|]. apply Hb.
Qed.

(** The gates of a run on a lattice, counted by kind. *)
Lemma count_gates_run N qs len p dt J g t noops :
  1 <= N -> Length qs = N * N -> 0 <= t ->
  let gs := flat_map (exponential N qs len p dt J g) (seqZ 0 (10 * t + 1))
            ++ replicate (Z.to_nat noops) (M 0%nat) in
  count_gates is_Rx gs = (5 * t + 1) * (N * N) /\
  count_gates is_Rz gs = 5 * t * (2 * N * (N - 1)) /\
  count_gates is_CNOT gs = 2 * (5 * t * (2 * N * (N - 1))) /\
  count_gates is_M gs = Z.max 0 noops /\
  Length gs = (5 * t + 1) * (N * N) + 3 * (5 * t * (2 * N * (N - 1))) + Z.max 0 noops.
Proof.
  intros HN Hqs Ht gs. subst gs.
  assert (HX : forall theta,
            count_gates is_Rx (X_layer qs theta) = N * N /\
            count_gates is_Rz (X_layer qs theta) = 0 /\
            count_gates is_CNOT (X_layer qs theta) = 0 /\
            count_gates is_M (X_layer qs theta) = 0).
  { intros theta. rewrite <- Hqs. apply count_gates_X_layer. }
  assert (HZ : forall theta,
            count_gates is_Rx (ZZ_layer N qs theta) = 0 /\
            count_gates is_Rz (ZZ_layer N qs theta) = 2 * N * (N - 1) /\
            count_gates is_CNOT (ZZ_layer N qs theta) = 2 * (2 * N * (N - 1)) /\
            count_gates is_M (ZZ_layer N qs theta) = 0).
  { intros theta. rewrite ZZ_layer_pairs, <- (Length_layer_pairs N HN).
    apply count_gates_ZZ. }
  assert (Hall : forall gs, Length gs = count_gates is_Rx gs + count_gates is_Rz gs
                                        + count_gates is_CNOT gs + count_gates is_M gs).
  { unfold Length, count_gates.
    induction gs as [|[] gs IH];
      cbn [List.filter length is_Rx is_Rz is_CNOT is_M]; lia. }
  rewrite Hall, !count_gates_app, !count_gates_replicate. cbn [is_Rx is_Rz is_CNOT is_M].
  rewrite (count_gates_exponentials is_Rx _ _ _ _ _ _ _ _ (N * N) 0 Ht);
    [|intros; apply HX|intros; apply HZ].
  rewrite (count_gates_exponentials is_Rz _ _ _ _ _ _ _ _ 0 (2 * N * (N - 1)) Ht);
    [|intros; apply HX|intros; apply HZ].
  rewrite (count_gates_exponentials is_CNOT _ _ _ _ _ _ _ _ 0 (2 * (2 * N * (N - 1))) Ht);
    [|intros; apply HX|intros; apply HZ].
  rewrite (count_gates_exponentials is_M _ _ _ _ _ _ _ _ 0 0 Ht);
    [|intros; apply HX|intros; apply HZ].
  repeat split; lia.
Qed.

End Counts.

(** X7. The gates of a run of [IsingModel2DSim] on a lattice of size
    [N >= 1] for [t >= 0] steps, with [N * N] and [10 * t + 1] in the range
    of [Int]: [(5 t + 1) * N^2] rotations [Rx], [5 t * 2 N (N - 1)]
    rotations [Rz], twice as many [CNOT], [max(0, noops)] measurements, and
    no other gate. *)
Theorem IsingModel2DSim_gate_counts (PowD : Double -> Double -> Double)
    (Ceiling : Double -> Z) (N : Z) (J g totTime dt eps : Double) (noops : Z)
    (w : Outcomes) :
  let t := Ceiling (totTime / dt)%D in
  1 <= N -> 0 <= t -> in_Int (N * N) -> in_Int (10 * t + 1) ->
  exists m,
    run (Int64.IsingModel2DSim PowD Ceiling N J g totTime dt eps noops) w = Ok (tt, m) /\
    count_gates is_Rx (gates m) = (5 * t + 1) * (N * N) /\
    count_gates is_Rz (gates m) = 5 * t * (2 * N * (N - 1)) /\
    count_gates is_CNOT (gates m) = 2 * (5 * t * (2 * N * (N - 1))) /\
    count_gates is_M (gates m) = Z.max 0 noops /\
    Length (gates m)
    = (5 * t + 1) * (N * N) + 3 * (5 * t * (2 * N * (N - 1))) + Z.max 0 noops.
Proof.
  intros t HN Ht HNN Hlen. eexists.
  split; [rewrite IsingModel2DSim_no_wrap by assumption;
          apply IsingModel2DSim_run; assumption|].
  cbn [gates]. apply count_gates_run; [assumption|apply Length_seq; nia|assumption].
Qed.

Lemma IsingModel2DSim_gate_counts_witness :
  1 <= 10 /\
  0 <= ceiling (lit 20 / (lit 1 / lit 4))%D /\
  in_Int (10 * 10) /\
  in_Int (10 * ceiling (lit 20 / (lit 1 / lit 4))%D + 1) /\
  (let t := ceiling (lit 20 / (lit 1 / lit 4))%D in
   exists m,
     run (Int64.IsingModel2DSim PowD_cube_root_4 ceiling 10 (lit 1) (lit 1) (lit 20)
            (lit 1 / lit 4)%D (lit 1 / lit 1000)%D 3) (fun _ => false) = Ok (tt, m) /\
     count_gates is_Rx (gates m) = (5 * t + 1) * (10 * 10) /\
     count_gates is_Rz (gates m) = 5 * t * (2 * 10 * (10 - 1)) /\
     count_gates is_CNOT (gates m) = 2 * (5 * t * (2 * 10 * (10 - 1))) /\
     count_gates is_M (gates m) = Z.max 0 3 /\
     Length (gates m)
     = (5 * t + 1) * (10 * 10) + 3 * (5 * t * (2 * 10 * (10 - 1))) + Z.max 0 3).
Proof.
  assert (H1 : 0 <= ceiling (lit 20 / (lit 1 / lit 4))%D)
    by (vm_compute; intros H; discriminate H).
  assert (H2 : in_Int (10 * 10)).
  { unfold in_Int. split; [vm_compute; intros H; discriminate H|vm_compute; reflexivity]. }
  assert (H3 : in_Int (10 * ceiling (lit 20 / (lit 1 / lit 4))%D + 1)).
  { unfold in_Int. split; [vm_compute; intros H; discriminate H|vm_compute; reflexivity]. }
  split; [lia|]. split; [exact H1|]. split; [exact H2|]. split; [exact H3|].
  apply (IsingModel2DSim_gate_counts PowD_cube_root_4 ceiling 10 (lit 1) (lit 1) (lit 20)
           (lit 1 / lit 4)%D (lit 1 / lit 1000)%D 3 (fun _ => false));
    [lia|exact H1|exact H2|exact H3].
Defined.

(** X8. Every gate of a run of [IsingModel2DSim] for [N >= 1] and [t >= 0],
    with [N * N] and [10 * t + 1] in the range of [Int], acts on qubits of
    the register that the run allocated, and no [CNOT] has its control as
    its target. *)
Theorem IsingModel2DSim_gates_in_register (PowD : Double -> Double -> Double)
    (Ceiling : Double -> Z) (N : Z) (J g totTime dt eps : Double) (noops : Z)
    (w : Outcomes) :
  1 <= N -> 0 <= Ceiling (totTime / dt)%D ->
  in_Int (N * N) -> in_Int (10 * Ceiling (totTime / dt)%D + 1) ->
  exists m,
    run (Int64.IsingModel2DSim PowD Ceiling N J g totTime dt eps noops) w = Ok (tt, m) /\
    allocated m = Z.to_nat (N * N) /\
    forall gate, gate ∈ gates m ->
      (forall q, q ∈ qubits_of gate -> (q < allocated m)%nat) /\
      (forall c t, gate = CNOT c t -> c <> t).
Proof.
  intros HN Ht HNN Hlen. eexists.
  split; [rewrite IsingModel2DSim_no_wrap by assumption;
          apply IsingModel2DSim_run; assumption|].
  cbn [gates allocated]. split; [reflexivity|].
  set (qs := seq 0 (Z.to_nat (N * N))).
  intros gate Hg. apply elem_of_app in Hg as [Hg|Hg].
  - apply elem_of_flat_map in Hg as (i & _ & Hg). unfold exponential in Hg.
    destruct (i `rem` 2 =? 0).
    + unfold X_layer in Hg. apply list_elem_of_fmap in Hg as (q & -> & Hq).
      split; [|discriminate]. intros q' Hq'. cbn [qubits_of] in Hq'.
      apply list_elem_of_singleton in Hq' as ->.
      apply elem_of_seq in Hq. lia.
    + rewrite ZZ_layer_pairs in Hg. apply elem_of_flat_map in Hg as (e & He & Hg).
      destruct (elem_of_layer_pairs_range N e HN He) as (H1 & H2 & Hne).
      unfold ZZ_gates in Hg. subst qs.
      rewrite !lookup_total_seq in Hg by lia.
      apply list_elem_of_In in Hg. cbn [In] in Hg.
      destruct Hg as [<-|[<-|[<-|[]]]]; (split; [|intros c t' [= <- <-]; lia]);
        intros q Hq; apply list_elem_of_In in Hq; cbn [qubits_of In] in Hq; lia.
  - apply elem_of_replicate in Hg as [-> _].
    split; [|discriminate]. intros q Hq. cbn [qubits_of] in Hq.
    apply list_elem_of_singleton in Hq as ->. nia.
Qed.

Lemma IsingModel2DSim_gates_in_register_witness :
  1 <= 10 /\
  0 <= ceiling (lit 20 / (lit 1 / lit 4))%D /\
  in_Int (10 * 10) /\
  in_Int (10 * ceiling (lit 20 / (lit 1 / lit 4))%D + 1) /\
  exists m,
    run (Int64.IsingModel2DSim PowD_cube_root_4 ceiling 10 (lit 1) (lit 1) (lit 20)
           (lit 1 / lit 4)%D (lit 1 / lit 1000)%D 3) (fun _ => false) = Ok (tt, m) /\
    allocated m = Z.to_nat (10 * 10) /\
    forall gate, gate ∈ gates m ->
      (forall q, q ∈ qubits_of gate -> (q < allocated m)%nat) /\
      (forall c t, gate = CNOT c t -> c <> t).
Proof.
  assert (H1 : 0 <= ceiling (lit 20 / (lit 1 / lit 4))%D)
    by (vm_compute; intros H; discriminate H).
  assert (H2 : in_Int (10 * 10)).
  { unfold in_Int. split; [vm_compute; intros H; discriminate H|vm_compute; reflexivity]. }
  assert (H3 : in_Int (10 * ceiling (lit 20 / (lit 1 / lit 4))%D + 1)).
  { unfold in_Int. split; [vm_compute; intros H; discriminate H|vm_compute; reflexivity]. }
  split; [lia|]. split; [exact H1|]. split; [exact H2|]. split; [exact H3|].
  apply (IsingModel2DSim_gates_in_register PowD_cube_root_4 ceiling 10 (lit 1) (lit 1)
           (lit 20) (lit 1 / lit 4)%D (lit 1 / lit 1000)%D 3 (fun _ => false));
    [lia|exact H1|exact H2|exact H3].
Defined.

(** ** Failures, and lattices without sites *)

Section Edge.
Variable PowD : Double -> Double -> Double.
Variable Ceiling : Double -> Z.

Lemma ApplyDoubleZ_no_rows n qs theta dir grp :
  n <= 0 -> issues (ApplyDoubleZ n qs theta dir grp) [].
Proof.
  intros Hn. unfold ApplyDoubleZ. rewrite Range_unit.
  replace (seqZ 0 (n - 1 - 0 + 1)) with (@nil Z); [apply issues_ret|].
  unfold seqZ. replace (Z.to_nat (n - 1 - 0 + 1)) with 0%nat by lia. reflexivity.
Qed.

Lemma main_loop_field_only N qs len p dt J g :
  N <= 0 -> 1 <= len ->
  issues
    (ForEach (Range 0 1 (len - 1)) (fun i =>
       if i `rem` 2 =? 0 then
         bind (lift (Item (seqA_entry len p dt J g <$> seqZ 0 len) i))
              (fun theta => ApplyAllX qs theta)
       else
         ForEach [(true, true); (true, false); (false, true); (false, false)]
           (fun '(dir, grp) =>
              bind (lift (Item (seqB_entry len p dt J g <$> seqZ 0 len) i))
                   (fun theta => ApplyDoubleZ N qs theta dir grp))))
    (flat_map (field_only qs len p dt J g) (Range 0 1 (len - 1))).
Proof.
  intros HN Hlen. apply issues_ForEach. intros i Hi.
  apply elem_of_Range in Hi; [|lia]. unfold field_only.
  destruct (i `rem` 2 =? 0).
  - eapply issues_lift_bind; [apply Item_fmap_seqZ; lia|]. apply ApplyAllX_issues.
  - change (@nil Gate) with (flat_map (fun _ : bool * bool => @nil Gate)
                               [(true, true); (true, false); (false, true); (false, false)]).
    apply issues_ForEach. intros [dir grp] _.
    eapply issues_lift_bind; [apply Item_fmap_seqZ; lia|].
    apply ApplyDoubleZ_no_rows. exact HN.
Qed.

(** The run up to the loop of the measurements. *)
Lemma IsingModel2DSim_field_only N J g totTime dt eps noops w :
  let t := Ceiling (totTime / dt)%D in
  let p := (lit 1 / (lit 4 - PowD (lit 4) (lit 1 / lit 3)))%D in
  let qs := seq 0 (Z.to_nat (N * N)) in
  N <= 0 -> 0 <= t ->
  run (IsingModel2DSim PowD Ceiling N J g totTime dt eps noops) w
  = ForEach (Range 1 1 noops)
      (fun _ => bind (lift (Item qs 0)) (fun q => bind (Measure q) (fun r => Ignore r)))
      w {| gates := flat_map (field_only qs (10 * t + 1) p dt J g) (seqZ 0 (10 * t + 1));
           allocated := Z.to_nat (N * N);
           measured := 0 |}.
Proof.
  intros t p qs HN Ht.
  replace (seqZ 0 (10 * t + 1)) with (Range 0 1 (10 * t + 1 - 1))
    by (rewrite Range_unit; f_equal; lia).
  unfold run, IsingModel2DSim.
  unfold bind at 1. unfold UseQubits at 1.
  destruct (Z.ltb_spec (N * N) 0) as [Hneg|_]; [nia|].
  cbn [allocated gates measured initial Nat.add]. fold qs. cbv zeta. fold t. fold p.
  unfold bind at 1. unfold lift at 1.
  rewrite SetSequences_closed by lia.
  unfold bind at 1.
  rewrite (main_loop_field_only N qs (10 * t + 1) p dt J g HN ltac:(lia)).
  reflexivity.
Qed.

(** A negative number of steps, on any lattice. *)
Lemma IsingModel2DSim_no_sequences N J g totTime dt eps noops w :
  Ceiling (totTime / dt)%D < 0 ->
  run (IsingModel2DSim PowD Ceiling N J g totTime dt eps noops) w = Fail NegativeSize.
Proof.
  intros Ht. unfold run, IsingModel2DSim.
  unfold bind at 1. unfold UseQubits at 1.
  destruct (Z.ltb_spec (N * N) 0) as [Hneg|_]; [nia|]. cbv zeta.
  unfold bind at 1. unfold lift at 1. unfold SetSequences, ConstantArray.
  destruct (Z.ltb_spec (10 * Ceiling (totTime / dt)%D + 1) 0); [reflexivity|lia].
Qed.

(** A lattice of size [0]. *)
Lemma IsingModel2DSim_no_sites J g totTime dt eps noops w :
  0 <= Ceiling (totTime / dt)%D ->
  run (IsingModel2DSim PowD Ceiling 0 J g totTime dt eps noops) w
  = if 1 <=? noops then Fail IndexOutOfRange else Ok (tt, initial).
Proof.
  intros Ht. rewrite IsingModel2DSim_field_only by (assumption || lia).
  change (seq 0 (Z.to_nat (0 * 0))) with (@nil Qubit).
  assert (Hnone : forall l, flat_map (field_only [] (10 * Ceiling (totTime / dt)%D + 1)
                    (lit 1 / (lit 4 - PowD (lit 4) (lit 1 / lit 3)))%D dt J g) l = []).
  { induction l as [|i l IH]; [reflexivity|]. cbn [flat_map]. rewrite IH.
    unfold field_only. destruct (i `rem` 2 =? 0); reflexivity. }
  rewrite Hnone. rewrite Range_unit.
  destruct (Z.leb_spec 1 noops) as [Hn|Hn].
  - replace (noops - 1 + 1) with (Z.succ (noops - 1)) by lia.
    rewrite seqZ_cons by lia. reflexivity.
  - unfold seqZ. replace (Z.to_nat (noops - 1 + 1)) with 0%nat by lia. reflexivity.
Qed.

(** A negative size: the run ends, with the gates of the transverse
    field and the measurements. *)
Lemma IsingModel2DSim_no_interaction N J g totTime dt eps noops w :
  let t := Ceiling (totTime / dt)%D in
  let p := (lit 1 / (lit 4 - PowD (lit 4) (lit 1 / lit 3)))%D in
  let qs := seq 0 (Z.to_nat (N * N)) in
  N < 0 -> 0 <= t ->
  run (IsingModel2DSim PowD Ceiling N J g totTime dt eps noops) w
  = Ok (tt, {| gates := flat_map (field_only qs (10 * t + 1) p dt J g) (seqZ 0 (10 * t + 1))
                        ++ replicate (Z.to_nat noops) (M 0%nat);
               allocated := Z.to_nat (N * N);
               measured := Z.to_nat noops |}).
Proof.
  intros t p qs HN Ht. rewrite IsingModel2DSim_field_only by (assumption || lia).
  fold t p qs.
  assert (Hqs : Length qs = N * N) by (apply Length_seq; nia).
  assert (Hq0 : Item qs 0 = Ok 0%nat).
  { rewrite Item_total by nia. f_equal. subst qs. apply lookup_total_seq. nia. }
  rewrite (noops_loop _ qs 0%nat w _ Hq0). cbn [gates allocated measured].
  pose proof (length_seqZ 1 (noops - 1 + 1)) as Hnoops. rewrite <- Range_unit in Hnoops.
  rewrite Hnoops. replace (Z.to_nat (noops - 1 + 1)) with (Z.to_nat noops) by lia.
  reflexivity.
Qed.

End Edge.

Section Edge64.
Variable PowD : Double -> Double -> Double.
Variable Ceiling : Double -> Z.

(** The run of the 64-bit program on a lattice without sites, up to the
    loop of the measurements. *)
Lemma IsingModel2DSim_Int64_field_only N J g totTime dt eps noops w :
  let t := Ceiling (totTime / dt)%D in
  let p := (lit 1 / (lit 4 - PowD (lit 4) (lit 1 / lit 3)))%D in
  let seqLen := Int64.add (Int64.mul 10 t) 1 in
  let qs := seq 0 (Z.to_nat (N * N)) in
  N <= 0 -> in_Int (N * N) -> 1 <= seqLen ->
  run (Int64.IsingModel2DSim PowD Ceiling N J g totTime dt eps noops) w
  = ForEach (Range 1 1 noops)
      (fun _ => bind (lift (Item qs 0)) (fun q => bind (Measure q) (fun r => Ignore r)))
      w {| gates := flat_map (field_only qs seqLen p dt J g) (seqZ 0 seqLen);
           allocated := Z.to_nat (N * N);
           measured := 0 |}.
Proof.
  intros t p seqLen qs HN HNN Hlen.
  assert (Hin : in_Int seqLen) by apply wrap_range.
  replace (seqZ 0 seqLen) with (Range 0 1 (seqLen - 1))
    by (rewrite Range_unit; f_equal; lia).
  unfold run, Int64.IsingModel2DSim. fold t. fold seqLen.
  unfold Int64.mul at 1. rewrite (wrap_in_Int (N * N)) by assumption.
  unfold Int64.sub. rewrite (wrap_in_Int (seqLen - 1)) by (unfold in_Int in *; lia).
  unfold bind at 1. unfold UseQubits at 1.
  destruct (Z.ltb_spec (N * N) 0) as [Hneg|_]; [nia|].
  cbn [allocated gates measured initial Nat.add]. fold qs. cbv zeta. fold p.
  unfold bind at 1. unfold lift at 1.
  rewrite SetSequences_no_wrap by assumption.
  rewrite SetSequences_closed by lia.
  unfold bind at 1.
  rewrite (ForEach_ext (Range 0 1 (seqLen - 1)) _
             (fun i =>
                if i `rem` 2 =? 0 then
                  bind (lift (Item (seqA_entry seqLen p dt J g <$> seqZ 0 seqLen) i))
                       (fun theta => ApplyAllX qs theta)
                else
                  ForEach [(true, true); (true, false); (false, true); (false, false)]
                    (fun '(dir, grp) =>
                       bind (lift (Item (seqB_entry seqLen p dt J g <$> seqZ 0 seqLen) i))
                            (fun theta => ApplyDoubleZ N qs theta dir grp)))).
  2:{ intros i _ w' m'. destruct (i `rem` 2 =? 0); [reflexivity|].
      apply ForEach_ext. intros [dir grp] _.
      apply bind_ext; [reflexivity|intros theta]. apply ApplyDoubleZ_no_wrap. exact HNN. }
  rewrite (main_loop_field_only N qs seqLen p dt J g HN Hlen).
  reflexivity.
Qed.

End Edge64.

(** X9. The failures of [IsingModel2DSim] on every input whose [N * N] is in
    the range of [Int], by the sequence length [seqLen] that the program
    computes, which is [10 * t + 1] when that is in the range of [Int]: a
    run fails when [seqLen] is negative, on the size of the sequences, and
    when the lattice has size [0] and [noops >= 1], on the index of [qs[0]];
    every other run ends without a failure. *)
Theorem IsingModel2DSim_failures (PowD : Double -> Double -> Double)
    (Ceiling : Double -> Z) (N : Z) (J g totTime dt eps : Double) (noops : Z)
    (w : Outcomes) (e : Failure) :
  let t := Ceiling (totTime / dt)%D in
  let seqLen := Int64.add (Int64.mul 10 t) 1 in
  in_Int (N * N) ->
  (in_Int (10 * t + 1) -> seqLen = 10 * t + 1) /\
  (run (Int64.IsingModel2DSim PowD Ceiling N J g totTime dt eps noops) w = Fail e <->
   (seqLen < 0 /\ e = NegativeSize) \/
   (0 < seqLen /\ N = 0 /\ 1 <= noops /\ e = IndexOutOfRange)).
Proof.
  intros t seqLen HNN. split.
  { intros Ht. subst seqLen. unfold Int64.add, Int64.mul.
    rewrite (wrap_in_Int (10 * t)) by (unfold in_Int in *; lia).
    apply wrap_in_Int. exact Ht. }
  pose proof (seqLen_nonzero t) as Hodd. fold seqLen in Hodd.
  destruct (Z_lt_le_dec seqLen 0) as [Hneg|Hpos].
  - rewrite IsingModel2DSim_Int64_negative by assumption. split.
    + intros [= <-]. left. split; [assumption|reflexivity].
    + intros [[_ ->]|(? & _)]; [reflexivity|lia].
  - assert (Hlen : 1 <= seqLen) by lia.
    destruct (Z.lt_trichotomy N 0) as [HN|[HN|HN]].
    + rewrite IsingModel2DSim_Int64_field_only by (assumption || lia).
      fold t seqLen.
      set (qs := seq 0 (Z.to_nat (N * N))).
      assert (Hq0 : Item qs 0 = Ok 0%nat).
      { rewrite Item_total by (unfold qs; rewrite Length_seq by nia; nia). f_equal.
        subst qs. apply lookup_total_seq. nia. }
      rewrite (noops_loop _ qs 0%nat w _ Hq0). split; [discriminate|].
      intros [[? _]|(_ & ? & _)]; lia.
    + subst N. rewrite IsingModel2DSim_Int64_field_only by (assumption || lia).
      fold t seqLen. change (seq 0 (Z.to_nat (0 * 0))) with (@nil Qubit).
      rewrite Range_unit.
      destruct (Z.leb_spec 1 noops) as [Hn|Hn].
      * replace (noops - 1 + 1) with (Z.succ (noops - 1)) by lia.
        rewrite seqZ_cons by lia. cbn [ForEach]. unfold bind at 1. unfold bind at 1.
        cbn. split.
        -- intros [= <-]. right. repeat split; (assumption || lia).
        -- intros [[? _]|(_ & _ & _ & ->)]; [lia|reflexivity].
      * unfold seqZ. replace (Z.to_nat (noops - 1 + 1)) with 0%nat by lia.
        cbn [seq fmap list_fmap ForEach]. split; [discriminate|].
        intros [[? _]|(_ & _ & ? & _)]; lia.
    + rewrite IsingModel2DSim_Int64_run by (assumption || lia). split; [discriminate|].
      intros [[? _]|(_ & ? & _)]; lia.
Qed.

Lemma IsingModel2DSim_failures_witness :
  in_Int (0 * 0) /\
  (let t := ceiling (lit 20 / (lit 1 / lit 4))%D in
   let seqLen := Int64.add (Int64.mul 10 t) 1 in
   (in_Int (10 * t + 1) -> seqLen = 10 * t + 1) /\
   (run (Int64.IsingModel2DSim PowD_cube_root_4 ceiling 0 (lit 1) (lit 1) (lit 20)
           (lit 1 / lit 4)%D (lit 1 / lit 1000)%D 1) (fun _ => false)
    = Fail IndexOutOfRange <->
    (seqLen < 0 /\ IndexOutOfRange = NegativeSize) \/
    (0 < seqLen /\ 0 = 0 /\ 1 <= 1 /\ IndexOutOfRange = IndexOutOfRange))).
Proof.
  assert (H2 : in_Int (0 * 0)).
  { unfold in_Int. split; [vm_compute; intros H; discriminate H|vm_compute; reflexivity]. }
  split; [exact H2|].
  apply (IsingModel2DSim_failures PowD_cube_root_4 ceiling 0 (lit 1) (lit 1) (lit 20)
           (lit 1 / lit 4)%D (lit 1 / lit 1000)%D 1 (fun _ => false) IndexOutOfRange).
  exact H2.
Defined.

(** X10. A negative [N] is not refused: with [N * N] and [10 * t + 1] in the
    range of [Int], the run allocates [N * N] qubits and applies the X
    rotations of every even index to them, but no [Rz] and no [CNOT], since
    the loops of [ApplyDoubleZ] over [0 .. N - 1] are empty. *)
Theorem IsingModel2DSim_negative_size (PowD : Double -> Double -> Double)
    (Ceiling : Double -> Z) (N : Z) (J g totTime dt eps : Double) (noops : Z)
    (w : Outcomes) :
  let t := Ceiling (totTime / dt)%D in
  N < 0 -> 0 <= t -> in_Int (N * N) -> in_Int (10 * t + 1) ->
  exists m,
    run (Int64.IsingModel2DSim PowD Ceiling N J g totTime dt eps noops) w = Ok (tt, m) /\
    allocated m = Z.to_nat (N * N) /\
    count_gates is_Rx (gates m) = (5 * t + 1) * (N * N) /\
    count_gates is_Rz (gates m) = 0 /\
    count_gates is_CNOT (gates m) = 0.
Proof.
  intros t HN Ht HNN Hlen. eexists.
  split; [rewrite IsingModel2DSim_no_wrap by assumption;
          apply IsingModel2DSim_no_interaction; assumption|].
  cbn [gates allocated]. split; [reflexivity|]. fold t.
  set (p := (lit 1 / (lit 4 - PowD (lit 4) (lit 1 / lit 3)))%D).
  set (qs := seq 0 (Z.to_nat (N * N))).
  assert (Hqs : Length qs = N * N) by (apply Length_seq; nia).
  rewrite !count_gates_app, !count_gates_replicate. cbn [is_Rx is_Rz is_CNOT].
  replace (10 * t + 1) with (2 * Z.of_nat (Z.to_nat (5 * t)) + 1) at 2 4 6 by lia.
  rewrite (count_gates_alternating is_Rx _ (N * N) 0),
          (count_gates_alternating is_Rz _ 0 0),
          (count_gates_alternating is_CNOT _ 0 0).
  - rewrite Z2Nat.id by lia. repeat split; lia.
  - intros i Hi Hr. unfold field_only. rewrite Hr. apply count_gates_X_layer.
  - intros i Hi Hr. unfold field_only.
    destruct (Z.eqb_spec (i `rem` 2) 0); [contradiction|reflexivity].
  - intros i Hi Hr. unfold field_only. rewrite Hr. apply count_gates_X_layer.
  - intros i Hi Hr. unfold field_only.
    destruct (Z.eqb_spec (i `rem` 2) 0); [contradiction|reflexivity].
  - intros i Hi Hr. unfold field_only. rewrite Hr, <- Hqs. apply count_gates_X_layer.
  - intros i Hi Hr. unfold field_only.
    destruct (Z.eqb_spec (i `rem` 2) 0); [contradiction|reflexivity].
Qed.

Lemma IsingModel2DSim_negative_size_witness :
  -2 < 0 /\
  0 <= ceiling (lit 20 / (lit 1 / lit 4))%D /\
  in_Int (-2 * -2) /\
  in_Int (10 * ceiling (lit 20 / (lit 1 / lit 4))%D + 1) /\
  (let t := ceiling (lit 20 / (lit 1 / lit 4))%D in
   exists m,
     run (Int64.IsingModel2DSim PowD_cube_root_4 ceiling (-2) (lit 1) (lit 1) (lit 20)
            (lit 1 / lit 4)%D (lit 1 / lit 1000)%D 0) (fun _ => false) = Ok (tt, m) /\
     allocated m = Z.to_nat (-2 * -2) /\
     count_gates is_Rx (gates m) = (5 * t + 1) * (-2 * -2) /\
     count_gates is_Rz (gates m) = 0 /\
     count_gates is_CNOT (gates m) = 0).
Proof.
  assert (H1 : 0 <= ceiling (lit 20 / (lit 1 / lit 4))%D)
    by (vm_compute; intros H; discriminate H).
  assert (H2 : in_Int (-2 * -2)).
  { unfold in_Int. split; [vm_compute; intros H; discriminate H|vm_compute; reflexivity]. }
  assert (H3 : in_Int (10 * ceiling (lit 20 / (lit 1 / lit 4))%D + 1)).
  { unfold in_Int. split; [vm_compute; intros H; discriminate H|vm_compute; reflexivity]. }
  split; [lia|]. split; [exact H1|]. split; [exact H2|]. split; [exact H3|].
  apply (IsingModel2DSim_negative_size PowD_cube_root_4 ceiling (-2) (lit 1) (lit 1) (lit 20)
           (lit 1 / lit 4)%D (lit 1 / lit 1000)%D 0 (fun _ => false));
    [lia|exact H1|exact H2|exact H3].
Defined.

(** X24. A number of steps of [- 2 ^ 63], the least [Int], is not refused
    either: the sequence length [10 * t + 1] wraps around to [1], and on a
    lattice of size [N >= 1] the run applies one layer of X rotations, with
    the angle of the first entry of [seqA], and the measurements. *)
Theorem IsingModel2DSim_steps_wrap (PowD : Double -> Double -> Double)
    (Ceiling : Double -> Z) (N : Z) (J g totTime dt eps : Double) (noops : Z)
    (w : Outcomes) :
  let p := (lit 1 / (lit 4 - PowD (lit 4) (lit 1 / lit 3)))%D in
  let qs := seq 0 (Z.to_nat (N * N)) in
  1 <= N -> in_Int (N * N) -> Ceiling (totTime / dt)%D = - 2 ^ 63 ->
  Int64.add (Int64.mul 10 (Ceiling (totTime / dt)%D)) 1 = 1 /\
  run (Int64.IsingModel2DSim PowD Ceiling N J g totTime dt eps noops) w
  = Ok (tt, {| gates := X_layer qs (- J * p * dt / lit 2)%D
                        ++ replicate (Z.to_nat noops) (M 0%nat);
               allocated := Z.to_nat (N * N);
               measured := Z.to_nat noops |}).
Proof.
  intros p qs HN HNN Ht.
  assert (Hlen : Int64.add (Int64.mul 10 (Ceiling (totTime / dt)%D)) 1 = 1)
    by (rewrite Ht; vm_compute; reflexivity).
  split; [exact Hlen|]. unfold run.
  rewrite (IsingModel2DSim_seqLen PowD Ceiling (fun _ => 0) N J g totTime dt eps noops
             HNN Hlen w initial).
  change (IsingModel2DSim PowD (fun _ => 0) N J g totTime dt eps noops w initial)
    with (run (IsingModel2DSim PowD (fun _ => 0) N J g totTime dt eps noops) w).
  rewrite IsingModel2DSim_run by (assumption || lia).
  fold p qs. change (seqZ 0 (10 * 0 + 1)) with [0]. cbn [flat_map].
  rewrite app_nil_r. reflexivity.
Qed.

Lemma IsingModel2DSim_steps_wrap_witness :
  let Ceiling := fun _ : Double => - 2 ^ 63 in
  let p := (lit 1 / (lit 4 - PowD_cube_root_4 (lit 4) (lit 1 / lit 3)))%D in
  let qs := seq 0 (Z.to_nat (3 * 3)) in
  1 <= 3 /\ in_Int (3 * 3) /\ Ceiling (lit 1 / lit 0)%D = - 2 ^ 63 /\
  Int64.add (Int64.mul 10 (Ceiling (lit 1 / lit 0)%D)) 1 = 1 /\
  run (Int64.IsingModel2DSim PowD_cube_root_4 Ceiling 3 (lit 1) (lit 1) (lit 1) (lit 0)
         (lit 1 / lit 1000)%D 2) (fun _ => false)
  = Ok (tt, {| gates := X_layer qs (- lit 1 * p * lit 0 / lit 2)%D
                        ++ replicate (Z.to_nat 2) (M 0%nat);
               allocated := Z.to_nat (3 * 3);
               measured := Z.to_nat 2 |}).
Proof.
  intros Ceiling p qs.
  assert (Hn : in_Int (3 * 3)).
  { unfold in_Int. split; [vm_compute; intros H; discriminate H|vm_compute; reflexivity]. }
  split; [lia|]. split; [exact Hn|]. split; [reflexivity|].
  apply (IsingModel2DSim_steps_wrap PowD_cube_root_4 Ceiling 3 (lit 1) (lit 1) (lit 1) (lit 0)
           (lit 1 / lit 1000)%D 2 (fun _ => false)); [lia|exact Hn|reflexivity].
Defined.

(** ** The entry point *)

(** X11. [Ising10(noops)], for a [Ceiling] that takes [80.0] to [80]:
    [20.0 / 0.25] is [80.0], so that the run takes [80] steps on [100]
    qubits, with [40100] rotations [Rx], [72000] rotations [Rz], [144000]
    [CNOT] and [max(0, noops)] measurements. *)
Theorem Ising10_resources (PowD : Double -> Double -> Double) (Ceiling : Double -> Z)
    (noops : Z) (w : Outcomes) :
  Ceiling (lit 80) = 80 ->
  exists m,
    run (Ising10 PowD Ceiling noops) w = Ok (tt, m) /\
    allocated m = 100%nat /\
    count_gates is_Rx (gates m) = 40100 /\
    count_gates is_Rz (gates m) = 72000 /\
    count_gates is_CNOT (gates m) = 144000 /\
    count_gates is_M (gates m) = Z.max 0 noops.
Proof.
  intros HC.
  assert (Ht : Ceiling (lit 20 / literal_0_25)%D = 80).
  { replace (lit 20 / literal_0_25)%D with (lit 80) by (vm_compute; reflexivity). exact HC. }
  unfold Ising10. eexists. split.
  { apply IsingModel2DSim_run; [lia|rewrite Ht; lia]. }
  cbn [gates allocated]. rewrite Ht. split; [reflexivity|].
  pose proof (count_gates_run 10 (seq 0 (Z.to_nat (10 * 10))) (10 * 80 + 1)
                (lit 1 / (lit 4 - PowD (lit 4) (lit 1 / lit 3)))%D literal_0_25
                (lit 1) (lit 1) 80 noops ltac:(lia) ltac:(reflexivity) ltac:(lia)) as Hc.
  cbv zeta in Hc. destruct Hc as (H1 & H2 & H3 & H4 & _).
  rewrite H1, H2, H3, H4. repeat split; reflexivity.
Qed.

Lemma Ising10_resources_witness :
  ceiling (lit 80) = 80 /\
  exists m,
    run (Ising10 PowD_cube_root_4 ceiling 0) (fun _ => false) = Ok (tt, m) /\
    allocated m = 100%nat /\
    count_gates is_Rx (gates m) = 40100 /\
    count_gates is_Rz (gates m) = 72000 /\
    count_gates is_CNOT (gates m) = 144000 /\
    count_gates is_M (gates m) = Z.max 0 0.
Proof.
  split; [vm_compute; reflexivity|].
  apply (Ising10_resources PowD_cube_root_4 ceiling 0 (fun _ => false)).
  vm_compute. reflexivity.
Defined.

(** X26. The same holds of [Ising10] with the 64-bit arithmetic of [Int]:
    [10 * 10] is [100] and the sequence length [10 * 80 + 1] is [801],
    neither wraps, and the run allocates [100] qubits and emits [40100]
    rotations [Rx], [72000] rotations [Rz], [144000] [CNOT] and
    [max(0, noops)] measurements. *)
Theorem Ising10_Int64_resources (PowD : Double -> Double -> Double)
    (Ceiling : Double -> Z) (noops : Z) (w : Outcomes) :
  Ceiling (lit 80) = 80 ->
  Int64.mul 10 10 = 100 /\
  Int64.add (Int64.mul 10 (Ceiling (lit 20 / literal_0_25)%D)) 1 = 801 /\
  exists m,
    run (Int64.Ising10 PowD Ceiling noops) w = Ok (tt, m) /\
    allocated m = 100%nat /\
    count_gates is_Rx (gates m) = 40100 /\
    count_gates is_Rz (gates m) = 72000 /\
    count_gates is_CNOT (gates m) = 144000 /\
    count_gates is_M (gates m) = Z.max 0 noops.
Proof.
  intros HC.
  assert (Ht : Ceiling (lit 20 / literal_0_25)%D = 80).
  { replace (lit 20 / literal_0_25)%D with (lit 80) by (vm_compute; reflexivity). exact HC. }
  split; [reflexivity|]. split; [rewrite Ht; reflexivity|].
  rewrite Ising10_no_wrap by exact HC.
  unfold Ising10. eexists. split.
  { apply IsingModel2DSim_run; [lia|rewrite Ht; lia]. }
  cbn [gates allocated]. rewrite Ht. split; [reflexivity|].
  pose proof (count_gates_run 10 (seq 0 (Z.to_nat (10 * 10))) (10 * 80 + 1)
                (lit 1 / (lit 4 - PowD (lit 4) (lit 1 / lit 3)))%D literal_0_25
                (lit 1) (lit 1) 80 noops ltac:(lia) ltac:(reflexivity) ltac:(lia)) as Hc.
  cbv zeta in Hc. destruct Hc as (H1 & H2 & H3 & H4 & _).
  rewrite H1, H2, H3, H4. repeat split; reflexivity.
Qed.

Lemma Ising10_Int64_resources_witness :
  ceiling (lit 80) = 80 /\
  Int64.mul 10 10 = 100 /\
  Int64.add (Int64.mul 10 (ceiling (lit 20 / literal_0_25)%D)) 1 = 801 /\
  exists m,
    run (Int64.Ising10 PowD_cube_root_4 ceiling 3) (fun _ => false) = Ok (tt, m) /\
    allocated m = 100%nat /\
    count_gates is_Rx (gates m) = 40100 /\
    count_gates is_Rz (gates m) = 72000 /\
    count_gates is_CNOT (gates m) = 144000 /\
    count_gates is_M (gates m) = Z.max 0 3.
Proof.
  split; [vm_compute; reflexivity|].
  apply (Ising10_Int64_resources PowD_cube_root_4 ceiling 3 (fun _ => false)).
  vm_compute. reflexivity.
Defined.

(** X25. With the 64-bit arithmetic of [Int] too, a run of
    [IsingModel2DSim] does not depend on the outcomes of its measurements:
    two runs on the same arguments end alike, in the same gates or in the
    same failure. *)
Theorem IsingModel2DSim_Int64_deterministic (PowD : Double -> Double -> Double)
    (Ceiling : Double -> Z) (N : Z) (J g totTime dt eps : Double) (noops : Z)
    (w1 w2 : Outcomes) :
  run (Int64.IsingModel2DSim PowD Ceiling N J g totTime dt eps noops) w1
  = run (Int64.IsingModel2DSim PowD Ceiling N J g totTime dt eps noops) w2.
Proof. apply oblivious_IsingModel2DSim_Int64. Qed.

(* ===================================================================== *)
(** * Facts about the dashboard *)
(* ===================================================================== *)

Import Py.

Section Numbers.

Lemma float_of_int_below z :
  Z.abs z < 2 ^ 1023 -> float_of_int z = Val (of_Z z) /\ below 1024 (of_Z z).
Proof.
  intros Hz. pose proof (of_Z_below z Hz) as Hb. unfold float_of_int.
  rewrite (finite_not_inf _ (below_finite _ _ Hb)). split; [reflexivity|assumption].
Qed.

Lemma count_scalable v : count v -> scalable v.
Proof.
  destruct v as [z|x|s|d]; cbn [count scalable]; intros H; try contradiction; [lia|].
  destruct H as (Hv & Hf & _). apply valid_below; assumption.
Qed.

Lemma to_double_count v : count v -> format_spec format_e 1 v = Val (format_e 1 (to_double v)).
Proof.
  destruct v as [z|x|s|d]; cbn [count]; intros H; try contradiction;
    cbn [format_spec to_double].
  - destruct (float_of_int_below z ltac:(lia)) as [-> _]. reflexivity.
  - reflexivity.
Qed.

(** [a / b] on counts, the divisor not zero. *)
Lemma truediv_count a b :
  count a -> count b -> nonzero b -> truediv a b = Val (Float (quotient a b)).
Proof.
  destruct a as [x|x|s|d], b as [y|y|s'|d']; cbn [count nonzero];
    intros Ha Hb Hnz; try contradiction; cbn [truediv quotient to_double].
  - destruct (Z.eqb_spec y 0) as [|_]; [contradiction|].
    destruct (exact_Z_finite y Hnz) as (sy & my & -> & Hmy).
    pose proof (div_below 1023 (exact_Z x) sy my 0 1
                  (exact_Z_below x 1023 ltac:(lia) ltac:(lia))) as Hq.
    pose proof (Zdigits2_pos (Z.pos my) ltac:(lia)) as Hd.
    change (Zdigits2 (Z.pos my)) with (Z.pos (digits2_pos my)) in Hd.
    specialize (Hq ltac:(lia) ltac:(lia)).
    rewrite (finite_not_inf _ (below_finite _ _ Hq)). reflexivity.
  - destruct (float_of_int_below x ltac:(lia)) as [-> _]. cbn [rbind].
    unfold float_div. rewrite Hnz. reflexivity.
  - destruct (float_of_int_below y ltac:(lia)) as [-> _]. cbn [rbind].
    unfold float_div. rewrite (of_Z_nonzero y Hnz). reflexivity.
  - unfold float_div. rewrite Hnz. reflexivity.
Qed.

(** [x / 1e6] on a count. *)
Lemma truediv_million v :
  count v ->
  truediv v (Float (of_Z 1000000)) = Val (Float (to_double v / of_Z 1000000)%D).
Proof.
  destruct v as [z|x|s|d]; cbn [count]; intros H; try contradiction;
    cbn [truediv to_double].
  - destruct (float_of_int_below z ltac:(lia)) as [-> _]. reflexivity.
  - reflexivity.
Qed.

Lemma truediv_factor v u :
  scalable v -> factor u ->
  exists q, truediv v (Int u) = Val (Float q) /\ below 1024 q.
Proof.
  intros Hv Hu. destruct v as [z|x|s|d]; cbn [scalable] in Hv; try contradiction;
    cbn [truediv].
  - assert (Hu0 : u <> 0) by (unfold factor in Hu; lia).
    destruct (Z.eqb_spec u 0) as [|_]; [contradiction|].
    assert (Hq : below 1024 (exact_Z z / exact_Z u)%D).
    { pose proof (exact_Z_below z 1023 ltac:(lia) Hv) as Hz.
      destruct Hu as [Hu|[Hu|[Hu|Hu]]]; subst u; cbn [exact_Z];
        (eapply below_mono; [|apply (div_below 1023 _ _ _ _ 5 Hz); [vm_compute; discriminate|lia]]);
        lia. }
    rewrite (finite_not_inf _ (below_finite _ _ Hq)). eauto.
  - assert (Hq : float_of_int u = Val (of_Z u) /\ is_zero (of_Z u) = false /\
                 below 1024 (x / of_Z u)%D).
    { destruct Hu as [Hu|[Hu|[Hu|Hu]]]; subst u;
        (split; [reflexivity|]; split; [reflexivity|]);
        (eapply below_mono; [|apply (div_below 1024 _ _ _ _ 5 Hv); [vm_compute; discriminate|lia]]);
        lia. }
    destruct Hq as (-> & Hnz & Hq). cbn [rbind]. unfold float_div. rewrite Hnz. eauto.
Qed.

Lemma round_scalable v : scalable v -> exists n, round v = Val n.
Proof.
  destruct v as [z|x|s|d]; cbn [scalable round]; intros H; try contradiction; [eauto|].
  pose proof (below_finite _ _ H) as Hf.
  rewrite (finite_not_nan _ Hf), (finite_not_inf _ Hf). eauto.
Qed.

End Numbers.

Section Runtime.

(** The indices of the loop: each has a unit with one of the factors,
    and a unit before it. *)
Lemma unit_at_loop idx :
  (1 <= idx <= 7)%nat ->
  exists name u prev pu,
    unit_at idx = Val (name, u) /\ factor u /\
    unit_at (idx - 1) = Val (prev, pu) /\ prev ∈ units.*1.
Proof.
  intros Hidx. unfold factor.
  assert (Hc : (idx = 1 \/ idx = 2 \/ idx = 3 \/ idx = 4 \/ idx = 5 \/ idx = 6 \/ idx = 7)%nat)
    by lia.
  destruct Hc as [H|[H|[H|[H|[H|[H|H]]]]]]; subst idx;
    do 4 eexists; (split; [reflexivity|]); (split; [lia|]);
    (split; [reflexivity|]); apply list_elem_of_In; cbn; tauto.
Qed.

(** The loop returns a text, or a finite float when no unit was small
    enough. *)
Lemma runtime_loop_total idxs v :
  scalable v -> Forall (fun idx => 1 <= idx <= 7)%nat idxs -> idxs <> [] ->
  exists r, runtime_loop idxs v = Val r /\
            (runtime_text r \/ exists q, r = Float q /\ below 1024 q).
Proof.
  revert v. induction idxs as [|idx rest IH]; intros v Hv Hall Hne; [congruence|].
  apply Forall_cons in Hall as [Hidx Hrest].
  destruct (unit_at_loop idx Hidx) as (name & u & prev & pu & Hu & Hf & Hp & Hin).
  destruct (truediv_factor v u Hv Hf) as (q & Hq & Hbelow).
  cbn [runtime_loop]. rewrite Hu. cbn [rbind snd]. rewrite Hq. cbn [rbind lt].
  destruct (ltb q (of_Z 1)).
  - destruct (round_scalable v Hv) as [n ->]. cbn [rbind].
    unfold int_mod. replace (u =? 0) with false by (unfold factor in Hf; lia).
    cbn [rbind]. rewrite Hp. cbn [rbind fst].
    eexists. split; [reflexivity|]. left. exists (n `mod` u), prev. split; [assumption|reflexivity].
  - destruct rest as [|idx' rest'].
    + cbn [runtime_loop]. eexists. split; [reflexivity|]. right. eauto.
    + apply IH; [exact Hbelow|assumption|discriminate].
Qed.

(** [format_runtime] returns a text on every count. *)
Lemma format_runtime_total rt :
  scalable rt -> exists r, format_runtime rt = Val r /\ runtime_text r.
Proof.
  intros Hrt. unfold format_runtime.
  destruct (runtime_loop_total (seq 1 (length units - 1)) rt Hrt) as (r & -> & Hr).
  { cbn. repeat constructor; lia. }
  { discriminate. }
  cbn [rbind]. destruct Hr as [Ht|(q & -> & Hq)].
  - destruct Ht as (n & name & Hin & ->). eexists. split; [reflexivity|].
    exists n, name. split; [assumption|reflexivity].
  - destruct (round_scalable (Float q) Hq) as [n ->]. cbn [rbind].
    eexists. split; [reflexivity|]. exists n, "years"%string.
    split; [apply list_elem_of_In; cbn; tauto|reflexivity].
Qed.

(** The columns of a record whose numbers are counts. *)
Lemma columns_total lq ld nt cd ntf pqtf pq rt :
  count ld -> count nt -> count pqtf -> count pq -> nonzero pq -> count rt ->
  exists runtime_formatted,
    runtime_text runtime_formatted /\
    columns lq ld nt cd ntf pqtf pq rt
    = Val (lq,
           Str (format_e 1 (to_double ld)),
           Str (format_e 1 (to_double nt)),
           cd, ntf,
           Str (format_f 1 (quotient pqtf pq * of_Z 100)%D +:+ "%"),
           Str (format_f 2 (to_double pq / of_Z 1000000)%D +:+ "M"),
           runtime_formatted).
Proof.
  intros Hld Hnt Hpqtf Hpq Hnz Hrt.
  destruct (format_runtime_total rt (count_scalable rt Hrt)) as (r & Hr & Htext).
  exists r. split; [assumption|]. unfold columns.
  rewrite truediv_count by assumption. cbn [rbind mul].
  replace (float_of_int 100) with (Val (of_Z 100)) by reflexivity. cbn [rbind].
  rewrite !to_double_count by assumption. cbn [rbind format_spec].
  rewrite truediv_million by assumption. cbn [rbind format_spec].
  rewrite Hr. reflexivity.
Qed.

End Runtime.

Section Store.

Lemma subscript3_present st result top k1 k2 k3 d1 d2 x :
  st !! result = Some (Dict top) ->
  top !! k1 = Some (Dict d1) -> d1 !! k2 = Some (Dict d2) -> d2 !! k3 = Some x ->
  subscript3 result k1 k2 k3 st = (Val x, st).
Proof.
  intros Hst H1 H2 H3. unfold subscript3, bind, deref, lift. rewrite Hst.
  cbn [subscript rbind]. rewrite H1. cbn [subscript rbind]. rewrite H2.
  cbn [subscript rbind]. rewrite H3. reflexivity.
Qed.

Lemma subscript2_present st result top k1 k2 d1 x :
  st !! result = Some (Dict top) ->
  top !! k1 = Some (Dict d1) -> d1 !! k2 = Some x ->
  subscript2 result k1 k2 st = (Val x, st).
Proof.
  intros Hst H1 H2. unfold subscript2, bind, deref, lift. rewrite Hst.
  cbn [subscript rbind]. rewrite H1. cbn [subscript rbind]. rewrite H2. reflexivity.
Qed.

Lemma bind_Val {A B} (c : Py A) (k : A -> Py B) st a st' :
  c st = (Val a, st') -> bind c k st = k a st'.
Proof. intros H. unfold bind. rewrite H. reflexivity. Qed.

(** On a record that has the eight fields, [get_row] computes the columns
    of their values and leaves the store alone. *)
Lemma get_row_fields st result v lq ld nt cd ntf pqtf pq rt :
  st !! result = Some v -> estimates v lq ld nt cd ntf pqtf pq rt ->
  get_row result st = (columns lq ld nt cd ntf pqtf pq rt, st).
Proof.
  intros Hst (top & counts & breakdown & logical & -> & Hc & Hl & Hb
              & Hlq & Hld & Hnt & Hcd & Hntf & Hpqtf & Hpq & Hrt).
  unfold get_row.
  rewrite (bind_Val _ _ _ _ _ (subscript3_present _ _ _ _ _ _ _ _ _ Hst Hc Hb Hlq)).
  rewrite (bind_Val _ _ _ _ _ (subscript3_present _ _ _ _ _ _ _ _ _ Hst Hc Hb Hld)).
  rewrite (bind_Val _ _ _ _ _ (subscript3_present _ _ _ _ _ _ _ _ _ Hst Hc Hb Hnt)).
  rewrite (bind_Val _ _ _ _ _ (subscript2_present _ _ _ _ _ _ _ Hst Hl Hcd)).
  rewrite (bind_Val _ _ _ _ _ (subscript3_present _ _ _ _ _ _ _ _ _ Hst Hc Hb Hntf)).
  rewrite (bind_Val _ _ _ _ _ (subscript3_present _ _ _ _ _ _ _ _ _ Hst Hc Hb Hpqtf)).
  rewrite (bind_Val _ _ _ _ _ (subscript2_present _ _ _ _ _ _ _ Hst Hc Hpq)).
  unfold columns, bind, lift, ret.
  destruct (rbind (truediv pqtf pq) _) as [fraction|e]; [|reflexivity]. cbn [rbind].
  rewrite (subscript2_present _ _ _ _ _ _ _ Hst Hc Hpq).
  rewrite (subscript2_present _ _ _ _ _ _ _ Hst Hc Hrt).
  destruct (format_spec format_e 1 ld); [|reflexivity]. cbn [rbind].
  destruct (format_spec format_e 1 nt); [|reflexivity]. cbn [rbind].
  destruct (rbind (format_spec format_f 1 fraction) _); [|reflexivity]. cbn [rbind].
  destruct (rbind (truediv pq _) _); [|reflexivity]. cbn [rbind].
  destruct (format_runtime rt); reflexivity.
Qed.

Lemma read_only_ret {A} (a : A) : read_only (ret a).
Proof. intros st. reflexivity. Qed.

Lemma read_only_lift {A} (r : Res A) : read_only (lift r).
Proof. intros st. reflexivity. Qed.

Lemma read_only_bind {A B} (c : Py A) (k : A -> Py B) :
  read_only c -> (forall a, read_only (k a)) -> read_only (bind c k).
Proof.
  intros Hc Hk st. unfold bind. specialize (Hc st).
  destruct (c st) as [[a|e] st']; cbn [snd] in *; subst st'; [apply Hk|reflexivity].
Qed.

Lemma read_only_deref result : read_only (deref result).
Proof. intros st. reflexivity. Qed.

Lemma read_only_subscript2 result k1 k2 : read_only (subscript2 result k1 k2).
Proof.
  apply read_only_bind; [apply read_only_deref|intros v; apply read_only_lift].
Qed.

Lemma read_only_subscript3 result k1 k2 k3 : read_only (subscript3 result k1 k2 k3).
Proof.
  apply read_only_bind; [apply read_only_deref|intros v; apply read_only_lift].
Qed.

Lemma read_only_get_row result : read_only (get_row result).
Proof.
  unfold get_row.
  repeat first
    [ apply read_only_subscript3
    | apply read_only_subscript2
    | apply read_only_lift
    | apply read_only_ret
    | apply read_only_bind; [|intros ?] ].
Qed.

Lemma read_only_comprehension {A B} (f : A -> Py B) (xs : list A) :
  (forall x, read_only (f x)) -> read_only (comprehension f xs).
Proof.
  intros Hf. induction xs as [|x xs IH]; cbn [comprehension].
  - apply read_only_ret.
  - apply read_only_bind; [apply Hf|intros y].
    apply read_only_bind; [exact IH|intros ys]. apply read_only_ret.
Qed.

Lemma read_only_dashboard summary_html details_html labels :
  read_only (dashboard summary_html details_html labels).
Proof.
  unfold dashboard.
  apply read_only_bind; [intros st; reflexivity|intros n].
  apply read_only_bind.
  { apply read_only_comprehension. intros index.
    apply read_only_bind; [intros st; reflexivity|intros result].
    apply read_only_get_row. }
  intros data. apply read_only_bind; [apply read_only_lift|intros summary].
  apply read_only_bind; [intros st; reflexivity|intros details].
  apply read_only_ret.
Qed.

End Store.

Section Inversion.

Lemma float_of_int_inv z x : float_of_int z = Val x -> x = of_Z z.
Proof. unfold float_of_int. destruct (is_inf (of_Z z)); congruence. Qed.

Lemma truediv_inv a b q : truediv a b = Val q -> q = Float (quotient a b).
Proof.
  destruct a as [x|x|s|d], b as [y|y|s'|d']; cbn [truediv quotient to_double];
    try discriminate.
  - destruct (y =? 0); [discriminate|].
    destruct (is_inf (exact_Z x / exact_Z y)%D); congruence.
  - destruct (float_of_int x) as [fx|] eqn:Hx; [|discriminate]. cbn [rbind].
    apply float_of_int_inv in Hx as ->. unfold float_div.
    destruct (is_zero y); congruence.
  - destruct (float_of_int y) as [fy|] eqn:Hy; [|discriminate]. cbn [rbind].
    apply float_of_int_inv in Hy as ->. unfold float_div.
    destruct (is_zero (of_Z y)); congruence.
  - unfold float_div. destruct (is_zero y); congruence.
Qed.





Lemma record_estimates lq ld nt cd ntf pqtf pq rt :
  estimates (record lq ld nt cd ntf pqtf pq rt) lq ld nt cd ntf pqtf pq rt.
Proof. unfold estimates, record. do 4 eexists. repeat split; reflexivity. Qed.

End Inversion.

(** ** Runs on concrete records *)

Example format_e_1507100 : format_e 1 (of_Z 1507100) = "1.5e+06"%string.
Proof. vm_compute. reflexivity. Qed.

Example format_f_fraction :
  format_f 1 (quotient (Int 3462600) (Int 3600000) * of_Z 100)%D = "96.2"%string.
Proof. vm_compute. reflexivity. Qed.

Example format_runtime_5_secs : format_runtime (Int 5000000000) = Val (Str "5 secs").
Proof. vm_compute. reflexivity. Qed.

Example format_runtime_3_years :
  format_runtime (Int 94608000000000000) = Val (Str "3 years").
Proof. vm_compute. reflexivity. Qed.

Example format_runtime_float : format_runtime (Float (of_Z 1500000000)) = Val (Str "2 secs").
Proof. vm_compute. reflexivity. Qed.

Example get_row_sample :
  let v := record (Int 230) (Int 1507100) (Int 1623000) (Int 11) (Int 199)
                  (Int 3462600) (Int 3600000) (Int 5000000000) in
  get_row 0%nat [v]
  = (Val (Int 230, Str "1.5e+06", Str "1.6e+06", Int 11, Int 199, Str "96.2%",
          Str "3.60M", Str "5 secs"), [v]).
Proof. vm_compute. reflexivity. Qed.

(** ** The claims about the dashboard *)

(** C3, as stated, fails.  Two records in which the eight fields are
    present as nonnegative numbers: on a record without physical qubits
    [get_row] raises [ZeroDivisionError], and on a record whose logical
    depth is the integer [10 ^ 400] it raises [OverflowError]. *)
Lemma get_row_raises :
  let no_qubits :=
    record (Int 230) (Int 1507100) (Int 1623000) (Int 11) (Int 0) (Int 0) (Int 0)
           (Int 5000000000) in
  let deep :=
    record (Int 230) (Int (10 ^ 400)) (Int 1623000) (Int 11) (Int 199) (Int 3462600)
           (Int 3600000) (Int 5000000000) in
  (estimates no_qubits (Int 230) (Int 1507100) (Int 1623000) (Int 11) (Int 0) (Int 0)
     (Int 0) (Int 5000000000) /\
   Forall nonnegative [Int 230; Int 1507100; Int 1623000; Int 11; Int 0; Int 0; Int 0;
                       Int 5000000000] /\
   get_row 0%nat [no_qubits] = (Raise ZeroDivisionError, [no_qubits])) /\
  (estimates deep (Int 230) (Int (10 ^ 400)) (Int 1623000) (Int 11) (Int 199)
     (Int 3462600) (Int 3600000) (Int 5000000000) /\
   Forall nonnegative [Int 230; Int (10 ^ 400); Int 1623000; Int 11; Int 199;
                       Int 3462600; Int 3600000; Int 5000000000] /\
   get_row 0%nat [deep] = (Raise OverflowError, [deep])).
Proof.
  cbv zeta. split; (split; [apply record_estimates|]); split;
    try (repeat constructor; cbn [nonnegative];
         first [lia | vm_compute; intros H; discriminate H]);
    vm_compute; reflexivity.
Qed.

(** C3, amended.  For every result record in which the eight fields are
    present, the five that are computed with (logical depth, T states,
    physical qubits of the T factories, physical qubits, runtime) are
    nonnegative numbers that are integers below [2 ^ 1023] or finite floats,
    and the number of physical qubits is not zero, [get_row] returns an
    8-tuple without raising, and leaves the store as it was. *)
Theorem get_row_returns (st : Store) (result : Ref)
    (v lq ld nt cd ntf pqtf pq rt : value) :
  st !! result = Some v ->
  estimates v lq ld nt cd ntf pqtf pq rt ->
  count ld -> count nt -> count pqtf -> count pq -> nonzero pq -> count rt ->
  exists r : row, get_row result st = (Val r, st).
Proof.
  intros Hst Hv Hld Hnt Hpqtf Hpq Hnz Hrt.
  rewrite (get_row_fields st result v lq ld nt cd ntf pqtf pq rt Hst Hv).
  destruct (columns_total lq ld nt cd ntf pqtf pq rt Hld Hnt Hpqtf Hpq Hnz Hrt)
    as (text & _ & ->).
  eauto.
Qed.

Lemma get_row_returns_witness :
  let v := record (Int 230) (Int 1507100) (Int 1623000) (Int 11) (Int 199)
                  (Int 3462600) (Int 3600000) (Int 5000000000) in
  [v] !! 0%nat = Some v /\
  estimates v (Int 230) (Int 1507100) (Int 1623000) (Int 11) (Int 199)
            (Int 3462600) (Int 3600000) (Int 5000000000) /\
  count (Int 1507100) /\ count (Int 1623000) /\ count (Int 3462600) /\
  count (Int 3600000) /\ nonzero (Int 3600000) /\ count (Int 5000000000) /\
  exists r : row, get_row 0%nat [v] = (Val r, [v]).
Proof.
  cbv zeta.
  assert (Hcount : forall z, 0 <= z < 2 ^ 64 -> count (Int z)).
  { intros z Hz. cbn [count]. split; [lia|].
    eapply Z.lt_trans; [apply Hz|]. vm_compute. reflexivity. }
  split; [reflexivity|]. split; [apply record_estimates|].
  repeat (split; [first [apply Hcount; split; [lia|vm_compute; reflexivity]
                        | cbn [nonzero]; lia]|]).
  apply (get_row_returns
           [record (Int 230) (Int 1507100) (Int 1623000) (Int 11) (Int 199)
                   (Int 3462600) (Int 3600000) (Int 5000000000)]
           0%nat
           (record (Int 230) (Int 1507100) (Int 1623000) (Int 11) (Int 199)
                   (Int 3462600) (Int 3600000) (Int 5000000000))
           (Int 230) (Int 1507100) (Int 1623000) (Int 11)
           (Int 199) (Int 3462600) (Int 3600000) (Int 5000000000));
    first [reflexivity | apply record_estimates
          | apply Hcount; split; [lia|vm_compute; reflexivity]
          | cbn [nonzero]; lia].
Defined.

(** C4.  The claim is that the runtime is shown in the largest unit in
    which it is at least [1.0], as its value in that unit rounded to the
    nearest integer, which is what the comment of the program says.  A
    runtime of [999600] nanoseconds is [999.6] microseconds, so that the
    text is to be [1000 microsecs]; [format_runtime] takes the rounded value
    modulo the factor of the next unit and returns [0 microsecs]. *)
Theorem format_runtime_modulo :
  format_runtime (Int 999600) = Val (Str "0 microsecs") /\
  Normalization.normalized 999600 = Some "1000 microsecs"%string.
Proof. split; vm_compute; reflexivity. Qed.

Section Shown.






End Shown.




(** C7.  [dashboard] and [get_row] only read: whatever the results they
    are given, and whether they return or raise, they leave every result
    record of the store as it was. *)
Theorem dashboard_reads_only (summary_html : list row -> list string -> Res string)
    (details_html : Store -> Res string) (labels : list string) (st : Store) :
  (dashboard summary_html details_html labels st).2 = st /\
  (forall result, (get_row result st).2 = st).
Proof.
  split; [apply read_only_dashboard|intros result; apply read_only_get_row].
Qed.

(* ===================================================================== *)
(** * More about the dashboard *)
(* ===================================================================== *)

(** ** Runtimes at the ends of the range *)

Section Signs.

(** The sign of a quotient of finite numbers. *)
Lemma div_sign sx mx ex sy my ey :
  sign (S754_finite sx mx ex / S754_finite sy my ey)%D = xorb sx sy /\
  is_nan (S754_finite sx mx ex / S754_finite sy my ey)%D = false.
Proof.
  unfold div, SFdiv.
  pose proof (SFdiv_core_binary_bounds prec emax ltac:(reflexivity) mx ex my ey) as Hcore.
  cbv zeta in Hcore.
  destruct (SFdiv_core_binary prec emax (Z.pos mx) ex (Z.pos my) ey) as [[q eq] lq].
  destruct Hcore as (Hq & _ & _).
  destruct (binary_round_aux_unfold prec emax (xorb sx sy) q eq lq Hq)
    as (m1 & m2 & m3 & e1 & e3 & Hm1 & _ & Hm2 & Hm3 & _ & ->).
  assert (0 <= m1) by (subst m1; apply Z.div_pos; [assumption|apply Z.pow_pos_nonneg; lia]).
  assert (0 <= m3) by (subst m3; apply Z.div_pos; [lia|apply Z.pow_pos_nonneg; lia]).
  destruct m3 as [|p|p]; [split; reflexivity| |lia].
  destruct (e3 <=? emax - prec); split; reflexivity.
Qed.

(** A negative number, or a zero, is below [1.0]. *)
Lemma ltb_negative_one x :
  is_nan x = false -> sign x = true -> ltb x (of_Z 1) = true.
Proof.
  change (of_Z 1) with (S754_finite false 4503599627370496 (-52)).
  destruct x as [[]|[]| |[] m e]; cbn [is_nan sign]; intros Hn Hs;
    try discriminate; reflexivity.
Qed.

Lemma truediv_negative_small r u :
  - 2 ^ 1023 < r < 0 -> factor u ->
  exists q, truediv (Int r) (Int u) = Val (Float q) /\ ltb q (of_Z 1) = true.
Proof.
  intros Hr Hu.
  destruct (truediv_factor (Int r) u) as (q & Hq & Hb); [cbn [scalable]; lia|assumption|].
  exists q. split; [assumption|].
  apply truediv_inv in Hq. injection Hq as ->. cbn [quotient].
  destruct r as [|p|p]; try lia. cbn [exact_Z].
  assert (Hu' : exists mu, exact_Z u = S754_finite false mu 0).
  { unfold factor in Hu. destruct Hu as [Hu|[Hu|[Hu|Hu]]]; subst u; eexists; reflexivity. }
  destruct Hu' as [mu ->].
  destruct (div_sign true p 0 false mu 0) as [Hs Hn].
  apply ltb_negative_one; assumption.
Qed.

(** The one-step decision on the integers [0 .. 999]. *)
Lemma truediv_small_thousand r :
  0 <= r < 1000 -> ltb (exact_Z r / exact_Z 1000)%D (of_Z 1) = true.
Proof.
  intros Hr.
  assert (Hall : forallb (fun r => ltb (exact_Z r / exact_Z 1000)%D (of_Z 1)) (seqZ 0 1000) = true)
    by (vm_compute; reflexivity).
  rewrite forallb_forall in Hall. apply Hall.
  apply list_elem_of_In. apply elem_of_seqZ. lia.
Qed.

End Signs.

(** X12. An [int] runtime below [1000] is shown in nanoseconds, as its
    remainder modulo [1000]: a runtime from [0] to [999] as itself, and a
    negative runtime as a count between [0] and [999], so that [-5] reads
    [995 nanosecs]. *)
Theorem format_runtime_nanosecs (r : Z) :
  - 2 ^ 1023 < r < 1000 ->
  format_runtime (Int r) = Val (Str (str_of_int (r `mod` 1000) +:+ " nanosecs")).
Proof.
  intros Hr. unfold format_runtime.
  change (seq 1 (length units - 1)) with [1; 2; 3; 4; 5; 6; 7]%nat.
  cbn [runtime_loop]. change (unit_at 1) with (Val ("microsecs"%string, 1000)).
  cbn [rbind snd].
  assert (Hq : exists q, truediv (Int r) (Int 1000) = Val (Float q) /\ ltb q (of_Z 1) = true).
  { destruct (Z_lt_le_dec r 0) as [Hneg|Hpos].
    - apply truediv_negative_small; [lia|unfold factor; lia].
    - destruct (truediv_factor (Int r) 1000) as (q & Hq & Hb);
        [cbn [scalable]; assert (1000 < 2 ^ 1023) by (vm_compute; reflexivity); lia
        |unfold factor; lia|].
      exists q. split; [assumption|]. apply truediv_inv in Hq. injection Hq as ->.
      apply truediv_small_thousand. lia. }
  destruct Hq as (q & -> & Hlt). cbn [rbind lt]. rewrite Hlt.
  cbn [round rbind]. unfold int_mod. cbn [Z.eqb rbind].
  reflexivity.
Qed.

Lemma format_runtime_nanosecs_witness :
  - 2 ^ 1023 < -5 < 1000 /\
  format_runtime (Int (-5)) = Val (Str (str_of_int ((-5) `mod` 1000) +:+ " nanosecs")).
Proof.
  assert (H : - 2 ^ 1023 < -5 < 1000) by (split; vm_compute; reflexivity).
  split; [exact H|]. apply (format_runtime_nanosecs (-5)). exact H.
Defined.

Section Bound.

Lemma runtime_loop_bound idxs v r :
  Forall (fun idx => 1 <= idx <= 7)%nat idxs -> idxs <> [] ->
  runtime_loop idxs v = Val r ->
  (exists n idx name u next,
     units !! idx = Some (name, u) /\ units !! S idx = Some next /\
     0 <= n < next.2 /\ r = Str (str_of_int n +:+ " " +:+ name)) \/
  (exists q, r = Float q).
Proof.
  revert v. induction idxs as [|idx rest IH]; intros v Hall Hne; [congruence|].
  apply Forall_cons in Hall as [Hidx Hrest].
  destruct (unit_at_loop idx Hidx) as (name & u & prev & pu & Hu & Hf & Hp & Hin).
  cbn [runtime_loop]. rewrite Hu. cbn [rbind snd].
  destruct (truediv v (Int u)) as [scaled|] eqn:Hs; [|discriminate]. cbn [rbind].
  apply truediv_inv in Hs as ->. cbn [lt rbind].
  destruct (ltb _ _).
  - destruct (round v) as [n|]; [|discriminate]. cbn [rbind].
    unfold int_mod. destruct (Z.eqb_spec u 0) as [Hu0|Hu0]; [discriminate|]. cbn [rbind].
    rewrite Hp. cbn [rbind fst]. intros [= <-]. left.
    exists (n `mod` u), (idx - 1)%nat, prev, pu, (name, u).
    unfold unit_at in Hu, Hp.
    destruct (units !! (idx - 1)%nat) as [up|] eqn:Hup; [|discriminate].
    injection Hp as ->.
    replace (S (idx - 1)) with idx by lia.
    destruct (units !! idx) as [ui|] eqn:Hui; [|discriminate]. injection Hu as ->.
    split; [reflexivity|]. split; [reflexivity|]. split; [|reflexivity].
    cbn [snd]. apply Z.mod_pos_bound. unfold factor in Hf. lia.
  - destruct rest as [|idx' rest'].
    + cbn [runtime_loop]. intros [= <-]. right. eauto.
    + apply IH; [assumption|discriminate].
Qed.

End Bound.

(** X13. Whatever [format_runtime] returns is a count and the name of a unit
    of [units], and with every unit but the last the count is at least [0]
    and below the factor of the next unit: below [1000] with nanosecs,
    microsecs and millisecs, [60] with secs and mins, [24] with hours, [365]
    with days. *)
Theorem format_runtime_count_below_next_unit (rt text : value) :
  format_runtime rt = Val text ->
  exists n idx name u,
    units !! idx = Some (name, u) /\
    text = Str (str_of_int n +:+ " " +:+ name) /\
    (forall next v, units !! S idx = Some (next, v) -> 0 <= n < v).
Proof.
  unfold format_runtime.
  destruct (runtime_loop _ rt) as [r|] eqn:Hloop; [|discriminate]. cbn [rbind].
  apply runtime_loop_bound in Hloop; [|cbn; repeat constructor; lia|discriminate].
  destruct Hloop as [(n & idx & name & u & next & Hu & Hn & Hb & ->)|[q ->]].
  - intros [= <-]. exists n, idx, name, u. split; [assumption|]. split; [reflexivity|].
    intros next' v Hn'. rewrite Hn in Hn'. injection Hn' as ->. exact Hb.
  - destruct (round (Float q)) as [n|]; [|discriminate]. cbn [rbind].
    intros [= <-]. exists n, 7%nat, "years"%string, 365.
    split; [reflexivity|]. split; [reflexivity|]. intros next v Hn. discriminate Hn.
Qed.

Lemma format_runtime_count_below_next_unit_witness :
  format_runtime (Int 999600) = Val (Str "0 microsecs") /\
  exists n idx name u,
    units !! idx = Some (name, u) /\
    Str "0 microsecs" = Str (str_of_int n +:+ " " +:+ name) /\
    (forall next v, units !! S idx = Some (next, v) -> 0 <= n < v).
Proof.
  split; [vm_compute; reflexivity|].
  apply (format_runtime_count_below_next_unit (Int 999600) (Str "0 microsecs")).
  vm_compute. reflexivity.
Defined.

(** X14. A runtime that is a whole number [k] of one of the units below
    years, with [k] at least [1] and below the factor of the next unit, is
    shown as [k] and the name of that unit: the arithmetic of the loop is
    exact on these runtimes. *)
Theorem format_runtime_whole_units (idx : nat) (name : string) (u : Z)
    (next : string * Z) (k : Z) :
  units !! idx = Some (name, u) -> units !! S idx = Some next -> 1 <= k < next.2 ->
  format_runtime (Int (k * Normalization.nanoseconds_per idx))
  = Val (Str (str_of_int k +:+ " " +:+ name)).
Proof.
  intros Hu Hnext Hk.
  assert (Hall :
    forallb (fun idx =>
      match units !! idx, units !! S idx with
      | Some (name, _), Some (_, v) =>
          forallb (fun k =>
            match format_runtime (Int (k * Normalization.nanoseconds_per idx)) with
            | Val (Str s) => String.eqb s (str_of_int k +:+ " " +:+ name)
            | _ => false
            end) (seqZ 1 (v - 1))
      | _, _ => true
      end) (seq 0 7) = true) by (vm_compute; reflexivity).
  rewrite forallb_forall in Hall.
  assert (Hidx : (idx < 7)%nat).
  { apply lookup_lt_Some in Hnext. cbn [length units] in Hnext. lia. }
  specialize (Hall idx ltac:(apply in_seq; lia)).
  rewrite Hu, Hnext in Hall. destruct next as [next_name v]. cbn [snd] in Hk.
  rewrite forallb_forall in Hall.
  specialize (Hall k ltac:(apply list_elem_of_In, elem_of_seqZ; lia)).
  destruct (format_runtime (Int (k * Normalization.nanoseconds_per idx))) as [[| |s|]|];
    try discriminate.
  apply String.eqb_eq in Hall. subst s. reflexivity.
Qed.

Lemma format_runtime_whole_units_witness :
  units !! 3%nat = Some ("secs"%string, 1000) /\
  units !! 4%nat = Some ("mins"%string, 60) /\
  1 <= 59 < 60 /\
  format_runtime (Int (59 * Normalization.nanoseconds_per 3))
  = Val (Str (str_of_int 59 +:+ " " +:+ "secs")).
Proof.
  split; [reflexivity|]. split; [reflexivity|]. split; [lia|].
  apply (format_runtime_whole_units 3 "secs" 1000 ("mins"%string, 60) 59);
    [reflexivity|reflexivity|cbn; lia].
Defined.

(** X15. On a [float] runtime, [format_runtime] returns a text when the
    number is finite, raises [ValueError] on a NaN, from [round], and raises
    [OverflowError] on an infinity. *)
Theorem format_runtime_of_float (x : Double) :
  valid x = true ->
  (is_finite x = true -> exists r, format_runtime (Float x) = Val r /\ runtime_text r) /\
  (is_nan x = true -> format_runtime (Float x) = Raise ValueError) /\
  (is_inf x = true -> format_runtime (Float x) = Raise OverflowError).
Proof.
  intros Hv. split; [|split].
  - intros Hf. apply format_runtime_total. cbn [scalable]. apply valid_below; assumption.
  - destruct x; try discriminate. intros _. vm_compute. reflexivity.
  - destruct x as [|[]| |]; try discriminate; intros _; vm_compute; reflexivity.
Qed.

Lemma format_runtime_of_float_witness :
  valid (of_Z 1500000000) = true /\
  (is_finite (of_Z 1500000000) = true ->
   exists r, format_runtime (Float (of_Z 1500000000)) = Val r /\ runtime_text r) /\
  (is_nan (of_Z 1500000000) = true ->
   format_runtime (Float (of_Z 1500000000)) = Raise ValueError) /\
  (is_inf (of_Z 1500000000) = true ->
   format_runtime (Float (of_Z 1500000000)) = Raise OverflowError).
Proof.
  split; [vm_compute; reflexivity|].
  apply (format_runtime_of_float (of_Z 1500000000)). vm_compute. reflexivity.
Defined.

(** ** Records with a field missing *)

Section Reads.

Lemma subscript3_subscripts st result v k1 k2 k3 :
  st !! result = Some v ->
  subscript3 result k1 k2 k3 st = (subscripts v [k1; k2; k3], st).
Proof.
  intros Hst. unfold subscript3, bind, deref, lift. rewrite Hst.
  unfold subscripts. cbn [foldl rbind].
  destruct (subscript v k1) as [v1|]; cbn [rbind]; [|reflexivity].
  destruct (subscript v1 k2); reflexivity.
Qed.

Lemma subscript2_subscripts st result v k1 k2 :
  st !! result = Some v ->
  subscript2 result k1 k2 st = (subscripts v [k1; k2], st).
Proof.
  intros Hst. unfold subscript2, bind, deref, lift. rewrite Hst.
  unfold subscripts. cbn [foldl rbind].
  destruct (subscript v k1); reflexivity.
Qed.

Lemma bind_Raise {A B} (c : Py A) (k : A -> Py B) st e st' :
  c st = (Raise e, st') -> bind c k st = (Raise e, st').
Proof. intros H. unfold bind. rewrite H. reflexivity. Qed.

End Reads.

(** One read of [get_row]: the read of index [j] fails, or it returns. *)
Ltac read_step k j Hst Hk Hfail Hread :=
  destruct k as [|k];
  [ injection Hk as <-; unfold bind at 1;
    first [ rewrite (subscript3_subscripts _ _ _ _ _ _ Hst)
          | rewrite (subscript2_subscripts _ _ _ _ _ Hst) ];
    rewrite Hfail; reflexivity
  | unfold bind at 1;
    first [ rewrite (subscript3_subscripts _ _ _ _ _ _ Hst)
          | rewrite (subscript2_subscripts _ _ _ _ _ Hst) ];
    match goal with
    | |- context [subscripts _ ?p] =>
        let x := fresh "x" in
        let Hx := fresh "Hx" in
        destruct (Hread j p eq_refl ltac:(lia)) as [x Hx]; rewrite Hx; cbv beta iota
    end ].

(** X16. [get_row] reads seven fields of the record before it computes
    anything; when one of these reads raises, for a key that is missing or a
    value that is no [dict], and the reads before it return, [get_row]
    raises that exception and leaves the store as it was. *)
Theorem get_row_first_failing_read (st : Store) (result : Ref) (v : value)
    (k : nat) (path : list string) (e : Exn) :
  st !! result = Some v ->
  reads !! k = Some path ->
  (forall j p, (j < k)%nat -> reads !! j = Some p -> exists x, subscripts v p = Val x) ->
  subscripts v path = Raise e ->
  get_row result st = (Raise e, st).
Proof.
  intros Hst Hk Hbefore Hfail. unfold get_row.
  assert (Hread : forall j p, reads !! j = Some p -> (j < k)%nat ->
                    exists x, subscripts v p = Val x).
  { intros j p Hp Hj. eapply Hbefore; eassumption. }
  read_step k 0%nat Hst Hk Hfail Hread.
  read_step k 1%nat Hst Hk Hfail Hread.
  read_step k 2%nat Hst Hk Hfail Hread.
  read_step k 3%nat Hst Hk Hfail Hread.
  read_step k 4%nat Hst Hk Hfail Hread.
  read_step k 5%nat Hst Hk Hfail Hread.
  read_step k 6%nat Hst Hk Hfail Hread.
  discriminate Hk.
Qed.

Lemma get_row_first_failing_read_witness :
  let v := Dict (list_to_map
             [ ("physicalCounts"%string,
                Dict (list_to_map
                  [ ("breakdown"%string,
                     Dict (list_to_map
                       [ ("algorithmicLogicalQubits"%string, Int 230);
                         ("logicalDepth"%string, Int 1507100);
                         ("numTstates"%string, Int 1623000) ])) ])) ]) in
  [v] !! 0%nat = Some v /\
  reads !! 3%nat = Some ["logicalQubit"; "codeDistance"]%string /\
  (forall j p, (j < 3)%nat -> reads !! j = Some p -> exists x, subscripts v p = Val x) /\
  subscripts v ["logicalQubit"; "codeDistance"]%string = Raise KeyError /\
  get_row 0%nat [v] = (Raise KeyError, [v]).
Proof.
  intros v.
  assert (Hbefore : forall j p, (j < 3)%nat -> reads !! j = Some p ->
            exists x, subscripts v p = Val x).
  { intros j p Hj Hp.
    destruct j as [|[|[|j]]]; [| | |lia]; injection Hp as <-;
      eexists; vm_compute; reflexivity. }
  split; [reflexivity|]. split; [reflexivity|]. split; [exact Hbefore|].
  split; [vm_compute; reflexivity|].
  apply (get_row_first_failing_read [v] 0%nat v 3%nat
           ["logicalQubit"; "codeDistance"]%string KeyError eq_refl eq_refl Hbefore).
  vm_compute. reflexivity.
Defined.

Section Fraction.

Lemma quotient_zero pq :
  count pq -> nonzero pq -> (quotient (Int 0) pq * of_Z 100)%D = S754_zero false.
Proof.
  destruct pq as [y|y|s|d]; cbn [count nonzero quotient to_double]; try contradiction.
  - intros Hy Hnz. destruct y as [|p|p]; [contradiction|reflexivity|lia].
  - intros (Hv & Hf & Hs) Hnz.
    destruct y as [s|s| |s m e]; cbn in Hf, Hs, Hnz; try discriminate.
    subst s. reflexivity.
Qed.

(** A finite number divided by itself is [1.0]. *)
Lemma div_self s m e : (S754_finite s m e / S754_finite s m e)%D = of_Z 1.
Proof.
  unfold div, SFdiv, SFdiv_core_binary.
  replace (Zdigits2 (Z.pos m) + e - (Zdigits2 (Z.pos m) + e)) with 0 by lia.
  replace (e - e) with 0 by lia.
  change (Z.min (fexp prec emax 0) 0) with (-53).
  change (0 - -53) with 53.
  cbv beta iota zeta.
  rewrite Z.shiftl_mul_pow2 by lia.
  assert (Hdiv : Z.div_eucl (Z.pos m * 2 ^ 53) (Z.pos m) = (2 ^ 53, 0)).
  { pose proof (Z_div_mod (Z.pos m * 2 ^ 53) (Z.pos m) ltac:(lia)) as H.
    destruct (Z.div_eucl (Z.pos m * 2 ^ 53) (Z.pos m)) as [q r]. destruct H as [H1 H2].
    assert (q = 2 ^ 53) by nia. subst q. f_equal. lia. }
  rewrite Hdiv.
  assert (Hloc : new_location (Z.pos m) 0 = loc_Exact).
  { unfold new_location. destruct (Z.even (Z.pos m)); reflexivity. }
  rewrite Hloc. destruct s; vm_compute; reflexivity.
Qed.

Lemma quotient_self pq :
  count pq -> nonzero pq -> (quotient pq pq * of_Z 100)%D = of_Z 100.
Proof.
  destruct pq as [y|y|s|d]; cbn [count nonzero quotient to_double]; try contradiction.
  - intros Hy Hnz. destruct y as [|p|p]; [contradiction| |lia].
    cbn [exact_Z]. rewrite div_self. vm_compute. reflexivity.
  - intros (Hv & Hf & Hs) Hnz.
    destruct y as [s|s| |s m e]; cbn in Hf, Hs, Hnz; try discriminate.
    rewrite div_self. vm_compute. reflexivity.
Qed.

End Fraction.

(** X17. The two ends of the T-factory fraction: on a record without
    physical qubits for T factories, the integer [0], the column reads
    [0.0%], and on a record whose physical qubits are all for T factories it
    reads [100.0%]. *)
Theorem get_row_tfactory_fraction_ends (st : Store) (result : Ref)
    (v lq ld nt cd ntf pqtf pq rt : value) :
  st !! result = Some v ->
  estimates v lq ld nt cd ntf pqtf pq rt ->
  count ld -> count nt -> count pq -> nonzero pq -> count rt ->
  (pqtf = Int 0 ->
   exists r : row, get_row result st = (Val r, st) /\ r.1.1.2 = Str "0.0%") /\
  (pqtf = pq ->
   exists r : row, get_row result st = (Val r, st) /\ r.1.1.2 = Str "100.0%").
Proof.
  intros Hst Hv Hld Hnt Hpq Hnz Hrt.
  rewrite (get_row_fields st result v lq ld nt cd ntf pqtf pq rt Hst Hv).
  split; intros ->.
  - assert (H0 : count (Int 0)) by (cbn [count]; split; [lia|apply Z.pow_pos_nonneg; lia]).
    destruct (columns_total lq ld nt cd ntf (Int 0) pq rt Hld Hnt H0 Hpq Hnz Hrt)
      as (text & _ & ->).
    eexists. split; [reflexivity|]. cbn [fst snd].
    rewrite quotient_zero by assumption. reflexivity.
  - destruct (columns_total lq ld nt cd ntf pq pq rt Hld Hnt Hpq Hpq Hnz Hrt)
      as (text & _ & ->).
    eexists. split; [reflexivity|]. cbn [fst snd].
    rewrite quotient_self by assumption. vm_compute. reflexivity.
Qed.

Lemma get_row_tfactory_fraction_ends_witness :
  let v := record (Int 230) (Int 1507100) (Int 1623000) (Int 11) (Int 199)
                  (Int 3600000) (Int 3600000) (Int 5000000000) in
  [v] !! 0%nat = Some v /\
  estimates v (Int 230) (Int 1507100) (Int 1623000) (Int 11) (Int 199)
            (Int 3600000) (Int 3600000) (Int 5000000000) /\
  count (Int 1507100) /\ count (Int 1623000) /\ count (Int 3600000) /\
  nonzero (Int 3600000) /\ count (Int 5000000000) /\
  (Int 3600000 = Int 0 ->
   exists r : row, get_row 0%nat [v] = (Val r, [v]) /\ r.1.1.2 = Str "0.0%") /\
  (Int 3600000 = Int 3600000 ->
   exists r : row, get_row 0%nat [v] = (Val r, [v]) /\ r.1.1.2 = Str "100.0%").
Proof.
  intros v.
  assert (Hcount : forall z, 0 <= z < 2 ^ 64 -> count (Int z)).
  { intros z Hz. cbn [count]. split; [lia|].
    eapply Z.lt_trans; [apply Hz|]. vm_compute. reflexivity. }
  assert (H1 : count (Int 1507100)) by (apply Hcount; split; [lia|vm_compute; reflexivity]).
  assert (H2 : count (Int 1623000)) by (apply Hcount; split; [lia|vm_compute; reflexivity]).
  assert (H3 : count (Int 3600000)) by (apply Hcount; split; [lia|vm_compute; reflexivity]).
  assert (H4 : nonzero (Int 3600000)) by (cbn [nonzero]; lia).
  assert (H5 : count (Int 5000000000)) by (apply Hcount; split; [lia|vm_compute; reflexivity]).
  split; [reflexivity|]. split; [apply record_estimates|].
  do 5 (split; [assumption|]).
  apply (get_row_tfactory_fraction_ends [v] 0%nat v (Int 230) (Int 1507100) (Int 1623000)
           (Int 11) (Int 199) (Int 3600000) (Int 3600000) (Int 5000000000)
           eq_refl (record_estimates _ _ _ _ _ _ _ _) H1 H2 H3 H4 H5).
Defined.

(** ** The T-factory fraction is a percentage *)

(** The value of a finite number [m * 2 ^ e] is compared on a scale
    [2 ^ K] on which it is an integer, [m * 2 ^ (e + K)]. *)

Section Percentage.

Local Abbreviation fexp64 := (fexp prec emax).

(** Rounding adds at most one unit of the exponent [e1] at which the
    mantissa is cut: on the scale [2 ^ K], the result is at most the number
    rounded and [2 ^ e1]. *)
Lemma binary_round_aux_upper s m e l K :
  0 <= m -> - K <= e ->
  let e1 := Z.max e (fexp64 (Zdigits2 m + e)) in
  match binary_round_aux prec emax s m e l with
  | S754_finite _ m' e' =>
      e1 <= e' <= Z.max e1 (fexp64 (Zdigits2 (m / 2 ^ (e1 - e) + 1) + e1)) /\
      Z.pos m' * 2 ^ (e' + K) <= m * 2 ^ (e + K) + 2 ^ (e1 + K)
  | _ => True
  end.
Proof.
  intros Hm HK e1.
  destruct (binary_round_aux_unfold prec emax s m e l Hm)
    as (m1 & m2 & m3 & e1' & e3 & Hm1 & He1 & Hm2 & Hm3 & He3 & ->).
  assert (Hk1 : Z.max 0 (fexp64 (Zdigits2 m + e) - e) = e1 - e) by (subst e1; lia).
  rewrite Hk1 in Hm1, He1.
  assert (He1' : e1' = e1) by lia. clear He1. subst e1'.
  set (k2 := Z.max 0 (fexp64 (Zdigits2 m2 + e1) - e1)) in *.
  destruct m3 as [|p|p]; [exact I| |exact I].
  destruct (e3 <=? emax - prec); [|exact I].
  assert (Hk1nn : 0 <= e1 - e) by lia. assert (Hk2 : 0 <= k2) by lia.
  assert (HB : 0 < 2 ^ (e1 - e)) by (apply Z.pow_pos_nonneg; lia).
  assert (HC : 0 < 2 ^ k2) by (apply Z.pow_pos_nonneg; lia).
  assert (HA : 0 < 2 ^ (e + K)) by (apply Z.pow_pos_nonneg; lia).
  assert (Hm1nn : 0 <= m1) by (subst m1; apply Z.div_pos; lia).
  split.
  - split; [lia|]. subst e3 k2.
    assert (Zdigits2 m2 <= Zdigits2 (m1 + 1)) by (apply Zdigits2_mono; lia).
    rewrite <- Hm1. rewrite !fexp_spec. lia.
  - rewrite Hm3. subst e3.
    replace (e1 + k2 + K) with (k2 + ((e1 - e) + (e + K))) by lia.
    replace (e1 + K) with ((e1 - e) + (e + K)) by lia.
    rewrite (Z.pow_add_r 2 k2) by lia. rewrite !(Z.pow_add_r 2 (e1 - e) (e + K)) by lia.
    pose proof (Z.mul_div_le m2 (2 ^ k2) HC) as H2.
    pose proof (Z.mul_div_le m (2 ^ (e1 - e)) HB) as H1. rewrite <- Hm1 in H1.
    set (A := 2 ^ (e + K)) in *. set (B := 2 ^ (e1 - e)) in *. set (C := 2 ^ k2) in *.
    set (q := m2 / C) in *.
    assert (H3 : q * C <= m1 + 1) by lia.
    assert (H4 : q * C * (B * A) <= (m1 + 1) * (B * A)).
    { apply Z.mul_le_mono_nonneg_r; [nia|exact H3]. }
    assert (H5 : B * m1 * A <= m * A).
    { apply Z.mul_le_mono_nonneg_r; [lia|exact H1]. }
    lia.
Qed.

(** The quotient before rounding is at most the exact quotient. *)
Lemma SFdiv_core_binary_value mx my :
  let '(q, e, _) := SFdiv_core_binary prec emax (Z.pos mx) 0 (Z.pos my) 0 in
  -1074 <= e <= 0 /\ q * Z.pos my <= Z.pos mx * 2 ^ (- e).
Proof.
  unfold SFdiv_core_binary.
  set (e := Z.min (fexp64 (Zdigits2 (Z.pos mx) + 0 - (Zdigits2 (Z.pos my) + 0))) (0 - 0)).
  assert (He : -1074 <= e <= 0).
  { subst e. rewrite fexp_spec. unfold emin, prec, emax. lia. }
  replace (0 - 0 - e) with (- e) by lia.
  set (m' := match - e with Z.pos _ => Z.shiftl (Z.pos mx) (- e) | Z0 => Z.pos mx | Z.neg _ => 0 end).
  assert (Hm' : m' = Z.pos mx * 2 ^ (- e)).
  { subst m'. destruct (- e) as [|p|p] eqn:E; try lia.
    rewrite Z.shiftl_mul_pow2 by lia. reflexivity. }
  pose proof (Z_div_mod m' (Z.pos my) ltac:(lia)) as Hdm.
  destruct (Z.div_eucl m' (Z.pos my)) as [q r]. destruct Hdm as [Hq Hr].
  split; [exact He|]. lia.
Qed.

(** The quotient of a count by a count that is not smaller is at most
    [1 + 2 ^ -52]. *)
Lemma div_at_most_one a b :
  (a <= b)%positive ->
  match (S754_finite false a 0 / S754_finite false b 0)%D with
  | S754_zero s => s = false
  | S754_finite s m e =>
      s = false /\ -1074 <= e <= -52 /\
      Z.pos m * 2 ^ (e + 1074) <= 2 ^ 1074 + 2 ^ 1022
  | _ => False
  end.
Proof.
  intros Hab. unfold div, SFdiv.
  pose proof (SFdiv_core_binary_bounds prec emax ltac:(reflexivity) a 0 b 0) as Hb.
  pose proof (SFdiv_core_binary_value a b) as Hv.
  cbv zeta in Hb.
  destruct (SFdiv_core_binary prec emax (Z.pos a) 0 (Z.pos b) 0) as [[q e0] l].
  destruct Hb as (Hq & HD & He0'). destruct Hv as (He0 & Hqv).
  change (xorb false false) with false.
  assert (Hdig : Z.pos (digits2_pos a) <= Z.pos (digits2_pos b)).
  { apply (Zdigits2_mono (Z.pos a) (Z.pos b)). lia. }
  unfold emin, prec, emax in HD, He0'.
  assert (HD1 : Zdigits2 q + e0 <= 1) by lia.
  assert (He53 : e0 <= -53) by lia.
  assert (Hpe : 0 < 2 ^ (- e0)) by (apply Z.pow_pos_nonneg; lia).
  assert (Hq1 : q <= 2 ^ (- e0)) by nia.
  pose proof (binary_round_aux_finite prec emax eq_refl eq_refl false q e0 l 1 Hq HD1
                ltac:(lia) ltac:(unfold emin, prec, emax; lia) ltac:(unfold emax; lia)
                ltac:(unfold prec, emax; lia)) as Hfin.
  pose proof (binary_round_aux_upper false q e0 l 1074 Hq ltac:(lia)) as Hup.
  cbv zeta in Hup.
  destruct (binary_round_aux prec emax false q e0 l) as [s|s| |s m e];
    [exact Hfin|contradiction|contradiction|].
  destruct Hfin as [-> _]. destruct Hup as ((Hlo & Hhi) & Hval).
  set (e1 := Z.max e0 (fexp64 (Zdigits2 q + e0))) in *.
  assert (He1 : -1074 <= e1 <= -52).
  { subst e1. rewrite fexp_spec. unfold emin, prec, emax. lia. }
  assert (Hp1 : 2 ^ (e1 - e0) * 2 ^ (- e1) = 2 ^ (- e0)).
  { rewrite <- Z.pow_add_r by lia. f_equal. lia. }
  assert (Hpk : 0 < 2 ^ (e1 - e0)) by (apply Z.pow_pos_nonneg; lia).
  assert (Hm1 : q / 2 ^ (e1 - e0) <= 2 ^ (- e1)).
  { apply Z.div_le_upper_bound; [exact Hpk|]. rewrite Hp1. exact Hq1. }
  assert (Hm1nn : 0 <= q / 2 ^ (e1 - e0)) by (apply Z.div_pos; lia).
  assert (Hd : Zdigits2 (q / 2 ^ (e1 - e0) + 1) <= - e1 + 1).
  { apply Zdigits2_le_iff; [lia|lia|].
    rewrite Z.pow_add_r, Z.pow_1_r by lia.
    assert (2 ^ 1 <= 2 ^ (- e1)) by (apply Z.pow_le_mono_r; lia).
    change (2 ^ 1) with 2 in *. lia. }
  assert (He : e <= -52).
  { rewrite fexp_spec in Hhi. unfold emin, prec, emax in Hhi. lia. }
  split; [reflexivity|]. split; [lia|].
  assert (Hv1 : q * 2 ^ (e0 + 1074) <= 2 ^ 1074).
  { replace (2 ^ 1074) with (2 ^ (- e0) * 2 ^ (e0 + 1074)).
    - apply Z.mul_le_mono_nonneg_r; [apply Z.pow_nonneg; lia|exact Hq1].
    - rewrite <- Z.pow_add_r by lia. f_equal. lia. }
  assert (Hv2 : 2 ^ (e1 + 1074) <= 2 ^ 1022) by (apply Z.pow_le_mono_r; lia).
  set (P := 2 ^ 1074) in *. set (Q := 2 ^ 1022) in *. lia.
Qed.

(** Such a quotient as a percentage: at most [100 * (1 + 2 ^ -52) +
    2 ^ -46]. *)
Lemma percent_upper m e :
  -1074 <= e <= -52 -> Z.pos m * 2 ^ (e + 1074) <= 2 ^ 1074 + 2 ^ 1022 ->
  match (S754_finite false m e * of_Z 100)%D with
  | S754_zero s => s = false
  | S754_finite s m' e' =>
      s = false /\ -1120 <= e' /\
      Z.pos m' * 2 ^ (e' + 1120) <= 100 * 2 ^ 1120 + 100 * 2 ^ 1068 + 2 ^ 1074
  | _ => False
  end.
Proof.
  intros He Hv. change (of_Z 100) with (S754_finite false 7036874417766400 (-46)).
  unfold Float64.mul, SFmul. change (xorb false false) with false.
  rewrite Pos2Z.inj_mul.
  set (M := Z.pos m * 7036874417766400). set (E := e + -46).
  assert (HM : 0 < M) by lia.
  assert (HY : 0 < 2 ^ (E + 1120)) by (apply Z.pow_pos_nonneg; lia).
  assert (HMv : M * 2 ^ (E + 1120) <= 100 * 2 ^ 1120 + 100 * 2 ^ 1068).
  { replace (E + 1120) with (e + 1074) by lia.
    replace (2 ^ 1120) with (2 ^ 46 * 2 ^ 1074) by reflexivity.
    replace (2 ^ 1068) with (2 ^ 46 * 2 ^ 1022) by reflexivity.
    change (2 ^ 46) with 70368744177664.
    set (P := 2 ^ 1074) in *. set (Q := 2 ^ 1022) in *. lia. }
  assert (Hlt : M < 2 ^ (7 - E)).
  { apply (Z.mul_lt_mono_pos_r (2 ^ (E + 1120))); [exact HY|].
    rewrite <- Z.pow_add_r by lia. replace (7 - E + (E + 1120)) with 1127 by lia.
    eapply Z.le_lt_trans; [exact HMv|].
    replace (2 ^ 1127) with (128 * 2 ^ 1120) by reflexivity.
    replace (2 ^ 1120) with (4503599627370496 * 2 ^ 1068) by reflexivity.
    assert (0 < 2 ^ 1068) by (apply Z.pow_pos_nonneg; lia).
    set (Q := 2 ^ 1068) in *. lia. }
  assert (HD : Zdigits2 M + E <= 7).
  { assert (Zdigits2 M <= 7 - E) by (apply Zdigits2_le_iff; lia). lia. }
  pose proof (binary_round_aux_finite prec emax eq_refl eq_refl false M E loc_Exact 7
                ltac:(lia) HD ltac:(lia) ltac:(unfold emin, prec, emax; lia)
                ltac:(unfold emax; lia) ltac:(unfold prec, emax; lia)) as Hfin.
  pose proof (binary_round_aux_upper false M E loc_Exact 1120 ltac:(lia) ltac:(lia)) as Hup.
  cbv zeta in Hup.
  destruct (binary_round_aux prec emax false M E loc_Exact) as [s|s| |s m' e'];
    [exact Hfin|contradiction|contradiction|].
  destruct Hfin as [-> _]. destruct Hup as ((Hlo & _) & Hval).
  set (e1 := Z.max E (fexp64 (Zdigits2 M + E))) in *.
  assert (He1 : -1120 <= e1 <= -46).
  { subst e1. rewrite fexp_spec. unfold emin, prec, emax. lia. }
  split; [reflexivity|]. split; [lia|].
  assert (Hv2 : 2 ^ (e1 + 1120) <= 2 ^ 1074) by (apply Z.pow_le_mono_r; lia).
  set (P := 2 ^ 1120) in *. set (Q := 2 ^ 1068) in *. set (R := 2 ^ 1074) in *. lia.
Qed.

(** The nearest integer to a fraction below [t + 1/2] is at most [t]. *)
Lemma div_nearest_even_upper n d t :
  0 <= n -> 0 < d -> 2 * n < (2 * t + 1) * d -> 0 <= div_nearest_even n d <= t.
Proof.
  intros Hn Hd H. unfold div_nearest_even.
  pose proof (Z.div_mod n d ltac:(lia)) as Hdm.
  pose proof (Z.mod_pos_bound n d Hd) as Hr.
  assert (Hq : 0 <= n / d) by (apply Z.div_pos; lia).
  set (q := n / d) in *. set (r := n mod d) in *.
  assert (Hqt : q <= t) by nia.
  assert (Hqt' : d <= 2 * r -> q < t) by nia.
  destruct (Z.compare_spec (2 * r) d); [destruct (Z.even q)| |]; lia.
Qed.

(** The tenths of such a percentage. *)
Lemma percent_tenths m e :
  -1120 <= e ->
  Z.pos m * 2 ^ (e + 1120) <= 100 * 2 ^ 1120 + 100 * 2 ^ 1068 + 2 ^ 1074 ->
  0 <= div_nearest_even (Z.abs (num (S754_finite false m e)) * 10)
         (den (S754_finite false m e)) <= 1000.
Proof.
  intros He Hv. cbn [num den].
  assert (HQ : 0 < 2 ^ 1068) by (apply Z.pow_pos_nonneg; lia).
  replace (2 ^ 1074) with (64 * 2 ^ 1068) in Hv by reflexivity.
  destruct (0 <=? e) eqn:E; [apply Z.leb_le in E|apply Z.leb_gt in E].
  - assert (Hp : 0 < 2 ^ e) by (apply Z.pow_pos_nonneg; lia).
    apply div_nearest_even_upper; [lia|lia|].
    rewrite Z.pow_add_r in Hv by lia.
    replace (2 ^ 1120) with (4503599627370496 * 2 ^ 1068) in Hv by reflexivity.
    set (Q := 2 ^ 1068) in *. set (x := Z.pos m * 2 ^ e) in *.
    rewrite Z.abs_eq by lia.
    assert (x * 4503599627370496 < 101 * 4503599627370496) by nia. lia.
  - assert (Hp : 0 < 2 ^ (- e)) by (apply Z.pow_pos_nonneg; lia).
    assert (HY : 0 < 2 ^ (e + 1120)) by (apply Z.pow_pos_nonneg; lia).
    apply div_nearest_even_upper; [lia|lia|].
    rewrite Z.abs_eq by lia.
    assert (HP : 2 ^ 1120 = 2 ^ (- e) * 2 ^ (e + 1120)).
    { rewrite <- Z.pow_add_r by lia. f_equal. lia. }
    assert (HPQ : 2 ^ 1120 = 4503599627370496 * 2 ^ 1068) by reflexivity.
    set (P := 2 ^ 1120) in *. set (Q := 2 ^ 1068) in *.
    set (D := 2 ^ (- e)) in *. set (Y := 2 ^ (e + 1120)) in *.
    apply (Z.mul_lt_mono_pos_r Y); [exact HY|].
    replace ((2 * 1000 + 1) * D * Y) with (2001 * P) by lia.
    lia.
Qed.

(** One decimal digit, padded to one character. *)
Lemma pad_digit d : 0 <= d <= 9 -> pad 1 d = str_of_int d.
Proof.
  intros H.
  assert (Hd : d = 0 \/ d = 1 \/ d = 2 \/ d = 3 \/ d = 4 \/ d = 5 \/ d = 6 \/ d = 7 \/
               d = 8 \/ d = 9) by lia.
  repeat (destruct Hd as [->|Hd]; [reflexivity|]). subst d. reflexivity.
Qed.

(** The percentage of two counts, the first at most the second, as
    [format_f] writes it. *)
Lemma percent_text a b :
  0 <= a <= b -> 0 < b ->
  exists n, 0 <= n <= 1000 /\
    format_f 1 (quotient (Int a) (Int b) * of_Z 100)%D
    = str_of_int (n / 10) +:+ "." +:+ str_of_int (n mod 10).
Proof.
  intros Ha Hb. cbn [quotient].
  assert (Htext : forall x, is_finite x = true -> sign x = false ->
            0 <= div_nearest_even (Z.abs (num x) * 10) (den x) <= 1000 ->
            exists n, 0 <= n <= 1000 /\
              format_f 1 x = str_of_int (n / 10) +:+ "." +:+ str_of_int (n mod 10)).
  { intros x Hf Hs Hn. exists (div_nearest_even (Z.abs (num x) * 10) (den x)).
    split; [exact Hn|].
    set (n := div_nearest_even (Z.abs (num x) * 10) (den x)) in *.
    assert (Hfmt : format_f 1 x
              = (sign_prefix (sign x) ++ str_of_int (n / 10) ++ "." ++ pad 1 (n mod 10))%string).
    { destruct x; try discriminate Hf; reflexivity. }
    pose proof (Z.mod_pos_bound n 10 ltac:(lia)) as Hd.
    rewrite Hfmt, Hs, pad_digit by lia. reflexivity. }
  destruct b as [|b|b]; try lia. destruct a as [|a|a]; try lia.
  - apply Htext; [reflexivity|reflexivity|vm_compute; split; discriminate].
  - cbn [exact_Z].
    pose proof (div_at_most_one a b ltac:(lia)) as Hq.
    destruct (S754_finite false a 0 / S754_finite false b 0)%D as [s|s| |s m e];
      try contradiction.
    + subst s. apply Htext; [reflexivity|reflexivity|vm_compute; split; discriminate].
    + destruct Hq as (-> & He & Hv).
      pose proof (percent_upper m e He Hv) as Hp.
      destruct (S754_finite false m e * of_Z 100)%D as [s|s| |s m' e'];
        try contradiction.
      * subst s. apply Htext; [reflexivity|reflexivity|vm_compute; split; discriminate].
      * destruct Hp as (-> & He' & Hv'). apply Htext; [reflexivity|reflexivity|].
        apply percent_tenths; assumption.
Qed.

End Percentage.

(** X18. The T-factory fraction is shown as a percentage from [0.0%] to
    [100.0%]: on a record whose physical qubits for T factories are an
    integer from [0] to the physical qubits, a positive integer, the column
    is a number of tenths [n] between [0] and [1000], written with one
    decimal, and the sign [%]. The two roundings of the quotient and of the
    product by [100] do not take it above [100.0]. *)
Theorem get_row_tfactory_fraction_range (st : Store) (result : Ref)
    (v lq ld nt cd ntf rt : value) (a b : Z) :
  st !! result = Some v ->
  estimates v lq ld nt cd ntf (Int a) (Int b) rt ->
  count ld -> count nt -> count rt ->
  0 <= a <= b -> 0 < b < 2 ^ 1023 ->
  exists (r : row) (n : Z),
    get_row result st = (Val r, st) /\ 0 <= n <= 1000 /\
    r.1.1.2 = Str ((str_of_int (n / 10) +:+ "." +:+ str_of_int (n mod 10)) +:+ "%").
Proof.
  intros Hst Hv Hld Hnt Hrt Ha Hb.
  rewrite (get_row_fields st result v lq ld nt cd ntf (Int a) (Int b) rt Hst Hv).
  assert (Hca : count (Int a)) by (cbn [count]; lia).
  assert (Hcb : count (Int b)) by (cbn [count]; lia).
  assert (Hnz : nonzero (Int b)) by (cbn [nonzero]; lia).
  destruct (columns_total lq ld nt cd ntf (Int a) (Int b) rt Hld Hnt Hca Hcb Hnz Hrt)
    as (text & _ & ->).
  destruct (percent_text a b Ha ltac:(lia)) as (n & Hn & Htext).
  eexists. exists n. split; [reflexivity|]. split; [exact Hn|].
  cbn [fst snd]. rewrite Htext. reflexivity.
Qed.

Lemma get_row_tfactory_fraction_range_witness :
  let v := record (Int 230) (Int 1507100) (Int 1623000) (Int 11) (Int 199)
                  (Int 1200000) (Int 3600000) (Int 5000000000) in
  [v] !! 0%nat = Some v /\
  estimates v (Int 230) (Int 1507100) (Int 1623000) (Int 11) (Int 199)
            (Int 1200000) (Int 3600000) (Int 5000000000) /\
  count (Int 1507100) /\ count (Int 1623000) /\ count (Int 5000000000) /\
  0 <= 1200000 <= 3600000 /\ 0 < 3600000 < 2 ^ 1023 /\
  exists (r : row) (n : Z),
    get_row 0%nat [v] = (Val r, [v]) /\ 0 <= n <= 1000 /\
    r.1.1.2 = Str ((str_of_int (n / 10) +:+ "." +:+ str_of_int (n mod 10)) +:+ "%").
Proof.
  intros v.
  assert (Hcount : forall z, 0 <= z < 2 ^ 64 -> count (Int z)).
  { intros z Hz. cbn [count]. split; [lia|].
    eapply Z.lt_trans; [apply Hz|]. vm_compute. reflexivity. }
  assert (H1 : count (Int 1507100)) by (apply Hcount; split; [lia|vm_compute; reflexivity]).
  assert (H2 : count (Int 1623000)) by (apply Hcount; split; [lia|vm_compute; reflexivity]).
  assert (H3 : count (Int 5000000000)) by (apply Hcount; split; [lia|vm_compute; reflexivity]).
  assert (H4 : 0 <= 1200000 <= 3600000) by lia.
  assert (H5 : 0 < 3600000 < 2 ^ 1023) by (split; [lia|vm_compute; reflexivity]).
  split; [reflexivity|]. split; [apply record_estimates|].
  do 5 (split; [assumption|]).
  apply (get_row_tfactory_fraction_range [v] 0%nat v (Int 230) (Int 1507100) (Int 1623000)
           (Int 11) (Int 199) (Int 5000000000) 1200000 3600000
           eq_refl (record_estimates _ _ _ _ _ _ _ _) H1 H2 H3 H4 H5).
Defined.

(** ** The rows of the table *)

Section Rows.
Variable summary_html : list row -> list string -> Res string.
Variable details_html : Store -> Res string.
Variable labels : list string.

(** The element of the comprehension of [dashboard]. *)
Let body (index : nat) : Py row :=
  bind (results_data index) (fun result => get_row result).

Lemma body_in_range st index :
  (index < length st)%nat -> body index st = get_row index st.
Proof.
  intros Hi. unfold body, bind, results_data.
  destruct (decide (index < length st)%nat); [reflexivity|contradiction].
Qed.

Lemma comprehension_rows st (xs : list nat) (rows : list row) :
  Forall2 (fun index r => body index st = (Val r, st)) xs rows ->
  comprehension body xs st = (Val rows, st).
Proof.
  induction 1 as [|index r xs rows Hr _ IH]; cbn [comprehension]; [reflexivity|].
  unfold bind at 1. rewrite Hr. unfold bind at 1. rewrite IH. reflexivity.
Qed.

Lemma comprehension_raises st (before after : list nat) index e :
  Forall (fun j => exists r, body j st = (Val r, st)) before ->
  body index st = (Raise e, st) ->
  comprehension body (before ++ index :: after) st = (Raise e, st).
Proof.
  intros Hbefore Hfail. induction Hbefore as [|j before [r Hr] _ IH]; cbn [comprehension app].
  - unfold bind at 1. rewrite Hfail. reflexivity.
  - unfold bind at 1. rewrite Hr. unfold bind at 1. rewrite IH. reflexivity.
Qed.

Lemma dashboard_unfold st :
  dashboard summary_html details_html labels st
  = match comprehension body (seq 0 (length st)) st with
    | (Val data, st') =>
        match summary_html data labels with
        | Val summary =>
            match details_html st' with
            | Val details =>
                (Val (HTML (html summary details)), st')
            | Raise e => (Raise e, st')
            end
        | Raise e => (Raise e, st')
        end
    | (Raise e, st') => (Raise e, st')
    end.
Proof.
  unfold dashboard. unfold bind at 1. unfold len_results. cbv beta iota.
  unfold bind at 1. fold body.
  destruct (comprehension body (seq 0 (length st)) st) as [[data|e] st']; [|reflexivity].
  unfold bind, lift, ret.
  destruct (summary_html data labels); [|reflexivity].
  destruct (details_html st'); reflexivity.
Qed.

End Rows.

(** X19. The summary table of [dashboard] is built from one row for each
    result, in the order of the results, each row the row of [get_row]; and
    when [get_row] raises on a result and returns on the results before it,
    [dashboard] raises that exception, and no table is built. *)
Theorem dashboard_rows (summary_html : list row -> list string -> Res string)
    (details_html : Store -> Res string) (labels : list string) (st : Store) :
  (forall rows : list row,
     length rows = length st ->
     (forall index r, rows !! index = Some r -> get_row index st = (Val r, st)) ->
     dashboard summary_html details_html labels st
     = ((summary <- summary_html rows labels ;;
         details <- details_html st ;;
         Val (HTML (html summary details)))%res, st)) /\
  (forall index e,
     (index < length st)%nat ->
     (forall j, (j < index)%nat -> exists r, get_row j st = (Val r, st)) ->
     get_row index st = (Raise e, st) ->
     dashboard summary_html details_html labels st = (Raise e, st)).
Proof.
  split.
  - intros rows Hlen Hrows. rewrite dashboard_unfold.
    rewrite (comprehension_rows st (seq 0 (length st)) rows).
    + destruct (summary_html rows labels); cbn [rbind]; [|reflexivity].
      destruct (details_html st); reflexivity.
    + apply Forall2_same_length_lookup. split; [rewrite length_seq; lia|].
      intros i index r Hi Hr. apply lookup_seq in Hi as [-> Hi].
      rewrite body_in_range by assumption. apply Hrows. exact Hr.
  - intros index e Hi Hbefore Hfail. rewrite dashboard_unfold.
    replace (seq 0 (length st))
      with (seq 0 index ++ index :: seq (S index) (length st - S index)).
    + rewrite (comprehension_raises st _ _ index e); [reflexivity| |].
      * apply Forall_forall. intros j Hj. apply elem_of_seq in Hj.
        destruct (Hbefore j ltac:(lia)) as [r Hr]. exists r.
        rewrite body_in_range by lia. exact Hr.
      * rewrite body_in_range by assumption. exact Hfail.
    + change (index :: seq (S index) (length st - S index))
        with (seq index (S (length st - S index))).
      rewrite <- seq_app. f_equal. lia.
Qed.

(* ===================================================================== *)
(** * Facts about the construction of jobs *)
(* ===================================================================== *)

Section JobFacts.
Import Estimation.
Context {Obj Bytes Job : Type}.
Variable str : string -> Obj.
Variable AzureQuantumJob : @JobArguments Obj Bytes -> Res Job.

Lemma from_qir_configured (provider : Provider) bitcode kwargs b bn ct pid odf :
  provider "microsoft.estimator"%string = Val b ->
  configuration_azure b !! "blob_name"%string = Some bn ->
  configuration_azure b !! "content_type"%string = Some ct ->
  configuration_azure b !! "provider_id"%string = Some pid ->
  configuration_azure b !! "output_data_format"%string = Some odf ->
  resource_estimation_job_from_qir str AzureQuantumJob provider bitcode kwargs
  = AzureQuantumJob
      {| backend := b;
         target := backend_name b;
         name := default (str "QIR job") (kwargs !! "name"%string);
         input_data := bitcode;
         blob_name := bn;
         content_type := ct;
         provider_id := pid;
         input_data_format := str "qir.v1";
         output_data_format := odf;
         input_params := delete "name"%string kwargs;
         metadata := ∅ |}.
Proof.
  intros Hb H1 H2 H3 H4. unfold resource_estimation_job_from_qir, pop, item.
  rewrite Hb. cbn [rbind]. rewrite H1, H2, H3, H4. reflexivity.
Qed.

End JobFacts.

(** X20. With the estimator backend and the four entries of its
    configuration, [resource_estimation_job_from_qir] calls
    [AzureQuantumJob] with the bitcode as input, with the keyword argument
    [name] as the name of the job or [QIR job] without one, and with every
    other keyword argument, unchanged, as the input parameters: [name] is
    not among them. *)
Theorem resource_estimation_job_from_qir_arguments {Obj Bytes Job : Type}
    (str : string -> Obj)
    (AzureQuantumJob : @Estimation.JobArguments Obj Bytes -> Res Job)
    (provider : Estimation.Provider) (bitcode : Bytes) (kwargs : gmap string Obj)
    (b : Estimation.Backend) (bn ct pid odf : Obj) :
  provider "microsoft.estimator"%string = Val b ->
  Estimation.configuration_azure b !! "blob_name"%string = Some bn ->
  Estimation.configuration_azure b !! "content_type"%string = Some ct ->
  Estimation.configuration_azure b !! "provider_id"%string = Some pid ->
  Estimation.configuration_azure b !! "output_data_format"%string = Some odf ->
  exists args,
    Estimation.resource_estimation_job_from_qir str AzureQuantumJob provider bitcode kwargs
    = AzureQuantumJob args /\
    Estimation.name args = default (str "QIR job") (kwargs !! "name"%string) /\
    Estimation.input_params args !! "name"%string = None /\
    (forall key, key <> "name"%string ->
       Estimation.input_params args !! key = kwargs !! key) /\
    Estimation.input_data args = bitcode /\
    Estimation.target args = Estimation.backend_name b.
Proof.
  intros Hb H1 H2 H3 H4. eexists. split; [eapply from_qir_configured; eassumption|].
  cbn. split; [reflexivity|]. split; [apply lookup_delete_eq|].
  split; [|split; reflexivity].
  intros key Hkey. apply lookup_delete_ne. congruence.
Qed.

Lemma resource_estimation_job_from_qir_arguments_witness :
  let provider : Estimation.Provider := fun _ => Val Estimation.estimator in
  let config := Estimation.configuration_azure Estimation.estimator in
  let kwargs : gmap string value :=
    list_to_map [ ("name"%string, Str "Controlled S"); ("errorBudget"%string, Int 0) ] in
  provider "microsoft.estimator"%string = Val Estimation.estimator /\
  config !! "blob_name"%string = Some (Str "inputData") /\
  config !! "content_type"%string = Some (Str "qir.v1") /\
  config !! "provider_id"%string = Some (Str "microsoft-qc") /\
  config !! "output_data_format"%string = Some (Str "microsoft.resource-estimates.v1") /\
  exists args,
    Estimation.resource_estimation_job_from_qir Str Val provider "bitcode"%string kwargs
    = Val args /\
    Estimation.name args = default (Str "QIR job") (kwargs !! "name"%string) /\
    Estimation.input_params args !! "name"%string = None /\
    (forall key, key <> "name"%string ->
       Estimation.input_params args !! key = kwargs !! key) /\
    Estimation.input_data args = "bitcode"%string /\
    Estimation.target args = Estimation.backend_name Estimation.estimator.
Proof.
  intros provider config kwargs.
  split; [reflexivity|]. split; [reflexivity|]. split; [reflexivity|].
  split; [reflexivity|]. split; [reflexivity|].
  apply (resource_estimation_job_from_qir_arguments Str Val provider "bitcode"%string kwargs
           Estimation.estimator (Str "inputData") (Str "qir.v1") (Str "microsoft-qc")
           (Str "microsoft.resource-estimates.v1"));
    reflexivity.
Defined.

(** X21. When one of the four entries [blob_name], [content_type],
    [provider_id] and [output_data_format] is missing in the configuration
    of the backend, [resource_estimation_job_from_qir] raises [KeyError],
    whatever the constructor of the job does: no job is made. *)
Theorem resource_estimation_job_from_qir_KeyError {Obj Bytes Job : Type}
    (str : string -> Obj)
    (AzureQuantumJob : @Estimation.JobArguments Obj Bytes -> Res Job)
    (provider : Estimation.Provider) (bitcode : Bytes) (kwargs : gmap string Obj)
    (b : Estimation.Backend) (key : string) :
  provider "microsoft.estimator"%string = Val b ->
  key ∈ ["blob_name"; "content_type"; "provider_id"; "output_data_format"]%string ->
  Estimation.configuration_azure b !! key = None ->
  Estimation.resource_estimation_job_from_qir str AzureQuantumJob provider bitcode kwargs
  = Raise KeyError.
Proof.
  intros Hb Hkey Hnone.
  unfold Estimation.resource_estimation_job_from_qir, Estimation.pop, Estimation.item.
  rewrite Hb. cbn [rbind].
  apply list_elem_of_In in Hkey. cbn [In] in Hkey.
  destruct (Estimation.configuration_azure b !! "blob_name"%string) eqn:H1;
    [cbn [rbind]|reflexivity].
  destruct (Estimation.configuration_azure b !! "content_type"%string) eqn:H2;
    [cbn [rbind]|reflexivity].
  destruct (Estimation.configuration_azure b !! "provider_id"%string) eqn:H3;
    [cbn [rbind]|reflexivity].
  destruct (Estimation.configuration_azure b !! "output_data_format"%string) eqn:H4;
    [cbn [rbind]|reflexivity].
  destruct Hkey as [<-|[<-|[<-|[<-|[]]]]]; congruence.
Qed.

Lemma resource_estimation_job_from_qir_KeyError_witness :
  let provider : Estimation.Provider := fun _ => Val Estimation.unconfigured in
  provider "microsoft.estimator"%string = Val Estimation.unconfigured /\
  "provider_id"%string
    ∈ ["blob_name"; "content_type"; "provider_id"; "output_data_format"]%string /\
  Estimation.configuration_azure Estimation.unconfigured !! "provider_id"%string = None /\
  Estimation.resource_estimation_job_from_qir Str
    (Val : @Estimation.JobArguments value string -> Res Estimation.JobArguments)
    provider "bitcode"%string ∅
  = Raise KeyError.
Proof.
  intros provider.
  assert (Hin : "provider_id"%string
                ∈ ["blob_name"; "content_type"; "provider_id"; "output_data_format"]%string)
    by (apply list_elem_of_In; cbn; tauto).
  split; [reflexivity|]. split; [exact Hin|]. split; [reflexivity|].
  apply (resource_estimation_job_from_qir_KeyError Str Val provider "bitcode"%string ∅
           Estimation.unconfigured "provider_id"%string eq_refl Hin).
  reflexivity.
Defined.

(** X22. [resource_estimation_job_from_logical_counts] makes the job of
    [resource_estimation_job_from_qir] for the bitcode of the program text
    of its six counts: the keyword arguments are handed on, [name] names the
    job, and the counts are not among the input parameters. A keyword
    argument [bitcode] makes the inner call raise [TypeError]. *)
Theorem resource_estimation_job_from_logical_counts_job {Obj Bytes Job : Type}
    (str : string -> Obj)
    (AzureQuantumJob : @Estimation.JobArguments Obj Bytes -> Res Job)
    (dedent : string -> string) (ir_to_bitcode : string -> Res Bytes)
    (provider : Estimation.Provider)
    (qubit_count t_count rotation_count rotation_depth ccz_count
     measurement_count : option Z)
    (kwargs : gmap string Obj) (bitcode : Bytes)
    (b : Estimation.Backend) (bn ct pid odf : Obj) :
  ir_to_bitcode
    (dedent (Estimation.ir (default 0 qubit_count) (default 0 t_count)
               (default 0 rotation_count) (default 0 rotation_depth)
               (default 0 ccz_count) (default 0 measurement_count))) = Val bitcode ->
  provider "microsoft.estimator"%string = Val b ->
  Estimation.configuration_azure b !! "blob_name"%string = Some bn ->
  Estimation.configuration_azure b !! "content_type"%string = Some ct ->
  Estimation.configuration_azure b !! "provider_id"%string = Some pid ->
  Estimation.configuration_azure b !! "output_data_format"%string = Some odf ->
  (kwargs !! "provider"%string = None -> kwargs !! "bitcode"%string = None ->
   exists args,
     Estimation.resource_estimation_job_from_logical_counts str AzureQuantumJob dedent
       ir_to_bitcode provider qubit_count t_count rotation_count rotation_depth
       ccz_count measurement_count kwargs
     = AzureQuantumJob args /\
     Estimation.input_data args = bitcode /\
     Estimation.name args = default (str "QIR job") (kwargs !! "name"%string) /\
     Estimation.input_params args = delete "name"%string kwargs) /\
  (is_Some (kwargs !! "bitcode"%string) ->
   Estimation.resource_estimation_job_from_logical_counts str AzureQuantumJob dedent
     ir_to_bitcode provider qubit_count t_count rotation_count rotation_depth
     ccz_count measurement_count kwargs
   = Raise TypeError).
Proof.
  intros Hir Hb H1 H2 H3 H4.
  unfold Estimation.resource_estimation_job_from_logical_counts. cbv zeta.
  rewrite Hir. cbn [rbind]. unfold Estimation.call_from_qir. split.
  - intros Hp Hbc.
    destruct (decide _) as [[[x Hx]|[x Hx]]|_]; [congruence|congruence|].
    eexists. split; [eapply from_qir_configured; eassumption|].
    cbn. repeat split; reflexivity.
  - intros Hbc. destruct (decide _) as [_|Hno]; [reflexivity|].
    exfalso. apply Hno. right. exact Hbc.
Qed.

Lemma resource_estimation_job_from_logical_counts_job_witness :
  let provider : Estimation.Provider := fun _ => Val Estimation.estimator in
  let config := Estimation.configuration_azure Estimation.estimator in
  let kwargs : gmap string value := list_to_map [ ("errorBudget"%string, Int 0) ] in
  let text := Estimation.ir 12581 12 12 12 3731607428 1078154040 in
  Val (id text) = Val text /\
  provider "microsoft.estimator"%string = Val Estimation.estimator /\
  config !! "blob_name"%string = Some (Str "inputData") /\
  config !! "content_type"%string = Some (Str "qir.v1") /\
  config !! "provider_id"%string = Some (Str "microsoft-qc") /\
  config !! "output_data_format"%string = Some (Str "microsoft.resource-estimates.v1") /\
  (kwargs !! "provider"%string = None -> kwargs !! "bitcode"%string = None ->
   exists args,
     Estimation.resource_estimation_job_from_logical_counts Str Val id Val provider
       (Some 12581) (Some 12) (Some 12) (Some 12) (Some 3731607428) (Some 1078154040)
       kwargs
     = Val args /\
     Estimation.input_data args = text /\
     Estimation.name args = default (Str "QIR job") (kwargs !! "name"%string) /\
     Estimation.input_params args = delete "name"%string kwargs) /\
  (is_Some (kwargs !! "bitcode"%string) ->
   Estimation.resource_estimation_job_from_logical_counts Str
     (Val : @Estimation.JobArguments value string -> Res Estimation.JobArguments)
     id Val provider
     (Some 12581) (Some 12) (Some 12) (Some 12) (Some 3731607428) (Some 1078154040)
     kwargs
   = Raise TypeError).
Proof.
  intros provider config kwargs text.
  split; [reflexivity|]. split; [reflexivity|]. split; [reflexivity|].
  split; [reflexivity|]. split; [reflexivity|]. split; [reflexivity|].
  apply (resource_estimation_job_from_logical_counts_job Str Val id Val provider
           (Some 12581) (Some 12) (Some 12) (Some 12) (Some 3731607428) (Some 1078154040)
           kwargs text Estimation.estimator (Str "inputData") (Str "qir.v1") (Str "microsoft-qc")
           (Str "microsoft.resource-estimates.v1"));
    reflexivity.
Defined.

(** ** The program text of the logical counts *)

Section Numerals.
Import Estimation.

Lemma numeral_uint d : numeral (NilEmpty.string_of_uint d) = true.
Proof. induction d; cbn [NilEmpty.string_of_uint numeral]; try rewrite IHd; reflexivity. Qed.

Lemma numeral_str_of_int z : numeral (str_of_int z) = true.
Proof.
  unfold str_of_int, NilZero.string_of_int, NilZero.string_of_uint.
  destruct (Z.to_int z) as [d|d]; destruct d; cbn [numeral];
    rewrite ?numeral_uint; try reflexivity;
    cbn [NilEmpty.string_of_uint numeral]; rewrite ?numeral_uint; reflexivity.
Qed.

Lemma str_of_int_inj z1 z2 : str_of_int z1 = str_of_int z2 -> z1 = z2.
Proof.
  unfold str_of_int. intros H. apply to_int_inj.
  assert (Hn : forall z, Z.to_int z <> Decimal.Pos Decimal.Nil /\
                         Z.to_int z <> Decimal.Neg Decimal.Nil).
  { intros [|p|p]; cbn [Z.to_int]; split; try discriminate;
      intros [= Hp]; exact (Unsigned.to_uint_nonnil p Hp). }
  pose proof (NilZero.isi (Z.to_int z1) (proj1 (Hn z1)) (proj2 (Hn z1))) as H1.
  pose proof (NilZero.isi (Z.to_int z2) (proj1 (Hn z2)) (proj2 (Hn z2))) as H2.
  rewrite H in H1. congruence.
Qed.

(** Two texts that start with a numeral and go on with a character that
    is not of a numeral: the numerals are the same, and so is what follows. *)
Lemma numeral_split s1 s2 c1 c2 r1 r2 :
  numeral s1 = true -> numeral s2 = true ->
  numeral_char c1 = false -> numeral_char c2 = false ->
  s1 +:+ String c1 r1 = s2 +:+ String c2 r2 ->
  s1 = s2 /\ String c1 r1 = String c2 r2.
Proof.
  revert s2. induction s1 as [|a s1 IH]; intros [|b s2] H1 H2 Hc1 Hc2 H;
    cbn [String.append numeral] in *.
  - split; [reflexivity|assumption].
  - injection H as -> _. apply andb_prop in H2 as [H2 _]. congruence.
  - injection H as -> _. apply andb_prop in H1 as [H1 _]. congruence.
  - injection H as -> H. apply andb_prop in H1 as [_ H1]. apply andb_prop in H2 as [_ H2].
    destruct (IH s2 H1 H2 Hc1 Hc2 H) as [-> ->]. split; reflexivity.
Qed.

Lemma append_cancel (p a b : string) : p +:+ a = p +:+ b -> a = b.
Proof. induction p as [|c p IH]; cbn [String.append]; [tauto|]. intros [= H]. auto. Qed.

End Numerals.

(** The same text in front, and a numeral in front. *)
Ltac strip H := repeat (apply append_cancel in H).
Ltac numeral_step H Hz :=
  apply numeral_split in H as [Hz H];
  [ apply str_of_int_inj in Hz
  | apply numeral_str_of_int | apply numeral_str_of_int | reflexivity | reflexivity ].

(** X23. The program text that [resource_estimation_job_from_logical_counts]
    builds determines the six counts: two calls with the same text have the
    same [qubit_count], [t_count], [rotation_count], [rotation_depth],
    [ccz_count] and [measurement_count]. *)
Theorem ir_injective (q1 t1 r1 d1 c1 m1 q2 t2 r2 d2 c2 m2 : Z) :
  Estimation.ir q1 t1 r1 d1 c1 m1 = Estimation.ir q2 t2 r2 d2 c2 m2 ->
  q1 = q2 /\ t1 = t2 /\ r1 = r2 /\ d1 = d2 /\ c1 = c2 /\ m1 = m2.
Proof.
  unfold Estimation.ir. intros H.
  strip H. numeral_step H Hq. injection H as H.
  strip H. numeral_step H Ht. injection H as H.
  strip H. numeral_step H Hr. injection H as H.
  strip H. numeral_step H Hd. injection H as H.
  strip H. numeral_step H Hc. injection H as H.
  strip H. numeral_step H Hm.
  repeat split; assumption.
Qed.

Lemma ir_injective_witness :
  Estimation.ir 1 23 0 0 0 0 = Estimation.ir 1 23 0 0 0 0 /\
  (1 = 1 /\ 23 = 23 /\ 0 = 0 /\ 0 = 0 /\ 0 = 0 /\ 0 = 0).
Proof. split; [reflexivity|]. apply (ir_injective 1 23 0 0 0 0 1 23 0 0 0 0). reflexivity. Defined.

